(** * Sentiment pipeline of [youtube_sentiment.sentiment_analyzer]

    A shallow embedding of the response interpreter ([analyze_comment]),
    the batch loop ([analyze_comments_batch]) and the summary
    ([analyze_video_comments]) of [SentimentAnalyzer], with the
    properties the specification states about them.

    - [Text], [Py]: Python strings and values, as far as the analyzer
      uses them.
    - [Json]: the decoder [json.loads] of the standard library, with
      the two limits of the interpreter it can meet.
    - [Analyzer]: the three methods, line by line, over a state that
      holds the comment objects, the calls of the model, the random
      draws and the waits.
    - [Youtube], [Report]: the comment provider of
      [youtube_sentiment.youtube_api] over a client that answers the
      requests, and the table of [youtube_sentiment.report_generator].
    - Then the lemmas, and one theorem for each property C1-C10.
    - Then further properties of the analyzer, the provider and the
      table, X1-X25. *)

From Stdlib Require Import ZArith NArith QArith Lqa Lia Ascii String DecimalString.
From stdpp Require Import base list.

Local Open Scope Z_scope.

(** ** Text

    A Python [str] is a sequence of code points. *)

Module Text.

Definition str : Type := list N.

Definition lit (s : string) : str :=
  map N_of_ascii (list_ascii_of_string s).
Arguments lit s%_string.

Definition dquote : N := 34%N.
Definition backslash : N := 92%N.
Definition backtick : N := 96%N.
Definition lbrace : N := 123%N.
Definition rbrace : N := 125%N.
Definition newline : N := 10%N.

Definition in_range (lo hi c : N) : bool := ((lo <=? c) && (c <=? hi))%N.

(** [str.isspace] for one code point (CPython's [_PyUnicode_IsWhitespace]). *)
Definition is_space (c : N) : bool :=
  in_range 9 13 c || in_range 28 32 c || (c =? 133)%N || (c =? 160)%N
  || (c =? 5760)%N || in_range 8192 8202 c || (c =? 8232)%N || (c =? 8233)%N
  || (c =? 8239)%N || (c =? 8287)%N || (c =? 12288)%N.

(** The text without its leading characters that satisfy [p]. *)
Fixpoint lstrip_by (p : N -> bool) (s : str) : str :=
  match s with
  | [] => []
  | c :: r => if p c then lstrip_by p r else s
  end.

Definition rstrip_by (p : N -> bool) (s : str) : str :=
  rev (lstrip_by p (rev s)).

Definition strip_by (p : N -> bool) (s : str) : str :=
  rstrip_by p (lstrip_by p s).

(** [s.strip()] *)
Definition py_strip (s : str) : str := strip_by is_space s.

(** [s.startswith(p)] *)
Fixpoint startswith (p s : str) : bool :=
  match p, s with
  | [], _ => true
  | _ :: _, [] => false
  | a :: p', b :: s' => (a =? b)%N && startswith p' s'
  end.

(** [s.endswith(p)] *)
Definition endswith (p s : str) : bool := startswith (rev p) (rev s).

(** [p in s] for two strings *)
Fixpoint contains (p s : str) : bool :=
  startswith p s || match s with [] => false | _ :: r => contains p r end.

(** [s.find(c)] for a one-character needle: first index, or -1. *)
Fixpoint find (c : N) (s : str) : Z :=
  match s with
  | [] => -1
  | x :: r =>
      if (x =? c)%N then 0
      else let i := find c r in if i <? 0 then -1 else i + 1
  end.

(** [s.rfind(c)] for a one-character needle: last index, or -1. *)
Fixpoint rfind (c : N) (s : str) : Z :=
  match s with
  | [] => -1
  | x :: r =>
      let i := rfind c r in
      if 0 <=? i then i + 1 else if (x =? c)%N then 0 else -1
  end.

(** [s[a:b]] for [0 <= a] and [0 <= b]. *)
Definition slice (a b : Z) (s : str) : str :=
  take (Z.to_nat (b - a)) (drop (Z.to_nat a) s).

(** [s[:-k]] *)
Definition drop_last (k : nat) (s : str) : str := take (length s - k) s.

(** [s.lower()] on the letters A-Z.  Outside ASCII only U+0130 and U+212A
    lower to something with an ASCII letter (i and k), and neither letter
    occurs in the one word the analyzer looks for in lowered text. *)
Definition lower_char (c : N) : N :=
  if in_range 65 90 c then (c + 32)%N else c.

Definition lower (s : str) : str := map lower_char s.

Definition str_eqb (a b : str) : bool := bool_decide (a = b).

End Text.
Export Text.

(** ** Python values *)

Module Py.

(** A float is carried as the decimal literal that denotes it (sign,
    coefficient, power of ten) or as one of the three constants; the
    pipeline passes scores through and does no arithmetic on them. *)
Inductive pyfloat :=
| FDec (neg : bool) (coef : N) (exp10 : Z)
| FNaN
| FInf (neg : bool).

#[local] Unset Elimination Schemes.

Inductive pyval :=
| PNone
| PBool (b : bool)
| PInt (z : Z)
| PFloat (f : pyfloat)
| PStr (s : str)
| PList (l : list pyval)
| PDict (d : list (str * pyval)).

#[local] Set Elimination Schemes.

(** A dict keeps its keys in insertion order. *)
Definition dict : Type := list (str * pyval).

Fixpoint dict_get (k : str) (d : dict) : option pyval :=
  match d with
  | [] => None
  | (k', v) :: r => if str_eqb k' k then Some v else dict_get k r
  end.

Definition dict_has (k : str) (d : dict) : bool :=
  match dict_get k d with Some _ => true | None => false end.

(** [d[k] = v]: replaces in place, or appends a new key. *)
Fixpoint dict_set (k : str) (v : pyval) (d : dict) : dict :=
  match d with
  | [] => [(k, v)]
  | (k', v') :: r =>
      if str_eqb k' k then (k', v) :: r else (k', v') :: dict_set k v r
  end.

(** [dict(pairs)] *)
Definition dict_of_pairs (pairs : list (str * pyval)) : dict :=
  fold_left (fun d kv => dict_set (fst kv) (snd kv) d) pairs [].

Definition zero_float : pyval := PFloat (FDec false 0 0).

Definition is_str (s : str) (v : pyval) : bool :=
  match v with PStr s' => str_eqb s' s | _ => false end.

(** The outcome of a call that may raise; an exception is kept as the
    text [str(e)] gives.  The texts below are CPython 3.12's; the
    properties only use that they are not empty and what they contain. *)
Inductive res (A : Type) :=
| Ok (a : A)
| Raise (msg : str).
Arguments Ok {A} a.
Arguments Raise {A} msg.

Definition type_name (v : pyval) : str :=
  match v with
  | PNone => lit "NoneType"
  | PBool _ => lit "bool"
  | PInt _ => lit "int"
  | PFloat _ => lit "float"
  | PStr _ => lit "str"
  | PList _ => lit "list"
  | PDict _ => lit "dict"
  end.

(** [field in v] for a string [field]. *)
Definition py_in (field : str) (v : pyval) : res bool :=
  match v with
  | PDict d => Ok (dict_has field d)
  | PList l => Ok (existsb (is_str field) l)
  | PStr s => Ok (contains field s)
  | _ => Raise (lit "argument of type '" ++ type_name v ++ lit "' is not iterable")
  end.

(** [v[field] = x] for a string [field]. *)
Definition py_setitem (v : pyval) (field : str) (x : pyval) : res pyval :=
  match v with
  | PDict d => Ok (PDict (dict_set field x d))
  | PList _ => Raise (lit "list indices must be integers or slices, not str")
  | _ => Raise (lit "'" ++ type_name v
                ++ lit "' object does not support item assignment")
  end.

(** [v[field]] for a string [field]. *)
Definition py_getitem (v : pyval) (field : str) : res pyval :=
  match v with
  | PDict d =>
      match dict_get field d with
      | Some x => Ok x
      | None => Raise (lit "'" ++ field ++ lit "'")
      end
  | PList _ => Raise (lit "list indices must be integers or slices, not str")
  | PStr _ => Raise (lit "string indices must be integers, not 'str'")
  | _ => Raise (lit "'" ++ type_name v ++ lit "' object is not subscriptable")
  end.

End Py.
Export Py.

(** ** [json.loads]

    The decoder of Python's standard library, for a [str] argument and
    with its default options: the JSON grammar with blanks allowed
    around every token, strings in strict mode, the constants [NaN],
    [Infinity] and [-Infinity], the last value kept for a repeated key.

    The decoder ends in one of three ways: with the value, with
    [json.JSONDecodeError], or with an exception of the interpreter that
    is no [JSONDecodeError] - the [RecursionError] of arrays and objects
    nested deeper than the interpreter has room for, the [ValueError] of
    an integer literal with more digits than [int] accepts.  It reads the
    text from left to right, so what it meets first decides. *)

Module Json.

Inductive token :=
| TLBrace | TRBrace | TLBrack | TRBrack | TComma | TColon
| TStr (s : str)
| TVal (v : pyval).

Definition is_json_ws (c : N) : bool :=
  (c =? 32)%N || (c =? 9)%N || (c =? 10)%N || (c =? 13)%N.

Definition skip_ws (s : str) : str := lstrip_by is_json_ws s.

(** The text between the blanks at both ends; a text and this part of it
    have the same tokens ([lex_json_trim]). *)
Definition json_trim (s : str) : str := strip_by is_json_ws s.

Definition is_digit (c : N) : bool := in_range 48 57 c.

Fixpoint span_digits (s : str) : str * str :=
  match s with
  | [] => ([], [])
  | c :: r =>
      if is_digit c then let '(ds, rest) := span_digits r in (c :: ds, rest)
      else ([], s)
  end.

Definition digits_value (ds : str) : N :=
  fold_left (fun acc d => (10 * acc + (d - 48))%N) ds 0%N.

Definition hex_value (c : N) : option N :=
  if in_range 48 57 c then Some (c - 48)%N
  else if in_range 97 102 c then Some (c - 87)%N
  else if in_range 65 70 c then Some (c - 55)%N
  else None.

Definition hex4 (a b c d : N) : option N :=
  match hex_value a, hex_value b, hex_value c, hex_value d with
  | Some x, Some y, Some z, Some w => Some (((x * 16 + y) * 16 + z) * 16 + w)%N
  | _, _, _, _ => None
  end.

(** The character after a backslash, other than [u]. *)
Definition unescape (e : N) : option N :=
  if (e =? dquote)%N then Some dquote
  else if (e =? backslash)%N then Some backslash
  else if (e =? 47)%N then Some 47%N
  else if (e =? 98)%N then Some 8%N
  else if (e =? 102)%N then Some 12%N
  else if (e =? 110)%N then Some 10%N
  else if (e =? 114)%N then Some 13%N
  else if (e =? 116)%N then Some 9%N
  else None.

Definition push (c : N) (o : option (str * str)) : option (str * str) :=
  match o with
  | Some (acc, rest) => Some (c :: acc, rest)
  | None => None
  end.

Definition is_high_surrogate (u : N) : bool := in_range 55296 56319 u.
Definition is_low_surrogate (u : N) : bool := in_range 56320 57343 u.
Definition join_surrogates (hi lo : N) : N :=
  (65536 + (hi - 55296) * 1024 + (lo - 56320))%N.

(** The body of a string, from after the opening quote to the closing
    one: the decoded text and what follows the closing quote. *)
Fixpoint lex_string (s : str) : option (str * str) :=
  match s with
  | [] => None
  | c :: r =>
      if (c =? dquote)%N then Some ([], r)
      else if (c =? backslash)%N then
        match r with
        | [] => None
        | e :: r1 =>
            if (e =? 117)%N then
              match r1 with
              | h1 :: h2 :: h3 :: h4 :: r2 =>
                  match hex4 h1 h2 h3 h4 with
                  | None => None
                  | Some u =>
                      match r2 with
                      | b :: e' :: g1 :: g2 :: g3 :: g4 :: r3 =>
                          if is_high_surrogate u && (b =? backslash)%N
                             && (e' =? 117)%N then
                            match hex4 g1 g2 g3 g4 with
                            | None => None
                            | Some u2 =>
                                if is_low_surrogate u2
                                then push (join_surrogates u u2) (lex_string r3)
                                else push u (lex_string r2)
                            end
                          else push u (lex_string r2)
                      | _ => push u (lex_string r2)
                      end
                  end
              | _ => None
              end
            else
              match unescape e with
              | Some x => push x (lex_string r1)
              | None => None
              end
        end
      else if (c <? 32)%N then None
      else push c (lex_string r)
  end.

(** A number: an optional minus, then 0 or a digit 1-9 with more digits,
    then an optional fraction (a dot and one digit or more), then an
    optional exponent (e or E, an optional sign, one digit or more); an
    [int] without fraction and exponent and a [float] otherwise. *)
Definition lex_int_part (s : str) : option (str * str) :=
  match s with
  | [] => None
  | d :: r =>
      if (d =? 48)%N then Some ([d], r)
      else if in_range 49 57 d then
        let '(ds, rest) := span_digits r in Some (d :: ds, rest)
      else None
  end.

Definition lex_frac_part (s : str) : option str * str :=
  match s with
  | c :: r =>
      if (c =? 46)%N then
        match span_digits r with
        | ([], _) => (None, s)
        | (fs, rest) => (Some fs, rest)
        end
      else (None, s)
  | [] => (None, s)
  end.

Definition lex_exp_part (s : str) : option Z * str :=
  match s with
  | c :: r =>
      if (c =? 101)%N || (c =? 69)%N then
        let '(neg, r1) :=
          match r with
          | sg :: r' =>
              if (sg =? 45)%N then (true, r')
              else if (sg =? 43)%N then (false, r') else (false, r)
          | [] => (false, r)
          end in
        match span_digits r1 with
        | ([], _) => (None, s)
        | (es, rest) =>
            let e := Z.of_N (digits_value es) in
            (Some (if neg then - e else e), rest)
        end
      else (None, s)
  | [] => (None, s)
  end.

Definition lex_number (s : str) : option (pyval * str) :=
  let '(neg, s1) :=
    match s with
    | c :: r => if (c =? 45)%N then (true, r) else (false, s)
    | [] => (false, s)
    end in
  match lex_int_part s1 with
  | None => None
  | Some (ds, s2) =>
      let '(frac, s3) := lex_frac_part s2 in
      let '(ex, s4) := lex_exp_part s3 in
      match frac, ex with
      | None, None =>
          let n := Z.of_N (digits_value ds) in
          Some (PInt (if neg then - n else n), s4)
      | _, _ =>
          let fs := default [] frac in
          let e := default 0 ex in
          Some (PFloat (FDec neg (digits_value (ds ++ fs))
                          (e - Z.of_nat (length fs))), s4)
      end
  end.

Definition lex_word (w : string) (v : pyval) (s : str) : option (token * str) :=
  if startswith (lit w) s then Some (TVal v, drop (length (lit w)) s) else None.
Arguments lex_word w%_string v s.

(** One token at the head of [s], in the order the scanner tries them. *)
Definition lex_token (s : str) : option (token * str) :=
  match s with
  | [] => None
  | c :: r =>
      if (c =? dquote)%N then
        match lex_string r with
        | Some (body, rest) => Some (TStr body, rest)
        | None => None
        end
      else if (c =? lbrace)%N then Some (TLBrace, r)
      else if (c =? rbrace)%N then Some (TRBrace, r)
      else if (c =? 91)%N then Some (TLBrack, r)
      else if (c =? 93)%N then Some (TRBrack, r)
      else if (c =? 44)%N then Some (TComma, r)
      else if (c =? 58)%N then Some (TColon, r)
      else if startswith (lit "null") s then lex_word "null" PNone s
      else if startswith (lit "true") s then lex_word "true" (PBool true) s
      else if startswith (lit "false") s then lex_word "false" (PBool false) s
      else
        match lex_number s with
        | Some (v, rest) => Some (TVal v, rest)
        | None =>
            if startswith (lit "NaN") s then lex_word "NaN" (PFloat FNaN) s
            else if startswith (lit "Infinity") s
            then lex_word "Infinity" (PFloat (FInf false)) s
            else lex_word "-Infinity" (PFloat (FInf true)) s
        end
  end.

(** The result of a scan when [w] is added at the end of the text. *)
Definition followed_by {A} (w : N) (o : option (A * str)) : option (A * str) :=
  match o with
  | Some (a, rest) => Some (a, rest ++ [w])
  | None => None
  end.

(** The characters a token can start with. *)
Definition token_start (c : N) : bool :=
  (c =? dquote)%N || (c =? lbrace)%N || (c =? rbrace)%N || (c =? 91)%N
  || (c =? 93)%N || (c =? 44)%N || (c =? 58)%N || (c =? 110)%N
  || (c =? 116)%N || (c =? 102)%N || (c =? 45)%N || is_digit c
  || (c =? 78)%N || (c =? 73)%N.

(** The characters a token can end with. *)
Definition token_end (c : N) : bool :=
  (c =? dquote)%N || (c =? lbrace)%N || (c =? rbrace)%N || (c =? 91)%N
  || (c =? 93)%N || (c =? 44)%N || (c =? 58)%N || is_digit c
  || (c =? 108)%N || (c =? 101)%N || (c =? 78)%N || (c =? 121)%N.

(** All the tokens of [s].  Every token takes at least one character, so
    [length s] rounds of fuel and one more are enough (see
    [lex_fuel_enough]). *)
Fixpoint lex_fuel (fuel : nat) (s : str) : option (list token) :=
  match fuel with
  | O => None
  | S fuel' =>
      match skip_ws s with
      | [] => Some []
      | s' =>
          match lex_token s' with
          | Some (t, rest) =>
              match lex_fuel fuel' rest with
              | Some ts => Some (t :: ts)
              | None => None
              end
          | None => None
          end
      end
  end.

Definition lex (s : str) : option (list token) := lex_fuel (S (length s)) s.

(** The grammar, read off one token at a time with a stack of the
    containers that are still open. *)
Inductive frame :=
| FArr (acc : list pyval)
| FObj (acc : list (str * pyval)) (key : str).

Inductive pstate :=
| PValue (stk : list frame)
| PArrOpen (stk : list frame)
| PArrNext (acc : list pyval) (stk : list frame)
| PObjOpen (stk : list frame)
| PObjKey (acc : list (str * pyval)) (stk : list frame)
| PObjColon (acc : list (str * pyval)) (key : str) (stk : list frame)
| PObjNext (acc : list (str * pyval)) (stk : list frame)
| PDone (v : pyval).

(** A value is complete: it goes into the innermost open container. *)
Definition reduce (v : pyval) (stk : list frame) : pstate :=
  match stk with
  | [] => PDone v
  | FArr acc :: stk' => PArrNext (v :: acc) stk'
  | FObj acc key :: stk' => PObjNext ((key, v) :: acc) stk'
  end.

Definition start_value (t : token) (stk : list frame) : option pstate :=
  match t with
  | TStr s => Some (reduce (PStr s) stk)
  | TVal v => Some (reduce v stk)
  | TLBrack => Some (PArrOpen stk)
  | TLBrace => Some (PObjOpen stk)
  | _ => None
  end.

Definition step (st : pstate) (t : token) : option pstate :=
  match st with
  | PValue stk => start_value t stk
  | PArrOpen stk =>
      match t with
      | TRBrack => Some (reduce (PList []) stk)
      | _ => start_value t (FArr [] :: stk)
      end
  | PArrNext acc stk =>
      match t with
      | TComma => Some (PValue (FArr acc :: stk))
      | TRBrack => Some (reduce (PList (rev acc)) stk)
      | _ => None
      end
  | PObjOpen stk =>
      match t with
      | TRBrace => Some (reduce (PDict []) stk)
      | TStr k => Some (PObjColon [] k stk)
      | _ => None
      end
  | PObjKey acc stk =>
      match t with
      | TStr k => Some (PObjColon acc k stk)
      | _ => None
      end
  | PObjColon acc k stk =>
      match t with
      | TColon => Some (PValue (FObj acc k :: stk))
      | _ => None
      end
  | PObjNext acc stk =>
      match t with
      | TComma => Some (PObjKey acc stk)
      | TRBrace => Some (reduce (PDict (dict_of_pairs (rev acc))) stk)
      | _ => None
      end
  | PDone _ => None
  end.

Fixpoint run (st : pstate) (ts : list token) : option pstate :=
  match ts with
  | [] => Some st
  | t :: r =>
      match step st t with
      | Some st' => run st' r
      | None => None
      end
  end.

Definition parse (ts : list token) : option pyval :=
  match run (PValue []) ts with
  | Some (PDone v) => Some v
  | _ => None
  end.

(** The value the grammar gives a text, the limits of the interpreter
    aside; [None] when the text is not JSON. *)
Definition json_value (s : str) : option pyval :=
  match lex s with
  | Some ts => parse ts
  | None => None
  end.

(** The limits of the interpreter that the decoder can meet.  Both
    depend on the interpreter and on the place of the call:
    [recursion_room] is the number of arrays and objects, one inside the
    other, that the decoder can enter before [Py_EnterRecursiveCall]
    fails (the recursion limit less the depth of the call);
    [int_max_str_digits] is [sys.get_int_max_str_digits()], 4300 unless
    it was set, and 0 when the limit is off or the interpreter is older
    than the limit. *)
Class Limits := {
  recursion_room : nat;
  int_max_str_digits : nat
}.

(** How a call of [json.loads] ends; [Raised] carries [str(e)] of an
    exception other than [JSONDecodeError]. *)
Inductive loads_result :=
| Decoded (v : pyval)
| JSONDecodeError
| Raised (e : str).

(** The digits of the integer part of a number at the head of [s], the
    sign aside: what [int] counts of an integer literal. *)
Definition literal_digits (s : str) : nat :=
  let s1 :=
    match s with
    | c :: r => if (c =? 45)%N then r else s
    | [] => s
    end in
  match lex_int_part s1 with
  | Some (ds, _) => length ds
  | None => O
  end.

(** The tokens of [s] up to its end or up to the first stretch that is no
    token, each with the digits of its text when it is a number, and
    whether the end was reached. *)
Fixpoint scan_fuel (fuel : nat) (s : str) : list (token * nat) * bool :=
  match fuel with
  | O => ([], false)
  | S fuel' =>
      match skip_ws s with
      | [] => ([], true)
      | s' =>
          match lex_token s' with
          | Some (t, rest) =>
              let '(ts, whole) := scan_fuel fuel' rest in
              ((t, literal_digits s') :: ts, whole)
          | None => ([], false)
          end
      end
  end.

Definition scan (s : str) : list (token * nat) * bool :=
  scan_fuel (S (length s)) s.

(** The arrays and objects that are open in a state. *)
Definition depth (st : pstate) : nat :=
  match st with
  | PValue stk => length stk
  | PArrOpen stk | PArrNext _ stk | PObjOpen stk | PObjKey _ stk
  | PObjColon _ _ stk | PObjNext _ stk => S (length stk)
  | PDone _ => 0
  end.

(** A number in decimal digits. *)
Definition nat_text (n : nat) : str :=
  lit (NilZero.string_of_uint (Nat.to_uint n)).

Definition recursion_error (what : string) : str :=
  lit "maximum recursion depth exceeded while decoding a JSON " ++ lit what
  ++ lit " from a unicode string".
Arguments recursion_error what%_string.

(** How a run over the tokens ends: in a state, with a token the grammar
    does not allow, or at a limit of the interpreter. *)
Inductive run_result :=
| Stopped (st : pstate)
| Rejected
| Exceeded (e : str).

Section WithLimits.

Context `{L : Limits}.

(** [int] refuses a literal of [n] digits when the limit is on and [n]
    is more than [int_max_str_digits]; it does not count the digits of a
    literal of 640 or fewer. *)
Definition over_digits (n : nat) : bool :=
  (640 <? n)%nat && (0 <? int_max_str_digits)%nat
  && (int_max_str_digits <? n)%nat.

Definition digits_error (n : nat) : str :=
  lit "Exceeds the limit (" ++ nat_text int_max_str_digits
  ++ lit " digits) for integer string conversion: value has "
  ++ nat_text n
  ++ lit " digits; use sys.set_int_max_str_digits() to increase the limit".

(** What the decoder does with a token it accepts in state [st], before
    it goes on: it enters an array or an object, for which it needs room,
    or makes an [int] of an integer literal of [n] digits. *)
Definition limit_hit (st : pstate) (t : token) (n : nat) : option str :=
  match t with
  | TLBrack =>
      if (recursion_room <=? depth st)%nat
      then Some (recursion_error "array") else None
  | TLBrace =>
      if (recursion_room <=? depth st)%nat
      then Some (recursion_error "object") else None
  | TVal (PInt _) => if over_digits n then Some (digits_error n) else None
  | _ => None
  end.

Fixpoint run_limited (st : pstate) (ts : list (token * nat)) : run_result :=
  match ts with
  | [] => Stopped st
  | (t, n) :: r =>
      match step st t with
      | None => Rejected
      | Some st' =>
          match limit_hit st t n with
          | Some e => Exceeded e
          | None => run_limited st' r
          end
      end
  end.

(** [json.loads], as the scanner of CPython runs it: token after token
    from the left, each accepted token checked against the limits before
    the next is read; text after the value is an error of the grammar. *)
Definition json_loads (s : str) : loads_result :=
  let '(ts, whole) := scan s in
  match run_limited (PValue []) ts with
  | Exceeded e => Raised e
  | Rejected => JSONDecodeError
  | Stopped (PDone v) => if whole then Decoded v else JSONDecodeError
  | Stopped _ => JSONDecodeError
  end.

End WithLimits.

End Json.
Export Json.

(** ** The analyzer *)

Module Analyzer.

(** What [model.generate_content] returns: the analyzer reads [text] when
    the response has it, else joins the texts of [parts], else takes
    [str(response)]. *)
Record response := {
  r_text : option str;
  r_parts : option (list str);
  r_str : str
}.

(** A comment is a dict with the provider's keys; [text] and
    [sentiment_analysis] are the two the analyzer looks at, each present
    or not, and [fields] holds the others. *)
Record comment := {
  text : option str;
  sentiment_analysis : option pyval;
  fields : dict
}.

(** The state a run goes through: the store of comment objects (a
    reference is an index into it), the prompts sent to the model so far,
    the number of random draws, and the waits of [time.sleep], in
    seconds.  What the analyzer prints and the progress bar have no
    effect on the results and are left out. *)
Record world := {
  heap : list comment;
  prompts : list str;
  draws : nat;
  sleeps : list Q
}.

(** A computation that reads and changes the state and may raise. *)
Definition M (A : Type) : Type := world -> res A * world.

Definition ret {A} (a : A) : M A := fun w => (Ok a, w).

Definition bind {A B} (m : M A) (k : A -> M B) : M B :=
  fun w =>
    match m w with
    | (Ok a, w') => k a w'
    | (Raise e, w') => (Raise e, w')
    end.

Definition lift {A} (r : res A) : M A := fun w => (r, w).

Notation "x <- m ; k" := (bind m (fun x => k))
  (at level 20, m at level 100, k at level 200, only parsing).

(** [for x in l: acc = f x acc] *)
Fixpoint for_each {A B} (f : A -> B -> M B) (l : list A) (acc : B) : M B :=
  match l with
  | [] => ret acc
  | x :: r => acc' <- f x acc ; for_each f r acc'
  end.

Definition line (s : string) : str := lit s ++ [newline].
Definition quoted (s : string) : str := dquote :: lit s ++ [dquote].
Arguments line s%_string.
Arguments quoted s%_string.

Definition prompt_head : str :=
  [newline]
  ++ line "        Task: Analyze the sentiment of the following YouTube comment."
  ++ line "        "
  ++ lit "        Comment: " ++ [dquote].

Definition prompt_tail : str :=
  [dquote; newline]
  ++ line "        "
  ++ line "        Provide a detailed sentiment analysis with the following information:"
  ++ line "        - Overall sentiment classification (must be exactly one of: positive, negative, or neutral)"
  ++ line "        - Sentiment score (a number from -1.0 to 1.0, where -1.0 is very negative, 0.0 is neutral, and 1.0 is very positive)"
  ++ line "        - Key sentiment phrases from the comment"
  ++ line "        - Topics mentioned in the comment"
  ++ line "        - Emotional tone detected (e.g., excited, angry, sad, etc.)"
  ++ line "        "
  ++ line "        Format your response ONLY as a valid JSON object with this exact structure:"
  ++ line "        {"
  ++ lit "            " ++ quoted "sentiment" ++ lit ": " ++ quoted "positive"
  ++ lit " or " ++ quoted "negative" ++ lit " or " ++ quoted "neutral"
  ++ line ","
  ++ lit "            " ++ quoted "score"
  ++ line ": number between -1.0 and 1.0,"
  ++ lit "            " ++ quoted "key_phrases" ++ line ": [list of strings],"
  ++ lit "            " ++ quoted "topics" ++ line ": [list of strings],"
  ++ lit "            " ++ quoted "emotional_tone" ++ line ": [list of strings]"
  ++ line "        }"
  ++ line "        "
  ++ line "        Return ONLY the JSON object, nothing else."
  ++ lit "        ".

Definition make_prompt (comment_text : str) : str :=
  prompt_head ++ comment_text ++ prompt_tail.

Definition response_text (r : response) : str :=
  match r_text r with
  | Some t => t
  | None =>
      match r_parts r with
      | Some ps => concat ps
      | None => r_str r
      end
  end.

Definition fence_json : str := lit "```json".
Definition fence : str := lit "```".

(** Lines 116-126: trim, drop the code-block markers, trim again. *)
Definition clean_response (response_text : str) : str :=
  let t := py_strip response_text in
  let t := if startswith fence_json t then drop 7 t else t in
  let t := if startswith fence t then drop 3 t else t in
  let t := if endswith fence t then drop_last 3 t else t in
  py_strip t.

Definition _create_default_result : dict :=
  [ (lit "sentiment", PStr (lit "unknown"));
    (lit "score", zero_float);
    (lit "key_phrases", PList []);
    (lit "topics", PList []);
    (lit "emotional_tone", PList []) ].

Definition _get_default_value (field : str) : pyval :=
  default PNone (dict_get field _create_default_result).

Section Interpreting.

Context `{L : Limits}.

(** Lines 129-148: the whole text as JSON, else the text from the first
    opening brace to the last closing one, else the default record.  The
    two handlers are for [json.JSONDecodeError]: another exception of
    [json.loads] passes them. *)
Definition parse_response (response_text : str) : res pyval :=
  match json_loads response_text with
  | Decoded result => Ok result
  | Raised e => Raise e
  | JSONDecodeError =>
      let start_idx := find lbrace response_text in
      let end_idx := rfind rbrace response_text + 1 in
      if (0 <=? start_idx) && (start_idx <? end_idx) then
        match json_loads (slice start_idx end_idx response_text) with
        | Decoded result => Ok result
        | JSONDecodeError => Ok (PDict _create_default_result)
        | Raised e => Raise e
        end
      else Ok (PDict _create_default_result)
  end.

Definition required_fields : list str :=
  [ lit "sentiment"; lit "score"; lit "key_phrases"; lit "topics";
    lit "emotional_tone" ].

(** Lines 151-154. *)
Fixpoint fill_required (fields : list str) (result : pyval) : res pyval :=
  match fields with
  | [] => Ok result
  | field :: rest =>
      match py_in field result with
      | Raise e => Raise e
      | Ok true => fill_required rest result
      | Ok false =>
          match py_setitem result field (_get_default_value field) with
          | Raise e => Raise e
          | Ok result' => fill_required rest result'
          end
      end
  end.

(** Lines 159-166: the record of the [except Exception] handler. *)
Definition error_result (e : str) : pyval :=
  PDict
    [ (lit "sentiment", PStr (lit "error"));
      (lit "score", zero_float);
      (lit "key_phrases", PList []);
      (lit "topics", PList []);
      (lit "emotional_tone", PList []);
      (lit "error", PStr e) ].

(** Lines 116-156, the part of the [try] block after the model's answer
    has been read. *)
Definition interpret_body (response_text : str) : res pyval :=
  match parse_response (clean_response response_text) with
  | Ok result => fill_required required_fields result
  | Raise e => Raise e
  end.

(** The response interpreter: the body above under the handler of
    [analyze_comment]. *)
Definition interpret (response_text : str) : pyval :=
  match interpret_body response_text with
  | Ok result => result
  | Raise e => error_result e
  end.

End Interpreting.

Definition truncate (comment_text : str) : str :=
  if (1000 <? length comment_text)%nat
  then take 997 comment_text ++ lit "..."
  else comment_text.

Definition with_error (d : dict) (e : str) : pyval :=
  PDict (dict_set (lit "error") (PStr e) d).

Definition empty_comment : comment :=
  {| text := None; sentiment_analysis := None; fields := [] |}.

(** The object a reference points to. *)
Definition deref (l : nat) (w : world) : comment :=
  default empty_comment (heap w !! l).

(** [comment.copy()] with [sentiment_analysis] set on the copy: a new
    object at the end of the store. *)
Definition alloc (c : comment) : M nat :=
  fun w =>
    (Ok (length (heap w)),
     {| heap := heap w ++ [c]; prompts := prompts w; draws := draws w;
        sleeps := sleeps w |}).

(** [time.sleep(secs)] *)
Definition sleep (secs : Q) : M unit :=
  fun w =>
    if Qle_bool 0 secs then
      (Ok tt,
       {| heap := heap w; prompts := prompts w; draws := draws w;
          sleeps := sleeps w ++ [secs] |})
    else (Raise (lit "sleep length must be non-negative"), w).

(** The test of line 241. *)
Definition is_quota (e : str) : bool :=
  contains (lit "quota") (lower e) || contains (lit "429") e.

(** Line 229. *)
Definition backoff_delay (rate_limit_delay jitter : Q) (retry_count : Z) : Q :=
  let current_delay := (rate_limit_delay * jitter)%Q in
  (current_delay * inject_Z (2 ^ retry_count))%Q.

Section WithModel.

Context `{L : Limits}.

(** The model, by the number of earlier calls and the prompt: a response,
    or the exception of the call or of reading its text. *)
Variable generate_content : nat -> str -> res response.

(** [random.uniform(0.5, 1.5)], by the number of earlier draws. *)
Variable uniform : nat -> Q.

Definition call_model (prompt : str) : M response :=
  fun w =>
    (generate_content (length (prompts w)) prompt,
     {| heap := heap w; prompts := prompts w ++ [prompt]; draws := draws w;
        sleeps := sleeps w |}).

Definition random_uniform : M Q :=
  fun w =>
    (Ok (uniform (draws w)),
     {| heap := heap w; prompts := prompts w; draws := S (draws w);
        sleeps := sleeps w |}).

(** [analyze_comment]: it returns a value whatever the model does. *)
Definition analyze_comment (comment_text : str) : M pyval :=
  fun w =>
    let comment_text := truncate comment_text in
    let prompt := make_prompt comment_text in
    match call_model prompt w with
    | (Ok response, w') => (Ok (interpret (response_text response)), w')
    | (Raise e, w') => (Ok (error_result e), w')
    end.

Variable batch_size : Z.
Variable rate_limit_delay : Q.
Variable max_retries : Z.

(** [comment["text"]] *)
Definition get_text (l : nat) : M str :=
  fun w =>
    match text (deref l w) with
    | Some t => (Ok t, w)
    | None => (Raise (lit "'text'"), w)
    end.

(** Lines 223-234, the body of the [try]. *)
Definition attempt (l : nat) (retry_count : Z) : M pyval :=
  jitter <- random_uniform ;
  _ <- (if 0 <? retry_count
        then sleep (backoff_delay rate_limit_delay jitter retry_count)
        else ret tt) ;
  comment_text <- get_text l ;
  analyze_comment comment_text.

(** Lines 221-251, the [while] loop, with its two variables. *)
Fixpoint retry_loop (fuel : nat) (l : nat) (retry_count : Z)
    (sentiment_result : pyval) : M (Z * pyval) :=
  fun w =>
    if retry_count <? max_retries then
      match fuel with
      | O => (Ok (retry_count, sentiment_result), w)
      | S fuel' =>
          match attempt l retry_count w with
          | (Ok result, w1) => (Ok (retry_count, result), w1)
          | (Raise e, w1) =>
              let retry_count := retry_count + 1 in
              if is_quota e then
                match sleep (inject_Z (15 * retry_count)) w1 with
                | (Ok _, w2) =>
                    retry_loop fuel' l retry_count sentiment_result w2
                | (Raise e', w2) => (Raise e', w2)
                end
              else if max_retries <=? retry_count then
                retry_loop fuel' l retry_count
                  (with_error _create_default_result e) w1
              else retry_loop fuel' l retry_count sentiment_result w1
          end
      end
    else (Ok (retry_count, sentiment_result), w).

Definition has_sentiment (c : comment) : bool :=
  match sentiment_analysis c with Some _ => true | None => false end.

(** Lines 212-265, the body of the inner [for]. *)
Definition process_comment (l : nat) (results : list nat) : M (list nat) :=
  fun w =>
    let c := deref l w in
    if has_sentiment c then (Ok (results ++ [l]), w)
    else
      match retry_loop (Z.to_nat max_retries) l 0 PNone w with
      | (Raise e, w1) => (Raise e, w1)
      | (Ok (retry_count, sentiment_result), w1) =>
          let sentiment_result :=
            match sentiment_result with
            | PNone =>
                with_error _create_default_result (lit "Max retries exceeded")
            | r => r
            end in
          let comment_with_sentiment :=
            {| text := text c; sentiment_analysis := Some sentiment_result;
               fields := fields c |} in
          match alloc comment_with_sentiment w1 with
          | (Raise e, w2) => (Raise e, w2)
          | (Ok l', w2) =>
              let results := results ++ [l'] in
              if retry_count =? 0 then
                match sleep rate_limit_delay w2 with
                | (Ok _, w3) => (Ok results, w3)
                | (Raise e, w3) => (Raise e, w3)
                end
              else (Ok results, w2)
          end
      end.

(** [range(0, n, step)] *)
Definition py_range (n step : Z) : res (list Z) :=
  if step =? 0 then Raise (lit "range() arg 3 must not be zero")
  else if step <? 0 then Ok []
  else Ok (map (fun k => Z.of_nat k * step)
             (seq 0 (Z.to_nat ((n + step - 1) / step)))).

(** [comments[i:i+batch_size]] for [0 <= i] and [0 < batch_size]. *)
Definition batch_at (comments : list nat) (i : Z) : list nat :=
  take (Z.to_nat batch_size) (drop (Z.to_nat i) comments).

(** [analyze_comments_batch] *)
Definition analyze_comments_batch (comments : list nat) : M (list nat) :=
  starts <- lift (py_range (Z.of_nat (length comments)) batch_size) ;
  for_each
    (fun i results => for_each process_comment (batch_at comments i) results)
    starts [].

End WithModel.

(** The summary of a video, lines 288-299. *)
Record summary := {
  counts : list (str * Z);
  total_comments : Z;
  overall_sentiment : str
}.

(** Lines 285-286: the labels of the comments that have one. *)
Fixpoint collect_sentiments (cs : list comment) : res (list pyval) :=
  match cs with
  | [] => Ok []
  | c :: rest =>
      match sentiment_analysis c with
      | None => collect_sentiments rest
      | Some sa =>
          match py_in (lit "sentiment") sa with
          | Raise e => Raise e
          | Ok false => collect_sentiments rest
          | Ok true =>
              match py_getitem sa (lit "sentiment") with
              | Raise e => Raise e
              | Ok v =>
                  match collect_sentiments rest with
                  | Ok vs => Ok (v :: vs)
                  | Raise e => Raise e
                  end
              end
          end
      end
  end.

(** [sentiments.count(label)] *)
Definition count_label (label : str) (sentiments : list pyval) : Z :=
  Z.of_nat (length (filter (fun v => is_str label v = true) sentiments)).

Definition count_of (counts : list (str * Z)) (k : str) : Z :=
  match filter (fun kv => str_eqb (fst kv) k = true) counts with
  | (_, n) :: _ => n
  | [] => 0
  end.

(** [max(keys, key=f)] after the first key: a later key wins only with a
    strictly larger value. *)
Fixpoint max_from (f : str -> Z) (best : str) (keys : list str) : str :=
  match keys with
  | [] => best
  | k :: rest => max_from f (if f best <? f k then k else best) rest
  end.

Definition max_key (counts : list (str * Z)) : str :=
  match map fst counts with
  | [] => []
  | k :: rest => max_from (count_of counts) k rest
  end.

Definition sentiment_summary_of (cs : list comment) : res summary :=
  match collect_sentiments cs with
  | Raise e => Raise e
  | Ok sentiments =>
      let sentiment_counts :=
        [ (lit "positive", count_label (lit "positive") sentiments);
          (lit "negative", count_label (lit "negative") sentiments);
          (lit "neutral", count_label (lit "neutral") sentiments);
          (lit "unknown",
           Z.of_nat (length cs) - Z.of_nat (length sentiments)) ] in
      Ok {| counts := sentiment_counts;
            total_comments := Z.of_nat (length cs);
            overall_sentiment := max_key sentiment_counts |}
  end.

Record video_comments := {
  video_info : pyval;
  comments : list nat
}.

Record video_result := {
  result_video_info : pyval;
  result_comments : list nat;
  sentiment_summary : summary
}.

(** [analyze_video_comments]; the batch runs with its default arguments. *)
Definition analyze_video_comments `{L : Limits}
    (generate_content : nat -> str -> res response) (uniform : nat -> Q)
    (vc : video_comments) : M video_result :=
  cs <- analyze_comments_batch generate_content uniform 10 2 3 (comments vc) ;
  fun w =>
    match sentiment_summary_of (map (fun l => deref l w) cs) with
    | Raise e => (Raise e, w)
    | Ok s =>
        (Ok {| result_video_info := video_info vc; result_comments := cs;
               sentiment_summary := s |}, w)
    end.

End Analyzer.
Export Analyzer.

(** ** Vocabulary of the properties *)

Module Props.

(** An opening brace with a closing brace somewhere after it. *)
Definition brace_pair (s : str) : Prop :=
  exists a b c, s = a ++ lbrace :: b ++ rbrace :: c.

(** A stretch of text that ends with a character a token can end with. *)
Definition ends_token (c : str) : Prop :=
  exists c' e, c = c' ++ [e] /\ token_end e = true.

(** What a successful scan has read. *)
Definition reads (s c rest : str) : Prop := s = c ++ rest /\ ends_token c.

(** [t] is a stretch of [s]. *)
Definition within (t s : str) : Prop := exists a b, s = a ++ t ++ b.

(** A text without braces. *)
Definition brace_free (s : str) : Prop :=
  Forall (fun c => c <> lbrace /\ c <> rbrace) s.

(** [t] is the object text [{ mid }] with text without braces before and
    after it. *)
Definition around (mid t : str) : Prop :=
  exists P Q, t = P ++ lbrace :: mid ++ rbrace :: Q
    /\ brace_free P /\ brace_free Q.

(** The test of line 137 on a text. *)
Definition has_brace_pair (s : str) : bool :=
  let start_idx := find lbrace s in
  let end_idx := rfind rbrace s + 1 in
  (0 <=? start_idx) && (start_idx <? end_idx).

(** [content] inside a fenced code block: the opening fence with its
    language hint on one line, the closing fence on another. *)
Definition fenced (hint content : str) : str :=
  fence ++ hint ++ [newline] ++ content ++ [newline] ++ fence.

(** The object the interpreter reads in a text: the whole cleaned text
    or, failing that, its part from the first opening brace to the last
    closing one. *)
Definition object_found `{L : Limits} (raw : str) (d : dict) : Prop :=
  let t := clean_response raw in
  json_loads t = Decoded (PDict d)
  \/ (json_loads t = JSONDecodeError /\ has_brace_pair t = true
      /\ json_loads (slice (find lbrace t) (rfind rbrace t + 1) t)
         = Decoded (PDict d)).

Definition is_dict (v : pyval) : bool :=
  match v with PDict _ => true | _ => false end.

(** The token opens an array or an object. *)
Definition opens (t : token) : bool :=
  match t with TLBrack | TLBrace => true | _ => false end.

(** Tokens that cannot take the decoder to a limit of the interpreter: no
    more openings than there is room for, no integer of too many
    digits. *)
Definition within_limits `{L : Limits} (ts : list (token * nat)) : Prop :=
  (length (filter (fun p => opens (fst p) = true) ts) <= recursion_room)%nat
  /\ Forall (fun p => match fst p with
                      | TVal (PInt _) => over_digits (snd p) = false
                      | _ => True
                      end) ts.

(** A list with every required field name among its elements, or a
    string with every one of them as a substring. *)
Definition holds_all_fields (v : pyval) : bool :=
  match v with
  | PList l => forallb (fun f => existsb (is_str f) l) required_fields
  | PStr s => forallb (fun f => contains f s) required_fields
  | _ => false
  end.

(** The label of a sentiment record. *)
Definition label_of (v : pyval) : option pyval :=
  match v with
  | PDict d => dict_get (lit "sentiment") d
  | _ => None
  end.

Definition error_of (v : pyval) : option pyval :=
  match v with
  | PDict d => dict_get (lit "error") d
  | _ => None
  end.

(** The comment carries a record labelled [label]. *)
Definition labelled (label : str) (c : comment) : bool :=
  match sentiment_analysis c with
  | Some (PDict d) =>
      match dict_get (lit "sentiment") d with
      | Some v => is_str label v
      | None => false
      end
  | _ => false
  end.

(** The comment carries no label: no record, or a record without the
    key [sentiment]. *)
Definition unlabelled (c : comment) : bool :=
  match sentiment_analysis c with
  | Some (PDict d) => negb (dict_has (lit "sentiment") d)
  | _ => true
  end.

Definition count_if (p : comment -> bool) (cs : list comment) : Z :=
  Z.of_nat (length (filter (fun c => p c = true) cs)).

(** The record of a comment, when it has one, is a dict. *)
Definition record_ok (c : comment) : Prop :=
  match sentiment_analysis c with
  | Some v => is_dict v = true
  | None => True
  end.

(** [k] is the first key of [keys] with the largest value of [f]. *)
Definition first_max (f : str -> Z) (keys : list str) (k : str) : Prop :=
  exists i, keys !! i = Some k
    /\ (forall j k', keys !! j = Some k' -> f k' <= f k)
    /\ (forall j k', keys !! j = Some k' -> (j < i)%nat -> f k' < f k).

(** Output reference [l'] answers input reference [l]: the very same
    object when it came with a record, and otherwise a new object, a copy
    of the input with a record added. *)
Definition answers (w w' : world) (l l' : nat) : Prop :=
  if has_sentiment (deref l w) then l' = l
  else (length (heap w) <= l')%nat
       /\ exists r,
            heap w' !! l' =
              Some {| text := text (deref l w);
                      sentiment_analysis := Some r;
                      fields := fields (deref l w) |}.

(** [w'] comes after [w] with the same store and at most [k] more calls
    of the model. *)
Definition frame (k : nat) (w w' : world) : Prop :=
  heap w' = heap w
  /\ (length (prompts w) <= length (prompts w') <= length (prompts w) + k)%nat.

(** The comments that come without a record. *)
Definition pending (w : world) (comments : list nat) : nat :=
  length (filter (fun l => has_sentiment (deref l w) = false) comments).

(** The record a reference carries. *)
Definition record_at (w : world) (l : nat) : option pyval :=
  sentiment_analysis (deref l w).

(** The labels of the comments that have one, in order. *)
Fixpoint labels_of (cs : list comment) : list pyval :=
  match cs with
  | [] => []
  | c :: rest =>
      match sentiment_analysis c with
      | Some v =>
          match label_of v with
          | Some x => x :: labels_of rest
          | None => labels_of rest
          end
      | None => labels_of rest
      end
  end.

Definition label_names : list str :=
  [lit "positive"; lit "negative"; lit "neutral"; lit "unknown"].

Definition calls_between (w w' : world) : Z :=
  Z.of_nat (length (prompts w')) - Z.of_nat (length (prompts w)).

Definition fresh_world (cs : list comment) : world :=
  {| heap := cs; prompts := []; draws := 0; sleeps := [] |}.

End Props.
Export Props.

(** ** Sample inputs *)

Module Samples.

Definition key_value (k : string) (v : str) : str := quoted k ++ lit ": " ++ v.
Arguments key_value k%_string v.

(** A well-formed answer, with a label and a score outside what the
    prompt asks for. *)
Definition full_answer : str :=
  lit "{" ++ key_value "sentiment" (quoted "ecstatic") ++ lit ", "
  ++ key_value "score" (lit "7.5") ++ lit ", "
  ++ key_value "key_phrases" (lit "[" ++ quoted "so good" ++ lit "]")
  ++ lit ", " ++ key_value "topics" (lit "[]") ++ lit ", "
  ++ key_value "emotional_tone" (lit "[" ++ quoted "joy" ++ lit "]")
  ++ lit "}".

Definition full_record : dict :=
  [ (lit "sentiment", PStr (lit "ecstatic"));
    (lit "score", PFloat (FDec false 75 (-1)));
    (lit "key_phrases", PList [PStr (lit "so good")]);
    (lit "topics", PList []);
    (lit "emotional_tone", PList [PStr (lit "joy")]) ].

(** An answer without [topics] and [emotional_tone], inside a sentence. *)
Definition partial_object : str :=
  lit "{" ++ key_value "sentiment" (quoted "positive") ++ lit ", "
  ++ key_value "score" (lit "1") ++ lit ", "
  ++ key_value "key_phrases" (lit "[" ++ quoted "great" ++ lit "]")
  ++ lit "}".

Definition partial_answer : str :=
  lit "Here is the analysis: " ++ partial_object ++ lit " Hope it helps.".

(** The same object after a remark that has braces of its own. *)
Definition braced_answer : str :=
  lit "Fields in {braces} are optional. " ++ partial_object.

Definition partial_record : dict :=
  [ (lit "sentiment", PStr (lit "positive"));
    (lit "score", PInt 1);
    (lit "key_phrases", PList [PStr (lit "great")]) ].

(** The five field names as a JSON array. *)
Definition names_array : str :=
  lit "[" ++ quoted "sentiment" ++ lit ", " ++ quoted "score" ++ lit ", "
  ++ quoted "key_phrases" ++ lit ", " ++ quoted "topics" ++ lit ", "
  ++ quoted "emotional_tone" ++ lit "]".

Definition names_list : pyval :=
  PList (map PStr required_fields).

Definition plain_comment (t : string) : comment :=
  {| text := Some (lit t); sentiment_analysis := None; fields := [] |}.
Arguments plain_comment t%_string.

Definition labelled_comment (label : string) : comment :=
  {| text := Some (lit "...");
     sentiment_analysis :=
       Some (PDict (dict_set (lit "sentiment") (PStr (lit label))
                      _create_default_result));
     fields := [] |}.
Arguments labelled_comment label%_string.

(** A model that fails on every call. *)
Definition failing_model : nat -> str -> res response :=
  fun _ _ => Raise (lit "503 service unavailable").

(** A model that always gives the same well-formed answer. *)
Definition steady_model : nat -> str -> res response :=
  fun _ _ => Ok {| r_text := Some full_answer; r_parts := None; r_str := [] |}.

Definition no_jitter : nat -> Q := fun _ => 1%Q.

(** A well-formed answer whose score is an integer of 4301 digits. *)
Definition long_score_answer : str :=
  lit "{" ++ key_value "sentiment" (quoted "positive") ++ lit ", "
  ++ key_value "score" (replicate 4301 49%N) ++ lit ", "
  ++ key_value "key_phrases" (lit "[]") ++ lit ", "
  ++ key_value "topics" (lit "[]") ++ lit ", "
  ++ key_value "emotional_tone" (lit "[]") ++ lit "}".

(** The limits of a sample run: the default of [int_max_str_digits], and
    room for 900 arrays and objects one inside the other. *)
Definition sample_limits : Limits :=
  {| recursion_room := 900; int_max_str_digits := 4300 |}.

End Samples.
Export Samples.

(** ** The comment provider: [youtube_api.YouTubeAPI] *)

Module Youtube.

(** The classes of exception the provider tells apart or raises itself;
    [HttpError] stands for [googleapiclient.errors.HttpError] and its
    subclasses, [OtherError] for every class not listed. *)
Inductive exn_class :=
| HttpError | ValueError | KeyError | TypeError | IndexError | OtherError.

(** An exception: its class and the text [str(e)]. *)
Inductive exn := Exn (cls : exn_class) (msg : str).

Inductive outcome (A : Type) :=
| Returns (a : A)
| Raises (e : exn).
Arguments Returns {A} a.
Arguments Raises {A} e.

(** The three requests the provider builds and executes. *)
Inductive request :=
| ChannelSearch (q : str)
| VideoSearch (channelId : pyval) (maxResults : Z)
| CommentThreads (videoId : pyval) (maxResults : Z) (pageToken : pyval).

(** A computation over the list of the requests executed so far. *)
Definition Y (A : Type) : Type := list request -> outcome A * list request.

(** The float a decimal literal denotes is zero when the literal is at
    most half the least positive double, 2 to the power -1075. *)
Definition float_is_zero (f : pyfloat) : bool :=
  match f with
  | FDec _ coef exp10 =>
      if exp10 <? 0
      then Z.of_N coef * 2 ^ 1075 <=? 10 ^ (- exp10)
      else (coef =? 0)%N
  | FNaN => false
  | FInf _ => false
  end.

(** [bool(v)] *)
Definition truthy (v : pyval) : bool :=
  match v with
  | PNone => false
  | PBool b => b
  | PInt z => negb (z =? 0)
  | PFloat f => negb (float_is_zero f)
  | PStr s => match s with [] => false | _ => true end
  | PList l => match l with [] => false | _ => true end
  | PDict d => match d with [] => false | _ => true end
  end.

Definition not_subscriptable (v : pyval) : exn :=
  Exn TypeError (lit "'" ++ type_name v ++ lit "' object is not subscriptable").

(** [v[key]] for a string [key]. *)
Definition getitem (v : pyval) (key : str) : outcome pyval :=
  match v with
  | PDict d =>
      match dict_get key d with
      | Some x => Returns x
      | None => Raises (Exn KeyError (lit "'" ++ key ++ lit "'"))
      end
  | PList _ =>
      Raises (Exn TypeError (lit "list indices must be integers or slices, not str"))
  | PStr _ =>
      Raises (Exn TypeError (lit "string indices must be integers, not 'str'"))
  | _ => Raises (not_subscriptable v)
  end.

(** [v[0]] *)
Definition first_item (v : pyval) : outcome pyval :=
  match v with
  | PList (x :: _) => Returns x
  | PList [] => Raises (Exn IndexError (lit "list index out of range"))
  | PStr (c :: _) => Returns (PStr [c])
  | PStr [] => Raises (Exn IndexError (lit "string index out of range"))
  | PDict _ => Raises (Exn KeyError (lit "0"))
  | _ => Raises (not_subscriptable v)
  end.

(** What [for item in v] goes through: the elements of a list, the keys
    of a dict, the characters of a string. *)
Definition iterate (v : pyval) : outcome (list pyval) :=
  match v with
  | PList l => Returns l
  | PDict d => Returns (map (fun kv => PStr (fst kv)) d)
  | PStr s => Returns (map (fun c => PStr [c]) s)
  | _ => Raises (Exn TypeError (lit "'" ++ type_name v ++ lit "' object is not iterable"))
  end.

(** [d.get(key, default)] *)
Definition get_or (key : string) (dflt : pyval) (d : dict) : pyval :=
  default dflt (dict_get (lit key) d).
Arguments get_or key%_string dflt d.

(** One item after the other, each result added at the end of [acc]; the
    first exception ends the loop. *)
Fixpoint collect {A} (f : pyval -> outcome A) (items : list pyval)
    (acc : list A) : outcome (list A) :=
  match items with
  | [] => Returns acc
  | item :: rest =>
      match f item with
      | Returns a => collect f rest (acc ++ [a])
      | Raises e => Raises e
      end
  end.

Definition obind {A B} (o : outcome A) (k : A -> outcome B) : outcome B :=
  match o with
  | Returns a => k a
  | Raises e => Raises e
  end.

(** [except HttpError as e: raise ValueError(f"{prefix}{e}")] *)
Definition reraise (prefix : string) (e : exn) : exn :=
  match e with
  | Exn HttpError msg => Exn ValueError (lit prefix ++ msg)
  | _ => e
  end.
Arguments reraise prefix%_string e.

Section WithClient.

(** [request.execute()], by the number of requests executed before: the
    decoded response, or the exception of the client. *)
Variable execute : nat -> request -> outcome dict.

Definition call (r : request) : Y dict :=
  fun log => (execute (length log) r, log ++ [r]).

(** [get_channel_id] *)
Definition get_channel_id (channel_name : str) : Y pyval :=
  fun log =>
    match call (ChannelSearch channel_name) log with
    | (Raises e, log') => (Raises (reraise "Error fetching channel ID: " e), log')
    | (Returns search_response, log') =>
        if negb (truthy (get_or "items" PNone search_response)) then
          (Raises (Exn ValueError
                     (lit "Channel '" ++ channel_name ++ lit "' not found.")),
           log')
        else
          let r :=
            obind (getitem (PDict search_response) (lit "items")) (fun items =>
            obind (first_item items) (fun item =>
            obind (getitem item (lit "id")) (fun id =>
            getitem id (lit "channelId")))) in
          match r with
          | Returns channel_id => (Returns channel_id, log')
          | Raises e => (Raises (reraise "Error fetching channel ID: " e), log')
          end
    end.

(** Lines 77-89, the body of the loop over the items. *)
Definition video_of_item (item : pyval) : outcome pyval :=
  obind (obind (getitem item (lit "id"))
           (fun id => getitem id (lit "videoId"))) (fun video_id =>
  obind (obind (getitem item (lit "snippet"))
           (fun s => getitem s (lit "title"))) (fun video_title =>
  obind (obind (getitem item (lit "snippet"))
           (fun s => getitem s (lit "description"))) (fun video_description =>
  obind (obind (getitem item (lit "snippet"))
           (fun s => getitem s (lit "publishedAt"))) (fun published_at =>
  Returns (PDict [ (lit "id", video_id);
                   (lit "title", video_title);
                   (lit "description", video_description);
                   (lit "published_at", published_at) ]))))).

(** [get_videos_from_channel] *)
Definition get_videos_from_channel (channel_id : pyval) (max_results : Z)
    : Y (list pyval) :=
  fun log =>
    match call (VideoSearch channel_id max_results) log with
    | (Raises e, log') => (Raises (reraise "Error fetching videos: " e), log')
    | (Returns search_response, log') =>
        let r :=
          obind (iterate (get_or "items" (PList []) search_response))
            (fun items => collect video_of_item items []) in
        match r with
        | Returns videos => (Returns videos, log')
        | Raises e => (Raises (reraise "Error fetching videos: " e), log')
        end
    end.

(** Lines 121-129, the body of the loop over the items of a page. *)
Definition comment_of_item (item : pyval) : outcome pyval :=
  obind (obind (obind (getitem item (lit "snippet"))
                  (fun s => getitem s (lit "topLevelComment")))
           (fun t => getitem t (lit "snippet"))) (fun comment =>
  obind (getitem item (lit "id")) (fun id =>
  obind (getitem comment (lit "textDisplay")) (fun text =>
  obind (getitem comment (lit "authorDisplayName")) (fun author =>
  obind (getitem comment (lit "publishedAt")) (fun published_at =>
  obind (getitem comment (lit "likeCount")) (fun like_count =>
  Returns (PDict [ (lit "id", id);
                   (lit "text", text);
                   (lit "author", author);
                   (lit "published_at", published_at);
                   (lit "like_count", like_count) ]))))))).

(** The comments of a page, added to the ones fetched so far. *)
Definition add_page (response : dict) (comments : list pyval)
    : outcome (list pyval) :=
  obind (iterate (get_or "items" (PList []) response))
    (fun items => collect comment_of_item items comments).

(** Lines 110-135, the [while] loop; [None] when the rounds of [fuel] run
    out before the loop ends. *)
Fixpoint fetch_pages (fuel : nat) (video_id : pyval) (max_results : Z)
    (comments : list pyval) (next_page_token : pyval)
    : Y (option (list pyval)) :=
  fun log =>
    if Z.of_nat (length comments) <? max_results then
      match fuel with
      | O => (Returns None, log)
      | S fuel' =>
          let r :=
            CommentThreads video_id
              (Z.min 100 (max_results - Z.of_nat (length comments)))
              next_page_token in
          match call r log with
          | (Raises e, log') => (Raises e, log')
          | (Returns response, log') =>
              match add_page response comments with
              | Raises e => (Raises e, log')
              | Returns comments' =>
                  let next_page_token := get_or "nextPageToken" PNone response in
                  if negb (truthy next_page_token)
                     || (max_results <=? Z.of_nat (length comments'))
                  then (Returns (Some comments'), log')
                  else fetch_pages fuel' video_id max_results comments'
                         next_page_token log'
              end
          end
      end
    else (Returns (Some comments), log).

(** [l[:k]] *)
Definition slice_to {A} (k : Z) (l : list A) : list A :=
  if 0 <=? k then take (Z.to_nat k) l
  else take (length l - Z.to_nat (- k)) l.

(** [get_video_comments] *)
Definition get_video_comments (fuel : nat) (video_id : pyval)
    (max_results : Z) : Y (option (list pyval)) :=
  fun log =>
    match fetch_pages fuel video_id max_results [] PNone log with
    | (Returns (Some comments), log') =>
        (Returns (Some (slice_to max_results comments)), log')
    | (Returns None, log') => (Returns None, log')
    | (Raises (Exn HttpError msg), log') =>
        if contains (lit "commentsDisabled") msg then (Returns (Some []), log')
        else (Raises (Exn ValueError (lit "Error fetching comments: " ++ msg)),
              log')
    | (Raises e, log') => (Raises e, log')
    end.

End WithClient.

End Youtube.

(** ** The table of the report: [report_generator.ReportGenerator] *)

Module Report.

Definition rbind {A B} (r : res A) (k : A -> res B) : res B :=
  match r with
  | Ok a => k a
  | Raise e => Raise e
  end.

(** The decimal digits of a number. *)
Definition decimal (n : nat) : str :=
  lit (NilZero.string_of_uint (Nat.to_uint n)).

Fixpoint join_strs (sep : str) (l : list str) : str :=
  match l with
  | [] => []
  | [s] => s
  | s :: rest => s ++ sep ++ join_strs sep rest
  end.

(** The items of a sequence that [join] accepts: strings only. *)
Fixpoint strs_of (i : nat) (l : list pyval) : res (list str) :=
  match l with
  | [] => Ok []
  | PStr s :: rest =>
      match strs_of (S i) rest with
      | Ok ss => Ok (s :: ss)
      | Raise e => Raise e
      end
  | v :: _ =>
      Raise (lit "sequence item " ++ decimal i ++ lit ": expected str instance, "
             ++ type_name v ++ lit " found")
  end.

(** [sep.join(v)] *)
Definition py_join (sep : str) (v : pyval) : res str :=
  match v with
  | PList l => rbind (strs_of 0 l) (fun ss => Ok (join_strs sep ss))
  | PStr s => Ok (join_strs sep (map (fun c => [c]) s))
  | PDict d => Ok (join_strs sep (map fst d))
  | _ => Raise (lit "can only join an iterable")
  end.

(** [comment[key]] for a key of the provider other than [text]. *)
Definition field (c : comment) (key : string) : res pyval :=
  match dict_get (lit key) (fields c) with
  | Some v => Ok v
  | None => Raise (lit "'" ++ lit key ++ lit "'")
  end.
Arguments field c key%_string.

(** [comment["text"]] *)
Definition text_field (c : comment) : res pyval :=
  match text c with
  | Some t => Ok (PStr t)
  | None => Raise (lit "'text'")
  end.

(** The dict whose method [get] the table reads. *)
Definition with_get (sa : pyval) : res dict :=
  match sa with
  | PDict d => Ok d
  | _ => Raise (lit "'" ++ type_name sa ++ lit "' object has no attribute 'get'")
  end.

(** Lines 50-54: a column for a list of the record, when it has one. *)
Definition add_joined (key : string) (d : dict) (row : dict) : res dict :=
  if dict_has (lit key) d then
    rbind (py_join (lit ", ") (default PNone (dict_get (lit key) d)))
      (fun joined => Ok (dict_set (lit key) (PStr joined) row))
  else Ok row.
Arguments add_joined key%_string d row.

(** Lines 39-54: the row of a comment that has the record [sa]. *)
Definition row_of (c : comment) (sa : pyval) : res dict :=
  rbind (field c "id") (fun id =>
  rbind (text_field c) (fun text =>
  rbind (field c "author") (fun author =>
  rbind (field c "published_at") (fun published_at =>
  rbind (field c "like_count") (fun like_count =>
  rbind (with_get sa) (fun d =>
  let row :=
    [ (lit "comment_id", id);
      (lit "text", text);
      (lit "author", author);
      (lit "published_at", published_at);
      (lit "like_count", like_count);
      (lit "sentiment", default (PStr (lit "unknown")) (dict_get (lit "sentiment") d));
      (lit "score", default zero_float (dict_get (lit "score") d)) ] in
  rbind (add_joined "topics" d row) (fun row =>
  add_joined "emotional_tone" d row))))))).

(** [_comments_to_dataframe], on the comments of the video's results: the
    rows the data frame is made of, in order. *)
Fixpoint _comments_to_dataframe (comments : list comment) : res (list dict) :=
  match comments with
  | [] => Ok []
  | c :: rest =>
      match sentiment_analysis c with
      | None => _comments_to_dataframe rest
      | Some sa =>
          rbind (row_of c sa) (fun row =>
          rbind (_comments_to_dataframe rest) (fun rows => Ok (row :: rows)))
      end
  end.

(** [df.empty] *)
Definition empty (rows : list dict) : bool :=
  match rows with [] => true | _ => false end.

End Report.

(** ** More vocabulary: the batch, the summary, the decoder *)

Module MoreProps.

(** The text of a comment, when it has one. *)
Definition text_of (w : world) (l : nat) : str :=
  default [] (text (deref l w)).

(** The record [analyze_comment] makes of the model's answer to call
    number [n] about the text [t]. *)
Definition answer_record `{L : Limits}
    (generate_content : nat -> str -> res response)
    (n : nat) (t : str) : pyval :=
  match generate_content n (make_prompt (truncate t)) with
  | Ok resp => interpret (response_text resp)
  | Raise e => error_result e
  end.

(** A comment with the record [r] added. *)
Definition annotated (c : comment) (r : pyval) : comment :=
  {| text := text c; sentiment_analysis := Some r; fields := fields c |}.

(** The comments of [comments] that come without a record, in order. *)
Definition pending_refs (w : world) (comments : list nat) : list nat :=
  filter (fun l => has_sentiment (deref l w) = false) comments.

(** The copies a batch adds to the store when every pending comment is
    answered at the first attempt: one for each, with the record of the
    model's answer to the call made for it, [n] being the number of the
    first call. *)
Fixpoint first_answers `{L : Limits}
    (generate_content : nat -> str -> res response)
    (w : world) (n : nat) (pend : list nat) : list comment :=
  match pend with
  | [] => []
  | l :: rest =>
      annotated (deref l w) (answer_record generate_content n (text_of w l))
      :: first_answers generate_content w (S n) rest
  end.

(** The record of a comment the loop gave up on. *)
Definition fallback_record (e : string) : pyval :=
  with_error _create_default_result (lit e).
Arguments fallback_record e%_string.


(** A wait the batch can make: the delay between comments, or the
    backoff before a retry. *)
Definition ordinary_wait (uniform : nat -> Q) (rate_limit_delay : Q)
    (secs : Q) : Prop :=
  secs = rate_limit_delay
  \/ exists n retry_count,
       0 < retry_count
       /\ secs = backoff_delay rate_limit_delay (uniform n) retry_count.

(** From [w] to [w'] only ordinary waits were made. *)
Definition ordinary_waits (uniform : nat -> Q) (rate_limit_delay : Q)
    (w w' : world) : Prop :=
  exists waits,
    sleeps w' = sleeps w ++ waits
    /\ Forall (ordinary_wait uniform rate_limit_delay) waits.

(** The comment carries a label other than the three the summary
    counts. *)
Definition other_label (c : comment) : bool :=
  match sentiment_analysis c with
  | Some (PDict d) =>
      match dict_get (lit "sentiment") d with
      | Some v =>
          negb (is_str (lit "positive") v || is_str (lit "negative") v
                || is_str (lit "neutral") v)
      | None => false
      end
  | _ => false
  end.

(** The records the summary can read: a dict, or a list or a string in
    which [sentiment] is not found. *)
Definition summary_reads (c : comment) : bool :=
  match sentiment_analysis c with
  | None => true
  | Some (PDict _) => true
  | Some (PList l) => negb (existsb (is_str (lit "sentiment")) l)
  | Some (PStr s) => negb (contains (lit "sentiment") s)
  | Some _ => false
  end.

Definition no_counts : list (str * Z) :=
  [ (lit "positive", 0); (lit "negative", 0); (lit "neutral", 0);
    (lit "unknown", 0) ].

(** The outermost container that is still open is an object. *)
Definition bottom_object (stk : list Json.frame) : Prop :=
  match last stk with
  | Some (FObj _ _) => True
  | _ => False
  end.

(** The parser is inside an object that began the text, or has just
    completed it. *)
Definition in_object (st : pstate) : Prop :=
  match st with
  | PValue stk | PArrOpen stk | PArrNext _ stk => bottom_object stk
  | PObjOpen stk | PObjKey _ stk | PObjColon _ _ stk | PObjNext _ stk =>
      stk = [] \/ bottom_object stk
  | PDone v => is_dict v = true
  end.

End MoreProps.

(** ** Vocabulary for the provider *)

Module YoutubeProps.
Import Youtube.

(** A request for a page of the comments of [video_id], for between 1
    and 100 comments and no more than [max_results]. *)
Definition page_request (video_id : pyval) (max_results : Z) (r : request)
    : Prop :=
  exists n token,
    r = CommentThreads video_id n token
    /\ 1 <= n <= 100 /\ n <= max_results.

(** A page from which the loop can go on makes it advance: when it
    names a next page it has an item. *)
Definition page_advances (response : dict) : Prop :=
  truthy (get_or "nextPageToken" PNone response) = true ->
  exists item items,
    iterate (get_or "items" (PList []) response) = Returns (item :: items).

Definition is_http_error {A} (o : outcome A) : bool :=
  match o with
  | Raises (Exn HttpError _) => true
  | _ => false
  end.

(** A client that answers every request with an empty page that names a
    next page. *)
Definition endless_client : nat -> request -> outcome dict :=
  fun _ _ =>
    Returns [ (lit "items", PList []); (lit "nextPageToken", PStr (lit "more")) ].

(** The requests [reqs], the first of them being request number [n] of
    the client, were answered with pages whose comments are [pages]. *)
Fixpoint answered (execute : nat -> request -> outcome dict) (n : nat)
    (reqs : list request) (pages : list (list pyval)) : Prop :=
  match reqs, pages with
  | [], [] => True
  | r :: reqs', page :: pages' =>
      (exists response,
         execute n r = Returns response
         /\ add_page response [] = Returns page)
      /\ answered execute (S n) reqs' pages'
  | _, _ => False
  end.

(** What [get_video_comments] makes of a request that fails with an
    exception of class [cls] and text [msg]. *)
Definition on_failure (cls : exn_class) (msg : str)
    : outcome (option (list pyval)) :=
  match cls with
  | HttpError =>
      if contains (lit "commentsDisabled") msg then Returns (Some [])
      else Raises (Exn ValueError (lit "Error fetching comments: " ++ msg))
  | _ => Raises (Exn cls msg)
  end.

(** An item of a page of comment threads, as the API documents it. *)
Definition thread_item (id text : string) : pyval :=
  PDict
    [ (lit "id", PStr (lit id));
      (lit "snippet",
       PDict
         [ (lit "topLevelComment",
            PDict
              [ (lit "snippet",
                 PDict
                   [ (lit "textDisplay", PStr (lit text));
                     (lit "authorDisplayName", PStr (lit "someone"));
                     (lit "publishedAt", PStr (lit "2024-01-01T00:00:00Z"));
                     (lit "likeCount", PInt 0) ]) ]) ]) ].
Arguments thread_item id%_string text%_string.

(** The comment [get_video_comments] makes of such an item. *)
Definition comment_record (id text : string) : pyval :=
  PDict [ (lit "id", PStr (lit id));
          (lit "text", PStr (lit text));
          (lit "author", PStr (lit "someone"));
          (lit "published_at", PStr (lit "2024-01-01T00:00:00Z"));
          (lit "like_count", PInt 0) ].
Arguments comment_record id%_string text%_string.

(** An item of a search for videos. *)
Definition video_item (id title : string) : pyval :=
  PDict
    [ (lit "id", PDict [ (lit "kind", PStr (lit "youtube#video"));
                         (lit "videoId", PStr (lit id)) ]);
      (lit "snippet",
       PDict [ (lit "title", PStr (lit title));
               (lit "description", PStr []);
               (lit "publishedAt", PStr (lit "2024-01-01T00:00:00Z")) ]) ].
Arguments video_item id%_string title%_string.

Definition video_record (id title : string) : pyval :=
  PDict [ (lit "id", PStr (lit id));
          (lit "title", PStr (lit title));
          (lit "description", PStr []);
          (lit "published_at", PStr (lit "2024-01-01T00:00:00Z")) ].
Arguments video_record id%_string title%_string.

(** A client with two pages of one comment each. *)
Definition two_page_client : nat -> request -> outcome dict :=
  fun n _ =>
    match n with
    | O => Returns [ (lit "items", PList [thread_item "c1" "first"]);
                     (lit "nextPageToken", PStr (lit "page2")) ]
    | _ => Returns [ (lit "items", PList [thread_item "c2" "second"]) ]
    end.

(** A client that gives one page and then finds the comments disabled. *)
Definition disabled_client : nat -> request -> outcome dict :=
  fun n _ =>
    match n with
    | O => Returns [ (lit "items", PList [thread_item "c1" "first"]);
                     (lit "nextPageToken", PStr (lit "page2")) ]
    | _ => Raises (Exn HttpError (lit "<HttpError 403 commentsDisabled>"))
    end.

End YoutubeProps.

(** ** Vocabulary for the table *)

Module ReportProps.
Import Report.

(** What [", ".join] accepts: a list of strings, a string, a dict. *)
Definition joinable (v : pyval) : bool :=
  match v with
  | PList l => forallb (fun x => match x with PStr _ => true | _ => false end) l
  | PStr _ => true
  | PDict _ => true
  | _ => false
  end.

Definition joinable_at (key : string) (d : dict) : bool :=
  match dict_get (lit key) d with
  | Some v => joinable v
  | None => true
  end.
Arguments joinable_at key%_string d.

(** The comment has the five keys of the provider. *)
Definition provider_keys (c : comment) : bool :=
  dict_has (lit "id") (fields c)
  && match text c with Some _ => true | None => false end
  && dict_has (lit "author") (fields c)
  && dict_has (lit "published_at") (fields c)
  && dict_has (lit "like_count") (fields c).

(** A comment the table can take: without a record, or with the five
    keys of the provider and a record that is a dict whose [topics] and
    [emotional_tone], when present, can be joined. *)
Definition row_ready (c : comment) : bool :=
  match sentiment_analysis c with
  | None => true
  | Some (PDict d) =>
      provider_keys c && joinable_at "topics" d
      && joinable_at "emotional_tone" d
  | Some _ => false
  end.

(** The rows with [label] in the column [sentiment]. *)
Definition rows_with (label : string) (rows : list dict) : Z :=
  Z.of_nat
    (length
       (filter (fun row =>
                  match dict_get (lit "sentiment") row with
                  | Some v => is_str (lit label) v
                  | None => false
                  end = true) rows)).
Arguments rows_with label%_string rows.

Definition no_record (c : comment) : bool :=
  match sentiment_analysis c with None => true | Some _ => false end.

(** A comment of the provider with the record [sa]. *)
Definition provided (id : string) (t : string) (sa : option pyval) : comment :=
  {| text := Some (lit t);
     sentiment_analysis := sa;
     fields := [ (lit "id", PStr (lit id));
                 (lit "author", PStr (lit "someone"));
                 (lit "published_at", PStr (lit "2024-01-01T00:00:00Z"));
                 (lit "like_count", PInt 0) ] |}.
Arguments provided id%_string t%_string sa.

End ReportProps.

(** ** Text lemmas *)

Section Strip.

Variable p : N -> bool.

Lemma lstrip_by_keep c r : p c = false -> lstrip_by p (c :: r) = c :: r.
Proof. intros H. simpl. now rewrite H. Qed.

Lemma lstrip_by_skip c r : p c = true -> lstrip_by p (c :: r) = lstrip_by p r.
Proof. intros H. simpl. now rewrite H. Qed.

Lemma rstrip_by_keep s c : p c = false -> rstrip_by p (s ++ [c]) = s ++ [c].
Proof.
  intros H. unfold rstrip_by. rewrite rev_app_distr. simpl.
  rewrite H. simpl. now rewrite rev_involutive.
Qed.

Lemma rstrip_by_skip s c : p c = true -> rstrip_by p (s ++ [c]) = rstrip_by p s.
Proof.
  intros H. unfold rstrip_by. rewrite rev_app_distr. simpl. now rewrite H.
Qed.

Lemma lstrip_by_split s :
  exists a, s = a ++ lstrip_by p s /\ Forall (fun c => p c = true) a.
Proof.
  induction s as [|c r (a & Ha & Hp)]; [now exists []|].
  simpl. destruct (p c) eqn:E.
  - exists (c :: a). simpl. rewrite <- Ha. split; [reflexivity|now constructor].
  - now exists [].
Qed.

Lemma rstrip_by_split s :
  exists b, s = rstrip_by p s ++ b /\ Forall (fun c => p c = true) b.
Proof.
  unfold rstrip_by. destruct (lstrip_by_split (rev s)) as (a & Ha & Hp).
  exists (rev a). rewrite <- rev_app_distr, <- Ha. rewrite rev_involutive.
  split; [reflexivity|]. now apply Forall_rev.
Qed.

Lemma lstrip_by_head s c r : lstrip_by p s = c :: r -> p c = false.
Proof.
  induction s as [|x s IH]; simpl; [discriminate|].
  destruct (p x) eqn:E; [exact IH|]. now intros [= <- _].
Qed.

Lemma lstrip_by_idem s : lstrip_by p (lstrip_by p s) = lstrip_by p s.
Proof.
  induction s as [|c r IH]; [reflexivity|].
  simpl. destruct (p c) eqn:E; [exact IH|]. simpl. now rewrite E.
Qed.

Lemma rstrip_by_idem s : rstrip_by p (rstrip_by p s) = rstrip_by p s.
Proof.
  unfold rstrip_by. now rewrite rev_involutive, lstrip_by_idem.
Qed.

(** Trimming on the right leaves the left end as it is. *)
Lemma lstrip_rstrip_by s :
  lstrip_by p (rstrip_by p s) = rstrip_by p (lstrip_by p s).
Proof.
  induction s as [|c s IH] using rev_ind; [reflexivity|].
  destruct (p c) eqn:E.
  - rewrite rstrip_by_skip by exact E. rewrite IH. clear IH.
    induction s as [|a s IH]; simpl.
    + now rewrite E.
    + destruct (p a) eqn:Ea; [exact IH|].
      change (a :: s ++ [c]) with ((a :: s) ++ [c]).
      now rewrite rstrip_by_skip.
  - rewrite rstrip_by_keep by exact E. clear IH.
    induction s as [|a s IH]; simpl.
    + rewrite E. symmetry. exact (rstrip_by_keep [] c E).
    + destruct (p a) eqn:Ea; [exact IH|].
      change (a :: s ++ [c]) with ((a :: s) ++ [c]).
      now rewrite rstrip_by_keep.
Qed.

Lemma strip_by_idem s : strip_by p (strip_by p s) = strip_by p s.
Proof.
  unfold strip_by.
  now rewrite (lstrip_rstrip_by (lstrip_by p s)), lstrip_by_idem,
    rstrip_by_idem.
Qed.

Lemma strip_by_cons c s : p c = true -> strip_by p (c :: s) = strip_by p s.
Proof. intros H. unfold strip_by. now rewrite lstrip_by_skip. Qed.

Lemma strip_by_snoc s c : p c = true -> strip_by p (s ++ [c]) = strip_by p s.
Proof.
  intros H. unfold strip_by. rewrite <- !lstrip_rstrip_by.
  now rewrite rstrip_by_skip.
Qed.

Lemma strip_by_blanks a s z :
  Forall (fun c => p c = true) a -> Forall (fun c => p c = true) z ->
  strip_by p (a ++ s ++ z) = strip_by p s.
Proof.
  intros Ha Hz. induction Ha as [|c a Hc Ha IH]; simpl.
  - induction z as [|c z IH] using rev_ind.
    + now rewrite app_nil_r.
    + apply Forall_app in Hz as [Hz Hc]. inversion Hc; subst.
      rewrite app_assoc, strip_by_snoc by assumption. now apply IH.
  - rewrite strip_by_cons by exact Hc. exact IH.
Qed.

(** A text whose two ends are kept is its own trimmed form. *)
Lemma strip_by_fixed s a z :
  head s = Some a -> last s = Some z -> p a = false -> p z = false ->
  strip_by p s = s.
Proof.
  intros Hh Hl Ha Hz. unfold strip_by.
  destruct s as [|x s]; [discriminate|]. injection Hh as ->.
  rewrite lstrip_by_keep by exact Ha.
  destruct (a :: s) as [|y t _] using rev_ind; [discriminate|].
  rewrite last_snoc in Hl. injection Hl as ->.
  now apply rstrip_by_keep.
Qed.

Lemma strip_by_split s :
  exists a z, s = a ++ strip_by p s ++ z
    /\ Forall (fun c => p c = true) a /\ Forall (fun c => p c = true) z.
Proof.
  unfold strip_by.
  destruct (lstrip_by_split s) as (a & Ha & Hpa).
  destruct (rstrip_by_split (lstrip_by p s)) as (z & Hz & Hpz).
  exists a, z. now rewrite <- Hz.
Qed.

Lemma strip_by_head s c : head (strip_by p s) = Some c -> p c = false.
Proof.
  unfold strip_by. rewrite <- lstrip_rstrip_by.
  destruct (lstrip_by p (rstrip_by p s)) as [|x r] eqn:E; [discriminate|].
  intros [= <-]. exact (lstrip_by_head _ _ _ E).
Qed.

Lemma strip_by_last s c : last (strip_by p s) = Some c -> p c = false.
Proof.
  unfold strip_by, rstrip_by.
  destruct (lstrip_by p (rev (lstrip_by p s))) as [|x r] eqn:E;
    [discriminate|].
  simpl. rewrite last_snoc. intros [= <-]. exact (lstrip_by_head _ _ _ E).
Qed.

End Strip.

Section TextLemmas.

Lemma py_strip_idem s : py_strip (py_strip s) = py_strip s.
Proof. apply strip_by_idem. Qed.

Lemma py_strip_cons_space c s :
  is_space c = true -> py_strip (c :: s) = py_strip s.
Proof. apply strip_by_cons. Qed.

Lemma py_strip_snoc_space s c :
  is_space c = true -> py_strip (s ++ [c]) = py_strip s.
Proof. apply strip_by_snoc. Qed.

(** A text whose two ends are not blank is its own trimmed form. *)
Lemma py_strip_fixed a s b :
  is_space a = false -> is_space b = false ->
  py_strip (a :: s ++ [b]) = a :: s ++ [b].
Proof.
  intros Ha Hb. apply (strip_by_fixed is_space _ a b); try assumption.
  - reflexivity.
  - rewrite app_comm_cons. apply last_snoc.
Qed.

Lemma startswith_app p s : startswith p (p ++ s) = true.
Proof.
  induction p as [|a p IH]; [now destruct s|].
  simpl. now rewrite N.eqb_refl.
Qed.

Lemma startswith_head a p b s :
  a <> b -> startswith (a :: p) (b :: s) = false.
Proof. intros H. simpl. now apply N.eqb_neq in H as ->. Qed.

Lemma endswith_app p s : endswith p (s ++ p) = true.
Proof. unfold endswith. rewrite rev_app_distr. apply startswith_app. Qed.

Lemma endswith_last a p s b :
  a <> b -> endswith (p ++ [a]) (s ++ [b]) = false.
Proof.
  intros H. unfold endswith. rewrite !rev_app_distr. simpl.
  now apply N.eqb_neq in H as ->.
Qed.

Lemma drop_last_app s p : drop_last (length p) (s ++ p) = s.
Proof.
  unfold drop_last. rewrite length_app.
  replace (length s + length p - length p)%nat with (length s) by lia.
  now rewrite take_app_length.
Qed.

End TextLemmas.

(** ** Braces and cleaning *)

Section Braces.

Lemma find_lower c s : -1 <= find c s.
Proof.
  induction s as [|x r IH]; simpl; [lia|].
  destruct (x =? c)%N; [lia|]. destruct (find c r <? 0) eqn:E; lia.
Qed.

Lemma rfind_lower c s : -1 <= rfind c s.
Proof.
  induction s as [|x r IH]; simpl; [lia|].
  destruct (0 <=? rfind c r) eqn:E; [lia|]. destruct (x =? c)%N; lia.
Qed.

Lemma rfind_found c s : 0 <= rfind c s -> exists a b, s = a ++ c :: b.
Proof.
  induction s as [|x r IH]; simpl; [lia|].
  destruct (0 <=? rfind c r) eqn:E.
  - intros _. apply Z.leb_le in E. destruct (IH E) as (a & b & ->).
    now exists (x :: a), b.
  - destruct (N.eqb_spec x c) as [->|_]; [|lia].
    intros _. now exists [], r.
Qed.

Lemma has_brace_pair_sound s : has_brace_pair s = true -> brace_pair s.
Proof.
  unfold has_brace_pair.
  induction s as [|x r IH]; simpl; [discriminate|].
  pose proof (find_lower lbrace r) as Hf.
  pose proof (rfind_lower rbrace r) as Hr.
  destruct (N.eqb_spec x lbrace) as [->|Hx].
  - change (lbrace =? rbrace)%N with false.
    destruct (0 <=? rfind rbrace r) eqn:E; simpl; [|discriminate].
    intros _. apply Z.leb_le in E.
    destruct (rfind_found _ _ E) as (b & c & ->). now exists [], b, c.
  - destruct (find lbrace r <? 0) eqn:E1; [discriminate|].
    apply Z.ltb_ge in E1.
    destruct (0 <=? rfind rbrace r) eqn:E2.
    + intros H. apply andb_true_iff in H as [_ H]. apply Z.ltb_lt in H.
      destruct IH as (a & b & c & ->).
      { apply andb_true_iff. split; [now apply Z.leb_le|apply Z.ltb_lt; lia]. }
      now exists (x :: a), b, c.
    + intros H. apply andb_true_iff in H as [_ H]. apply Z.ltb_lt in H.
      destruct (x =? rbrace)%N; lia.
Qed.

Lemma find_app_head c a t :
  0 <= find c (a ++ c :: t) <= Z.of_nat (length a).
Proof.
  induction a as [|x a IH]; simpl.
  - rewrite N.eqb_refl. lia.
  - destruct (x =? c)%N; [lia|].
    destruct (find c (a ++ c :: t) <? 0) eqn:E; [apply Z.ltb_lt in E|]; lia.
Qed.

Lemma rfind_app_head c a t :
  Z.of_nat (length a) <= rfind c (a ++ c :: t).
Proof.
  induction a as [|x a IH]; simpl.
  - pose proof (rfind_lower c t).
    destruct (0 <=? rfind c t) eqn:E; [apply Z.leb_le in E; lia|].
    rewrite N.eqb_refl. lia.
  - destruct (0 <=? rfind c (a ++ c :: t)) eqn:E; [lia|].
    apply Z.leb_gt in E. lia.
Qed.

Lemma has_brace_pair_complete s : brace_pair s -> has_brace_pair s = true.
Proof.
  intros (a & b & c & ->). unfold has_brace_pair.
  pose proof (find_app_head lbrace a (b ++ rbrace :: c)) as Hf.
  pose proof (rfind_app_head rbrace (a ++ lbrace :: b) c) as Hr.
  rewrite <- app_assoc in Hr. simpl in Hr.
  rewrite length_app in Hr. simpl in Hr.
  apply andb_true_iff. split; [apply Z.leb_le|apply Z.ltb_lt]; lia.
Qed.

Lemma has_brace_pair_iff s : has_brace_pair s = true <-> brace_pair s.
Proof. split; [apply has_brace_pair_sound|apply has_brace_pair_complete]. Qed.

Lemma within_refl s : within s s.
Proof. exists [], []. simpl. now rewrite app_nil_r. Qed.

Lemma within_trans t u s : within t u -> within u s -> within t s.
Proof.
  intros (a & b & ->) (a' & b' & ->). exists (a' ++ a), (b ++ b').
  now rewrite <- !app_assoc.
Qed.

Lemma within_drop n s : within (drop n s) s.
Proof.
  exists (take n s), []. now rewrite app_nil_r, take_drop.
Qed.

Lemma within_take n s : within (take n s) s.
Proof. exists [], (drop n s). simpl. now rewrite take_drop. Qed.

Lemma within_py_strip s : within (py_strip s) s.
Proof.
  destruct (strip_by_split is_space s) as (a & z & H & _).
  now exists a, z.
Qed.

Lemma within_clean_response s : within (clean_response s) s.
Proof.
  unfold clean_response.
  eapply within_trans; [apply within_py_strip|].
  eapply within_trans; [|apply within_py_strip].
  set (t0 := py_strip s).
  set (t1 := if startswith fence_json t0 then drop 7 t0 else t0).
  set (t2 := if startswith fence t1 then drop 3 t1 else t1).
  assert (H1 : within t1 t0).
  { unfold t1. destruct (startswith fence_json t0);
      [apply within_drop|apply within_refl]. }
  assert (H2 : within t2 t1).
  { unfold t2. destruct (startswith fence t1);
      [apply within_drop|apply within_refl]. }
  eapply within_trans; [|exact H1]. eapply within_trans; [|exact H2].
  destruct (endswith fence t2); [apply within_take|apply within_refl].
Qed.

Lemma brace_pair_within t s : within t s -> brace_pair t -> brace_pair s.
Proof.
  intros (a & b & ->) (x & y & z & ->).
  exists (a ++ x), y, (z ++ b).
  rewrite <- !app_assoc. simpl. now rewrite <- !app_assoc.
Qed.

End Braces.

(** ** Code-block markers *)

Section Fences.

Lemma startswith_app_prefix p q t :
  startswith (p ++ q) t = true -> startswith p t = true.
Proof.
  revert t. induction p as [|a p IH]; intros t; [now destruct t|].
  destruct t as [|b t]; simpl; [discriminate|].
  intros H. apply andb_true_iff in H as [-> H]. simpl. now apply IH.
Qed.

Lemma no_fence_no_fence_json t :
  startswith fence t = false -> startswith fence_json t = false.
Proof.
  intros H. destruct (startswith fence_json t) eqn:E; [|reflexivity].
  change fence_json with (fence ++ lit "json") in E.
  apply startswith_app_prefix in E. congruence.
Qed.

(** Without markers at its ends, a text is cleaned by trimming alone. *)
Lemma clean_response_plain raw :
  startswith fence (py_strip raw) = false ->
  endswith fence (py_strip raw) = false ->
  clean_response raw = py_strip raw.
Proof.
  intros Hs He. unfold clean_response.
  rewrite (no_fence_no_fence_json _ Hs), Hs, He. apply py_strip_idem.
Qed.

Lemma py_strip_lines raw :
  py_strip (newline :: raw ++ [newline]) = py_strip raw.
Proof.
  rewrite py_strip_cons_space by reflexivity.
  now rewrite py_strip_snoc_space.
Qed.

Lemma fenced_fixed hint raw :
  py_strip (fenced hint raw) = fenced hint raw.
Proof.
  unfold fenced, fence. simpl.
  replace (hint ++ newline :: raw ++ newline :: lit "```")
    with ((hint ++ newline :: raw ++ newline :: lit "``") ++ [backtick]).
  2:{ rewrite <- app_assoc. simpl. rewrite <- app_assoc. reflexivity. }
  rewrite !app_comm_cons. now apply py_strip_fixed.
Qed.

Lemma fenced_shape hint raw :
  fenced hint raw = (fence ++ hint) ++ (newline :: raw ++ [newline]) ++ fence.
Proof.
  unfold fenced. rewrite <- !app_assoc. simpl. now rewrite <- !app_assoc.
Qed.

Lemma drop_fence_json t : drop 7 (fence_json ++ t) = t.
Proof. reflexivity. Qed.

Lemma drop_fence t : drop 3 (fence ++ t) = t.
Proof. reflexivity. Qed.

Lemma drop_last_fence t : drop_last 3 (t ++ fence) = t.
Proof. exact (drop_last_app t fence). Qed.

(** Cleaning a fenced block, tagged [json] or not, leaves its trimmed
    content. *)
Lemma clean_response_fenced_json raw :
  clean_response (fenced (lit "json") raw) = py_strip raw.
Proof.
  unfold clean_response. rewrite fenced_fixed, fenced_shape.
  change (fence ++ lit "json") with fence_json.
  rewrite startswith_app, drop_fence_json.
  change (startswith fence (_ ++ fence)) with false. cbv iota.
  rewrite endswith_app, drop_last_fence.
  apply py_strip_lines.
Qed.

Lemma clean_response_fenced_plain raw :
  clean_response (fenced [] raw) = py_strip raw.
Proof.
  unfold clean_response. rewrite fenced_fixed.
  change (startswith fence_json (fenced [] raw)) with false. cbv iota.
  rewrite fenced_shape. change (fence ++ []) with fence.
  rewrite startswith_app, drop_fence, endswith_app, drop_last_fence.
  apply py_strip_lines.
Qed.

End Fences.

(** ** The decoder's tokens *)

Section Lexer.

Lemma startswith_split p s : startswith p s = true -> s = p ++ drop (length p) s.
Proof.
  revert s. induction p as [|a p IH]; intros s; [reflexivity|].
  destruct s as [|b s]; simpl; [discriminate|].
  intros H. apply andb_true_iff in H as [Hab H].
  apply N.eqb_eq in Hab as ->. f_equal. now apply IH.
Qed.

Lemma span_digits_split s ds rest :
  span_digits s = (ds, rest) -> s = ds ++ rest /\ Forall (fun d => is_digit d = true) ds.
Proof.
  revert ds rest. induction s as [|c r IH]; intros ds rest; simpl.
  - intros [= <- <-]. now split.
  - destruct (is_digit c) eqn:E.
    + destruct (span_digits r) as [ds' rest'] eqn:Er. intros [= <- <-].
      destruct (IH _ _ eq_refl) as [-> Hd]. split; [reflexivity|].
      now constructor.
    + intros [= <- <-]. now split.
Qed.

Lemma ends_token_app a c : ends_token c -> ends_token (a ++ c).
Proof.
  intros (c' & e & -> & He). exists (a ++ c'), e.
  now rewrite app_assoc.
Qed.

Lemma ends_token_cons a c : ends_token c -> ends_token (a :: c).
Proof. exact (ends_token_app [a] c). Qed.

Lemma digit_token_end d : is_digit d = true -> token_end d = true.
Proof.
  intros H. unfold token_end. rewrite H.
  now rewrite !orb_true_r.
Qed.

Lemma digits_end ds :
  Forall (fun d => is_digit d = true) ds -> ds <> [] -> ends_token ds.
Proof.
  intros Hd Hne. destruct ds as [|d ds] using rev_ind; [congruence|].
  apply Forall_app in Hd as [_ Hd]. inversion Hd; subst.
  exists ds, d. split; [reflexivity|now apply digit_token_end].
Qed.

Lemma ends_token_single e : token_end e = true -> ends_token [e].
Proof. intros H. now exists [], e. Qed.

Lemma lex_string_reads n s body rest :
  (length s <= n)%nat -> lex_string s = Some (body, rest) ->
  exists c, s = c ++ dquote :: rest.
Proof.
  revert s body rest. induction n as [|n IH]; intros s body rest Hlen H.
  { destruct s; [discriminate|simpl in Hlen; lia]. }
  destruct s as [|c r]; [discriminate|]. simpl in H, Hlen.
  assert (Hpush : forall x R (pre : str),
             (length R <= n)%nat ->
             push x (lex_string R) = Some (body, rest) ->
             exists c0, pre ++ R = c0 ++ dquote :: rest).
  { intros x R pre HR Hp. unfold push in Hp.
    destruct (lex_string R) as [[acc rest']|] eqn:E; [|discriminate].
    injection Hp as <- <-. destruct (IH _ _ _ HR E) as [c0 ->].
    exists (pre ++ c0). now rewrite app_assoc. }
  destruct (N.eqb_spec c dquote) as [->|_].
  { injection H as <- <-. now exists []. }
  destruct (c =? backslash)%N.
  - destruct r as [|e r1]; [discriminate|].
    destruct (e =? 117)%N.
    + destruct r1 as [|h1 [|h2 [|h3 [|h4 r2]]]]; try discriminate.
      destruct (hex4 h1 h2 h3 h4) as [u|]; [|discriminate].
      simpl in Hlen.
      destruct r2 as [|b [|e' [|g1 [|g2 [|g3 [|g4 r3]]]]]];
        try (apply (Hpush _ _ [c; e; h1; h2; h3; h4]) in H;
             [exact H|simpl; lia]).
      destruct (is_high_surrogate u && (b =? backslash)%N && (e' =? 117)%N).
      * destruct (hex4 g1 g2 g3 g4) as [u2|]; [|discriminate].
        destruct (is_low_surrogate u2).
        -- apply (Hpush _ _ [c; e; h1; h2; h3; h4; b; e'; g1; g2; g3; g4]) in H;
             [exact H|simpl in *; lia].
        -- apply (Hpush _ _ [c; e; h1; h2; h3; h4]) in H;
             [exact H|simpl in *; lia].
      * apply (Hpush _ _ [c; e; h1; h2; h3; h4]) in H;
          [exact H|simpl in *; lia].
    + destruct (unescape e) as [x|]; [|discriminate].
      apply (Hpush _ _ [c; e]) in H; [exact H|simpl in *; lia].
  - destruct (c <? 32)%N; [discriminate|].
    apply (Hpush _ _ [c]) in H; [exact H|lia].
Qed.

Lemma lex_int_part_reads s ds rest :
  lex_int_part s = Some (ds, rest) -> reads s ds rest.
Proof.
  unfold lex_int_part. destruct s as [|d r]; [discriminate|].
  destruct (N.eqb_spec d 48) as [->|_].
  - intros [= <- <-]. split; [reflexivity|]. now apply ends_token_single.
  - destruct (in_range 49 57 d) eqn:E; [|discriminate].
    destruct (span_digits r) as [ds' rest'] eqn:Es. intros [= <- <-].
    destruct (span_digits_split _ _ _ Es) as [-> Hd].
    split; [reflexivity|]. apply digits_end; [|discriminate].
    constructor; [|exact Hd].
    unfold is_digit, in_range in *.
    apply andb_true_iff in E as [E1 E2]. apply andb_true_iff.
    apply N.leb_le in E1. split; [apply N.leb_le; lia|exact E2].
Qed.

Lemma lex_frac_part_reads s frac rest :
  lex_frac_part s = (frac, rest) ->
  (frac = None /\ rest = s) \/ exists c, reads s c rest.
Proof.
  unfold lex_frac_part. destruct s as [|c r].
  { intros [= <- <-]. now left. }
  destruct (c =? 46)%N.
  - destruct (span_digits r) as [[|f fs] rest'] eqn:Es.
    + intros [= <- <-]. now left.
    + intros [= <- <-]. right.
      destruct (span_digits_split _ _ _ Es) as [-> Hd].
      exists (c :: f :: fs). split; [reflexivity|].
      apply ends_token_cons. now apply digits_end.
  - intros [= <- <-]. now left.
Qed.

Lemma lex_exp_part_reads s ex rest :
  lex_exp_part s = (ex, rest) ->
  (ex = None /\ rest = s) \/ exists c, reads s c rest.
Proof.
  unfold lex_exp_part. destruct s as [|c r].
  { intros [= <- <-]. now left. }
  destruct ((c =? 101)%N || (c =? 69)%N).
  2:{ intros [= <- <-]. now left. }
  set (sg := match r with
             | [] => (false, r)
             | sg :: r' =>
                 if (sg =? 45)%N then (true, r')
                 else if (sg =? 43)%N then (false, r') else (false, r)
             end).
  assert (Hsg : exists pre, r = pre ++ snd sg).
  { unfold sg. destruct r as [|x r']; [now exists []|].
    destruct (x =? 45)%N; [now exists [x]|].
    destruct (x =? 43)%N; [now exists [x]|now exists []]. }
  destruct sg as [neg r1]. destruct Hsg as [pre ->]. simpl.
  destruct (span_digits r1) as [[|d ds] rest'] eqn:Es.
  - intros [= <- <-]. now left.
  - intros [= <- <-]. right.
    destruct (span_digits_split _ _ _ Es) as [-> Hd].
    exists (c :: pre ++ d :: ds). split.
    + simpl. now rewrite <- app_assoc.
    + apply ends_token_cons, ends_token_app. now apply digits_end.
Qed.

Lemma lex_number_reads s v rest :
  lex_number s = Some (v, rest) -> exists c, reads s c rest.
Proof.
  unfold lex_number.
  set (sg := match s with
             | [] => (false, s)
             | c :: r => if (c =? 45)%N then (true, r) else (false, s)
             end).
  assert (Hsg : exists pre, s = pre ++ snd sg).
  { unfold sg. destruct s as [|x r]; [now exists []|].
    destruct (x =? 45)%N; [now exists [x]|now exists []]. }
  destruct sg as [neg s1]. destruct Hsg as [pre ->]. simpl.
  destruct (lex_int_part s1) as [[ds s2]|] eqn:Ei; [|discriminate].
  destruct (lex_int_part_reads _ _ _ Ei) as [-> Hds].
  destruct (lex_frac_part s2) as [frac s3] eqn:Ef.
  destruct (lex_exp_part s3) as [ex s4] eqn:Ee.
  intros H.
  assert (rest = s4) as ->.
  { destruct frac, ex; now injection H as _ <-. }
  clear H.
  destruct (lex_frac_part_reads _ _ _ Ef) as [[_ Hf]|(cf & Hf & Hcf)];
    destruct (lex_exp_part_reads _ _ _ Ee) as [[_ He]|(ce & He & Hce)];
    subst.
  - exists (pre ++ ds). split; [now rewrite <- app_assoc|].
    now apply ends_token_app.
  - exists (pre ++ ds ++ ce). split; [now rewrite <- !app_assoc|].
    now apply ends_token_app, ends_token_app.
  - exists (pre ++ ds ++ cf). split; [now rewrite <- !app_assoc|].
    now apply ends_token_app, ends_token_app.
  - exists (pre ++ ds ++ cf ++ ce). split; [now rewrite <- !app_assoc|].
    now apply ends_token_app, ends_token_app, ends_token_app.
Qed.

Lemma lex_word_reads w v s t rest :
  lex_word w v s = Some (t, rest) -> s = lit w ++ rest.
Proof.
  unfold lex_word. destruct (startswith (lit w) s) eqn:E; [|discriminate].
  intros [= <- <-]. now apply startswith_split.
Qed.

End Lexer.

(** ** The decoder and the cleaning *)

Section Decoder.

Lemma digit_cases c :
  is_digit c = true ->
  In c [48; 49; 50; 51; 52; 53; 54; 55; 56; 57]%N.
Proof.
  unfold is_digit, in_range. intros H.
  apply andb_true_iff in H as [H1 H2].
  apply N.leb_le in H1. apply N.leb_le in H2. simpl.
  assert (c = 48 \/ c = 49 \/ c = 50 \/ c = 51 \/ c = 52 \/ c = 53
          \/ c = 54 \/ c = 55 \/ c = 56 \/ c = 57)%N as Hc by lia.
  intuition auto.
Qed.

Ltac char_cases H :=
  repeat (apply orb_true_iff in H as [H|H]);
  try (apply digit_cases in H; simpl in H;
       repeat (destruct H as [H|H]; [symmetry in H|]); try contradiction);
  try (apply (proj1 (N.eqb_eq _ _)) in H); subst;
  repeat split; try reflexivity;
  let E := fresh in intros E; vm_compute in E; discriminate E.

Lemma token_start_shape c :
  token_start c = true ->
  is_space c = false /\ c <> backtick /\ is_json_ws c = false.
Proof. unfold token_start. intros H. char_cases H. Qed.

Lemma token_end_shape c :
  token_end c = true -> is_space c = false /\ c <> backtick.
Proof. unfold token_end. intros H. char_cases H. Qed.

Lemma json_ws_is_space c : is_json_ws c = true -> is_space c = true.
Proof. unfold is_json_ws. intros H. char_cases H. Qed.

Lemma lex_word_ends w v s t rest a e :
  lit w = a ++ [e] -> token_end e = true ->
  lex_word w v s = Some (t, rest) -> exists c, reads s c rest.
Proof.
  intros Hw He H. apply lex_word_reads in H. exists (lit w).
  split; [exact H|]. exists a, e. now split.
Qed.

Lemma lex_token_reads s t rest :
  lex_token s = Some (t, rest) -> exists c, reads s c rest.
Proof.
  unfold lex_token. destruct s as [|c r]; [discriminate|].
  assert (Hone : forall t', token_end c = true ->
            Some (t', r) = Some (t, rest) -> exists c0, reads (c :: r) c0 rest).
  { intros t' Hc [= _ <-]. exists [c]. split; [reflexivity|].
    now apply ends_token_single. }
  destruct (N.eqb_spec c dquote) as [->|_].
  { destruct (lex_string r) as [[body rest']|] eqn:E; [|discriminate].
    intros [= _ <-].
    destruct (lex_string_reads _ _ _ _ (Nat.le_refl _) E) as [c0 ->].
    exists (dquote :: c0 ++ [dquote]). split.
    - simpl. now rewrite <- app_assoc.
    - exists (dquote :: c0), dquote. now split. }
  destruct (N.eqb_spec c lbrace) as [->|_]; [now apply Hone|].
  destruct (N.eqb_spec c rbrace) as [->|_]; [now apply Hone|].
  destruct (N.eqb_spec c 91) as [->|_]; [now apply Hone|].
  destruct (N.eqb_spec c 93) as [->|_]; [now apply Hone|].
  destruct (N.eqb_spec c 44) as [->|_]; [now apply Hone|].
  destruct (N.eqb_spec c 58) as [->|_]; [now apply Hone|].
  clear Hone.
  destruct (startswith (lit "null") (c :: r));
    [now apply (lex_word_ends _ _ _ _ _ (lit "nul") 108%N)|].
  destruct (startswith (lit "true") (c :: r));
    [now apply (lex_word_ends _ _ _ _ _ (lit "tru") 101%N)|].
  destruct (startswith (lit "false") (c :: r));
    [now apply (lex_word_ends _ _ _ _ _ (lit "fals") 101%N)|].
  destruct (lex_number (c :: r)) as [[v rest']|] eqn:E.
  { intros [= _ <-]. exact (lex_number_reads _ _ _ E). }
  destruct (startswith (lit "NaN") (c :: r));
    [now apply (lex_word_ends _ _ _ _ _ (lit "Na") 78%N)|].
  destruct (startswith (lit "Infinity") (c :: r));
    [now apply (lex_word_ends _ _ _ _ _ (lit "Infinit") 121%N)|].
  now apply (lex_word_ends _ _ _ _ _ (lit "-Infinit") 121%N).
Qed.

Lemma startswith_first a p c r :
  startswith (a :: p) (c :: r) = true -> c = a.
Proof.
  simpl. intros H. apply andb_true_iff in H as [H _].
  now apply N.eqb_eq in H.
Qed.

Lemma lex_number_start c r x :
  lex_number (c :: r) = Some x -> token_start c = true.
Proof.
  unfold lex_number.
  destruct (N.eqb_spec c 45) as [->|_]; [reflexivity|].
  unfold lex_int_part.
  destruct (N.eqb_spec c 48) as [->|_]; [reflexivity|].
  destruct (in_range 49 57 c) eqn:E; [|discriminate]. intros _.
  unfold token_start, is_digit. unfold in_range in *.
  apply andb_true_iff in E as [E1 E2]. apply N.leb_le in E1.
  assert ((48 <=? c)%N = true) as -> by (apply N.leb_le; lia).
  rewrite E2. simpl. now rewrite !orb_true_r.
Qed.

Lemma lex_token_start c r x :
  lex_token (c :: r) = Some x -> token_start c = true.
Proof.
  unfold lex_token.
  destruct (N.eqb_spec c dquote) as [->|_]; [reflexivity|].
  destruct (N.eqb_spec c lbrace) as [->|_]; [reflexivity|].
  destruct (N.eqb_spec c rbrace) as [->|_]; [reflexivity|].
  destruct (N.eqb_spec c 91) as [->|_]; [reflexivity|].
  destruct (N.eqb_spec c 93) as [->|_]; [reflexivity|].
  destruct (N.eqb_spec c 44) as [->|_]; [reflexivity|].
  destruct (N.eqb_spec c 58) as [->|_]; [reflexivity|].
  destruct (startswith (lit "null") (c :: r)) eqn:E1;
    [now rewrite (startswith_first _ _ _ _ E1)|].
  destruct (startswith (lit "true") (c :: r)) eqn:E2;
    [now rewrite (startswith_first _ _ _ _ E2)|].
  destruct (startswith (lit "false") (c :: r)) eqn:E3;
    [now rewrite (startswith_first _ _ _ _ E3)|].
  destruct (lex_number (c :: r)) as [y|] eqn:E4;
    [intros _; exact (lex_number_start _ _ _ E4)|].
  destruct (startswith (lit "NaN") (c :: r)) eqn:E5;
    [now rewrite (startswith_first _ _ _ _ E5)|].
  destruct (startswith (lit "Infinity") (c :: r)) eqn:E6;
    [now rewrite (startswith_first _ _ _ _ E6)|].
  unfold lex_word.
  destruct (startswith (lit "-Infinity") (c :: r)) eqn:E7; [|discriminate].
  now rewrite (startswith_first _ _ _ _ E7).
Qed.

(** The scan of a text does not depend on the fuel, once there is more
    of it than characters. *)
Lemma lex_fuel_enough n m s :
  (length s < n)%nat -> (length s < m)%nat -> lex_fuel n s = lex_fuel m s.
Proof.
  revert m s. induction n as [|n IH]; intros m s Hn Hm; [lia|].
  destruct m as [|m]; [lia|]. cbn [lex_fuel].
  destruct (lstrip_by_split is_json_ws s) as (a & Ha & _).
  fold (skip_ws s) in Ha.
  destruct (skip_ws s) as [|c r]; [reflexivity|].
  destruct (lex_token (c :: r)) as [[t rest]|] eqn:Et; [|reflexivity].
  destruct (lex_token_reads _ _ _ Et) as (c0 & Hc0 & c' & e & -> & _).
  apply (f_equal length) in Ha, Hc0.
  rewrite !length_app in Ha, Hc0. simpl in Ha, Hc0.
  rewrite !length_app in Hc0. simpl in Hc0.
  rewrite (IH m rest); [reflexivity| |]; lia.
Qed.

Lemma lex_any_fuel n s : (length s < n)%nat -> lex_fuel n s = lex s.
Proof. intros H. apply lex_fuel_enough; [exact H|lia]. Qed.

Lemma json_ws_cases w :
  is_json_ws w = true -> w = 32%N \/ w = 9%N \/ w = 10%N \/ w = 13%N.
Proof.
  unfold is_json_ws. intros H.
  repeat (apply orb_true_iff in H as [H|H]);
    apply N.eqb_eq in H; auto.
Qed.

Lemma push_followed_by x w o :
  push x (followed_by w o) = followed_by w (push x o).
Proof. now destruct o as [[b rest]|]. Qed.

Lemma hex_value_ws w : is_json_ws w = true -> hex_value w = None.
Proof.
  intros H. destruct (json_ws_cases w H) as [-> | [-> | [-> | ->]]]; reflexivity.
Qed.

Lemma hex4_ws a b c w : is_json_ws w = true -> hex4 a b c w = None.
Proof.
  intros H. unfold hex4. rewrite (hex_value_ws w H).
  now destruct (hex_value a), (hex_value b), (hex_value c).
Qed.

(** Adding a blank at the end of a text adds it to what is left after
    each scan, and changes nothing else. *)
Lemma lex_string_snoc w n r :
  is_json_ws w = true -> (length r <= n)%nat ->
  lex_string (r ++ [w]) = followed_by w (lex_string r).
Proof.
  intros Hw. revert r. induction n as [|n IH]; intros r Hlen.
  { destruct r; [|simpl in Hlen; lia].
    destruct (json_ws_cases w Hw) as [-> | [-> | [-> | ->]]]; reflexivity. }
  destruct r as [|c r].
  { destruct (json_ws_cases w Hw) as [-> | [-> | [-> | ->]]]; reflexivity. }
  simpl in Hlen. cbn [app lex_string].
  destruct (c =? dquote)%N; [reflexivity|].
  destruct (c =? backslash)%N.
  2:{ destruct (c <? 32)%N; [reflexivity|].
      rewrite IH by lia. apply push_followed_by. }
  destruct r as [|e r1]; cbn [app].
  { destruct (json_ws_cases w Hw) as [-> | [-> | [-> | ->]]]; reflexivity. }
  simpl in Hlen. destruct (e =? 117)%N.
  2:{ destruct (unescape e); [|reflexivity].
      rewrite IH by lia. apply push_followed_by. }
  destruct r1 as [|h1 [|h2 [|h3 [|h4 r2]]]]; cbn [app];
    try reflexivity.
  { now rewrite hex4_ws. }
  simpl in Hlen.
  destruct (hex4 h1 h2 h3 h4) as [u|]; [|reflexivity].
  rewrite (IH r2) by lia.
  remember (lex_string r2) as L eqn:HL.
  destruct r2 as [|b [|e' [|g1 [|g2 [|g3 [|g4 r3]]]]]]; cbn [app];
    try apply push_followed_by.
  - (* five characters: the added one would be the fourth digit *)
    rewrite hex4_ws by exact Hw.
    destruct (is_high_surrogate u && (b =? backslash)%N && (e' =? 117)%N)
      eqn:E; [|apply push_followed_by].
    apply andb_true_iff in E as [E E2]. apply andb_true_iff in E as [_ E1].
    apply N.eqb_eq in E1, E2. subst b e'. simpl in HL. now subst L.
  - simpl in Hlen.
    destruct (is_high_surrogate u && (b =? backslash)%N && (e' =? 117)%N);
      [|apply push_followed_by].
    destruct (hex4 g1 g2 g3 g4) as [u2|]; [|reflexivity].
    destruct (is_low_surrogate u2); [|apply push_followed_by].
    rewrite IH by lia. apply push_followed_by.
Qed.

Lemma span_digits_snoc w r :
  is_json_ws w = true ->
  span_digits (r ++ [w]) = (fst (span_digits r), snd (span_digits r) ++ [w]).
Proof.
  intros Hw. induction r as [|c r IH]; simpl.
  - destruct (json_ws_cases w Hw) as [-> | [-> | [-> | ->]]]; reflexivity.
  - destruct (is_digit c); [|reflexivity].
    rewrite IH. now destruct (span_digits r).
Qed.

Lemma lex_int_part_snoc w s :
  is_json_ws w = true ->
  lex_int_part (s ++ [w]) = followed_by w (lex_int_part s).
Proof.
  intros Hw. destruct s as [|d r]; simpl.
  - destruct (json_ws_cases w Hw) as [-> | [-> | [-> | ->]]]; reflexivity.
  - destruct (d =? 48)%N; [reflexivity|].
    destruct (in_range 49 57 d); [|reflexivity].
    rewrite span_digits_snoc by exact Hw. now destruct (span_digits r).
Qed.

Lemma lex_frac_part_snoc w s :
  is_json_ws w = true ->
  lex_frac_part (s ++ [w])
  = (fst (lex_frac_part s), snd (lex_frac_part s) ++ [w]).
Proof.
  intros Hw. destruct s as [|c r]; simpl.
  - destruct (json_ws_cases w Hw) as [-> | [-> | [-> | ->]]]; reflexivity.
  - destruct (c =? 46)%N; [|reflexivity].
    rewrite span_digits_snoc by exact Hw.
    now destruct (span_digits r) as [[|f fs] rest].
Qed.

Lemma lex_exp_part_snoc w s :
  is_json_ws w = true ->
  lex_exp_part (s ++ [w])
  = (fst (lex_exp_part s), snd (lex_exp_part s) ++ [w]).
Proof.
  intros Hw. destruct s as [|c r]; cbn [app lex_exp_part].
  - destruct (json_ws_cases w Hw) as [-> | [-> | [-> | ->]]]; reflexivity.
  - destruct ((c =? 101)%N || (c =? 69)%N); [|reflexivity].
    destruct r as [|sg r']; cbn [app].
    + destruct (json_ws_cases w Hw) as [-> | [-> | [-> | ->]]]; reflexivity.
    + destruct (sg =? 45)%N.
      * rewrite span_digits_snoc by exact Hw.
        now destruct (span_digits r') as [[|d ds] rest].
      * destruct (sg =? 43)%N.
        -- rewrite span_digits_snoc by exact Hw.
           now destruct (span_digits r') as [[|d ds] rest].
        -- change (sg :: r' ++ [w]) with ((sg :: r') ++ [w]).
           rewrite span_digits_snoc by exact Hw.
           now destruct (span_digits (sg :: r')) as [[|d ds] rest].
Qed.

Lemma lex_number_snoc w s :
  is_json_ws w = true ->
  lex_number (s ++ [w]) = followed_by w (lex_number s).
Proof.
  intros Hw.
  assert (Hrest : forall neg s1,
    match lex_int_part (s1 ++ [w]) with
    | Some (ds, s2) =>
        let '(frac, s3) := lex_frac_part s2 in
        let '(ex, s4) := lex_exp_part s3 in
        match frac, ex with
        | None, None =>
            let n := Z.of_N (digits_value ds) in
            Some (PInt (if neg then - n else n), s4)
        | _, _ =>
            let fs := default [] frac in
            let e := default 0 ex in
            Some (PFloat (FDec neg (digits_value (ds ++ fs))
                            (e - Z.of_nat (length fs))), s4)
        end
    | None => None
    end
    = followed_by w
        match lex_int_part s1 with
        | Some (ds, s2) =>
            let '(frac, s3) := lex_frac_part s2 in
            let '(ex, s4) := lex_exp_part s3 in
            match frac, ex with
            | None, None =>
                let n := Z.of_N (digits_value ds) in
                Some (PInt (if neg then - n else n), s4)
            | _, _ =>
                let fs := default [] frac in
                let e := default 0 ex in
                Some (PFloat (FDec neg (digits_value (ds ++ fs))
                                (e - Z.of_nat (length fs))), s4)
            end
        | None => None
        end).
  { intros neg s1. rewrite lex_int_part_snoc by exact Hw.
    destruct (lex_int_part s1) as [[ds s2]|]; [|reflexivity].
    cbn [followed_by]. rewrite lex_frac_part_snoc by exact Hw.
    destruct (lex_frac_part s2) as [frac s3]. cbn [fst snd].
    rewrite lex_exp_part_snoc by exact Hw.
    destruct (lex_exp_part s3) as [ex s4]. cbn [fst snd].
    now destruct frac, ex. }
  unfold lex_number. destruct s as [|c r]; cbn [app].
  - destruct (json_ws_cases w Hw) as [-> | [-> | [-> | ->]]]; reflexivity.
  - destruct (c =? 45)%N; [apply Hrest|].
    exact (Hrest false (c :: r)).
Qed.

Lemma startswith_snoc p s w :
  Forall (fun a => a <> w) p -> startswith p (s ++ [w]) = startswith p s.
Proof.
  intros Hp. revert s. induction Hp as [|a p Ha _ IH]; intros s.
  { now destruct s. }
  destruct s as [|b s]; simpl.
  - apply N.eqb_neq in Ha. now rewrite Ha.
  - now rewrite IH.
Qed.

Lemma startswith_length p s : startswith p s = true -> (length p <= length s)%nat.
Proof.
  revert s. induction p as [|a p IH]; intros s; simpl; [lia|].
  destruct s as [|b s]; [discriminate|]. intros H.
  apply andb_true_iff in H as [_ H]. apply IH in H. simpl. lia.
Qed.

Lemma lex_word_snoc word v s w :
  Forall (fun a => a <> w) (lit word) ->
  lex_word word v (s ++ [w]) = followed_by w (lex_word word v s).
Proof.
  intros Hp. unfold lex_word. rewrite startswith_snoc by exact Hp.
  destruct (startswith (lit word) s) eqn:E; [|reflexivity].
  cbn [followed_by]. now rewrite drop_app_le by now apply startswith_length.
Qed.

Lemma word_no_blank word w :
  is_json_ws w = true ->
  In word ["null"; "true"; "false"; "NaN"; "Infinity"; "-Infinity"]%string ->
  Forall (fun a => a <> w) (lit word).
Proof.
  intros Hw Hin.
  destruct (json_ws_cases w Hw) as [-> | [-> | [-> | ->]]];
    simpl in Hin; repeat (destruct Hin as [<-|Hin]); try contradiction;
    repeat constructor; discriminate.
Qed.

Lemma lex_token_snoc w c r :
  is_json_ws w = true ->
  lex_token (c :: r ++ [w]) = followed_by w (lex_token (c :: r)).
Proof.
  intros Hw. unfold lex_token.
  destruct (c =? dquote)%N.
  { rewrite (lex_string_snoc w (length r)) by (exact Hw || lia).
    now destruct (lex_string r) as [[body rest]|]. }
  destruct (c =? lbrace)%N; [reflexivity|].
  destruct (c =? rbrace)%N; [reflexivity|].
  destruct (c =? 91)%N; [reflexivity|].
  destruct (c =? 93)%N; [reflexivity|].
  destruct (c =? 44)%N; [reflexivity|].
  destruct (c =? 58)%N; [reflexivity|].
  change (c :: r ++ [w]) with ((c :: r) ++ [w]).
  rewrite !startswith_snoc by (apply word_no_blank; simpl; auto 10).
  rewrite !lex_word_snoc by (apply word_no_blank; simpl; auto 10).
  rewrite lex_number_snoc by exact Hw.
  destruct (startswith (lit "null") (c :: r)); [reflexivity|].
  destruct (startswith (lit "true") (c :: r)); [reflexivity|].
  destruct (startswith (lit "false") (c :: r)); [reflexivity|].
  destruct (lex_number (c :: r)) as [[v rest]|]; [reflexivity|].
  cbn [followed_by].
  destruct (startswith (lit "NaN") (c :: r)); [reflexivity|].
  destruct (startswith (lit "Infinity") (c :: r)); reflexivity.
Qed.

Lemma skip_ws_snoc w s :
  is_json_ws w = true ->
  skip_ws (s ++ [w])
  = match skip_ws s with [] => [] | x => x ++ [w] end.
Proof.
  intros Hw. unfold skip_ws. induction s as [|c s IH]; simpl.
  - now rewrite Hw.
  - destruct (is_json_ws c); [exact IH|reflexivity].
Qed.

Lemma lex_fuel_snoc w n s :
  is_json_ws w = true -> lex_fuel n (s ++ [w]) = lex_fuel n s.
Proof.
  intros Hw. revert s. induction n as [|n IH]; intros s; [reflexivity|].
  cbn [lex_fuel]. rewrite skip_ws_snoc by exact Hw.
  destruct (skip_ws s) as [|c r]; [reflexivity|]. cbn [app].
  rewrite lex_token_snoc by exact Hw.
  destruct (lex_token (c :: r)) as [[t rest]|]; [|reflexivity].
  cbn [followed_by]. now rewrite IH.
Qed.

Lemma lex_snoc w s : is_json_ws w = true -> lex (s ++ [w]) = lex s.
Proof.
  intros Hw. unfold lex at 1. rewrite lex_fuel_snoc by exact Hw.
  apply lex_any_fuel. rewrite length_app. simpl. lia.
Qed.

Lemma lex_cons w s : is_json_ws w = true -> lex (w :: s) = lex s.
Proof.
  intros Hw. unfold lex at 1.
  transitivity (lex_fuel (S (length (w :: s))) s).
  - cbn [lex_fuel]. unfold skip_ws. now rewrite lstrip_by_skip.
  - apply lex_any_fuel. simpl. lia.
Qed.

(** Blanks at the two ends of a text do not change its tokens. *)
Lemma lex_json_trim s : lex (json_trim s) = lex s.
Proof.
  destruct (strip_by_split is_json_ws s) as (a & z & Hs & Ha & Hz).
  fold (json_trim s) in Hs. rewrite Hs at 2. clear Hs.
  induction Ha as [|c a Hc _ IH]; simpl.
  - induction z as [|c z IH] using rev_ind; [now rewrite app_nil_r|].
    apply Forall_app in Hz as [Hz Hc]. inversion Hc; subst.
    rewrite app_assoc, lex_snoc by assumption. now apply IH.
  - now rewrite lex_cons.
Qed.

(** A text that the scanner accepts ends with a blank or with the last
    character of a token. *)
Lemma lex_fuel_last n s ts w :
  lex_fuel n s = Some ts -> last s = Some w ->
  is_json_ws w = true \/ token_end w = true.
Proof.
  revert s ts. induction n as [|n IH]; intros s ts H Hl; [discriminate|].
  cbn [lex_fuel] in H.
  destruct (lstrip_by_split is_json_ws s) as (a & Ha & Hws).
  fold (skip_ws s) in Ha.
  destruct (skip_ws s) as [|c r] eqn:Es.
  - left. rewrite app_nil_r in Ha. subst a.
    apply last_Some_elem_of in Hl.
    rewrite Forall_forall in Hws. now apply Hws.
  - destruct (lex_token (c :: r)) as [[t rest]|] eqn:Et; [|discriminate].
    destruct (lex_fuel n rest) as [ts'|] eqn:Er; [|discriminate].
    destruct (lex_token_reads _ _ _ Et) as (c0 & Hc0 & c' & e & -> & He).
    rewrite Ha, Hc0, last_app in Hl.
    rewrite last_app in Hl.
    destruct (last rest) as [y|] eqn:Ey.
    + injection Hl as ->. exact (IH _ _ Er Ey).
    + rewrite last_snoc in Hl. injection Hl as <-. now right.
Qed.

(** The first character that is not a blank starts a token. *)
Lemma lex_fuel_first n s t ts c r :
  lex_fuel n s = Some (t :: ts) -> skip_ws s = c :: r -> token_start c = true.
Proof.
  destruct n as [|n]; [discriminate|]. cbn [lex_fuel].
  intros H Es. rewrite Es in H.
  destruct (lex_token (c :: r)) as [x|] eqn:Et; [|discriminate].
  exact (lex_token_start _ _ _ Et).
Qed.

(** A text that decodes is, between its blanks, a text that starts and
    ends with token characters. *)
Lemma json_value_ends raw v :
  json_value raw = Some v ->
  exists a z, head (json_trim raw) = Some a /\ last (json_trim raw) = Some z
    /\ token_start a = true /\ token_end z = true.
Proof.
  unfold json_value. rewrite <- lex_json_trim. unfold lex. intros H.
  set (b := json_trim raw) in *.
  destruct (lex_fuel (S (length b)) b) as [ts|] eqn:El; [|discriminate].
  destruct ts as [|t ts]; [discriminate|].
  destruct b as [|a b'] eqn:Eb.
  { discriminate. }
  assert (Ha : is_json_ws a = false).
  { apply (strip_by_head is_json_ws raw). fold (json_trim raw).
    fold b. now rewrite Eb. }
  assert (Hs : skip_ws (a :: b') = a :: b').
  { now apply lstrip_by_keep. }
  exists a. destruct (last (a :: b')) as [z|] eqn:Ez.
  2:{ now apply last_None in Ez. }
  exists z. repeat split.
  - exact (lex_fuel_first _ _ _ _ _ _ El Hs).
  - destruct (lex_fuel_last _ _ _ _ El Ez) as [Hw|He]; [|exact He].
    assert (is_json_ws z = false); [|congruence].
    apply (strip_by_last is_json_ws raw). fold (json_trim raw).
    fold b. now rewrite Eb.
Qed.

Lemma no_backtick_head a s :
  head s = Some a -> a <> backtick -> startswith fence s = false.
Proof.
  destruct s as [|x s]; [discriminate|]. intros [= ->] Ha.
  apply (startswith_head backtick [backtick; backtick]).
  intros E. now apply Ha.
Qed.

Lemma no_backtick_last z s :
  last s = Some z -> z <> backtick -> endswith fence s = false.
Proof.
  intros Hl Hz. destruct s as [|x s _] using rev_ind; [discriminate|].
  rewrite last_snoc in Hl. injection Hl as ->.
  apply (endswith_last backtick [backtick; backtick]).
  intros E. now apply Hz.
Qed.

(** Cleaning a text that decodes leaves the text between its blanks, and
    that text decodes to the same value. *)
Lemma clean_response_valid raw v :
  json_value raw = Some v ->
  clean_response raw = json_trim raw
  /\ json_value (clean_response raw) = Some v.
Proof.
  intros H.
  destruct (json_value_ends _ _ H) as (a & z & Hh & Hl & Ha & Hz).
  destruct (token_start_shape _ Ha) as (Ha1 & Ha2 & Ha3).
  destruct (token_end_shape _ Hz) as (Hz1 & Hz2).
  assert (Hp : py_strip raw = json_trim raw).
  { destruct (strip_by_split is_json_ws raw) as (x & y & Hr & Hx & Hy).
    fold (json_trim raw) in Hr. rewrite Hr at 1.
    unfold py_strip. rewrite strip_by_blanks.
    - now apply (strip_by_fixed _ _ a z).
    - eapply Forall_impl; [exact Hx|]. apply json_ws_is_space.
    - eapply Forall_impl; [exact Hy|]. apply json_ws_is_space. }
  assert (Hc : clean_response raw = json_trim raw).
  { rewrite clean_response_plain; [exact Hp| |]; rewrite Hp.
    - exact (no_backtick_head _ _ Hh Ha2).
    - exact (no_backtick_last _ _ Hl Hz2). }
  split; [exact Hc|]. rewrite Hc.
  unfold json_value in *. now rewrite lex_json_trim.
Qed.

(** The grammar on small texts. *)
Example json_value_object :
  json_value (lit " {" ++ quoted "a" ++ lit ": [1, -2.50e3, true, null], "
              ++ quoted "b" ++ lit ": {}} ")
  = Some (PDict [ (lit "a", PList [PInt 1; PFloat (FDec true 250 1);
                                   PBool true; PNone]);
                  (lit "b", PDict []) ]).
Proof. reflexivity. Qed.

Example json_value_repeated_key :
  json_value (lit "{" ++ quoted "a" ++ lit ": 1, " ++ quoted "b" ++ lit ": 2, "
              ++ quoted "a" ++ lit ": 3}")
  = Some (PDict [(lit "a", PInt 3); (lit "b", PInt 2)]).
Proof. reflexivity. Qed.

Example json_value_escapes :
  json_value (dquote :: lit "a\n\u00e9\ud83d\ude00" ++ [dquote])
  = Some (PStr [97; 10; 233; 128512]%N).
Proof. reflexivity. Qed.

Example json_value_rejects :
  map json_value
    [ lit ""; lit "{"; lit "[1,]"; lit "01"; lit "1."; lit "-"; lit "tru";
      lit "1 2"; lit "{a: 1}"; lit "'x'"; lit "```5" ]
  = [None; None; None; None; None; None; None; None; None; None; None].
Proof. reflexivity. Qed.

Example json_value_scalars :
  map json_value [lit "5"; lit "-0"; lit "1e2"; lit "NaN"; lit "-Infinity";
                  lit "null"; lit " false "]
  = [ Some (PInt 5); Some (PInt 0); Some (PFloat (FDec false 1 2));
      Some (PFloat FNaN); Some (PFloat (FInf true)); Some PNone;
      Some (PBool false) ].
Proof. reflexivity. Qed.

End Decoder.

(** ** The decoder under the limits of the interpreter *)

Section Limited.

Context `{L : Limits}.

Lemma scan_fuel_lex n s :
  lex_fuel n s
  = (if snd (scan_fuel n s) then Some (map fst (fst (scan_fuel n s)))
     else None).
Proof.
  revert s. induction n as [|n IH]; intros s; [reflexivity|].
  cbn [lex_fuel scan_fuel]. destruct (skip_ws s) as [|c r]; [reflexivity|].
  destruct (lex_token (c :: r)) as [[t rest]|]; [|reflexivity].
  rewrite IH. destruct (scan_fuel n rest) as [ts whole]. cbn [fst snd map].
  now destruct whole.
Qed.

Lemma scan_lex s :
  lex s = (if snd (scan s) then Some (map fst (fst (scan s))) else None).
Proof. apply scan_fuel_lex. Qed.

Lemma scan_fuel_enough n m s :
  (length s < n)%nat -> (length s < m)%nat -> scan_fuel n s = scan_fuel m s.
Proof.
  revert m s. induction n as [|n IH]; intros m s Hn Hm; [lia|].
  destruct m as [|m]; [lia|]. cbn [scan_fuel].
  destruct (lstrip_by_split is_json_ws s) as (a & Ha & _).
  fold (skip_ws s) in Ha.
  destruct (skip_ws s) as [|c r]; [reflexivity|].
  destruct (lex_token (c :: r)) as [[t rest]|] eqn:Et; [|reflexivity].
  destruct (lex_token_reads _ _ _ Et) as (c0 & Hc0 & c' & e & -> & _).
  apply (f_equal length) in Ha, Hc0.
  rewrite !length_app in Ha, Hc0. simpl in Ha, Hc0.
  rewrite !length_app in Hc0. simpl in Hc0.
  rewrite (IH m rest); [reflexivity| |]; lia.
Qed.

Lemma scan_any_fuel n s : (length s < n)%nat -> scan_fuel n s = scan s.
Proof. intros H. apply scan_fuel_enough; [exact H|lia]. Qed.

Lemma literal_digits_snoc w c r :
  is_json_ws w = true ->
  literal_digits (c :: r ++ [w]) = literal_digits (c :: r).
Proof.
  intros Hw. unfold literal_digits. destruct (c =? 45)%N.
  - rewrite lex_int_part_snoc by exact Hw.
    now destruct (lex_int_part r) as [[ds rest]|].
  - change (c :: r ++ [w]) with ((c :: r) ++ [w]).
    rewrite lex_int_part_snoc by exact Hw.
    now destruct (lex_int_part (c :: r)) as [[ds rest]|].
Qed.

Lemma scan_fuel_snoc w n s :
  is_json_ws w = true -> scan_fuel n (s ++ [w]) = scan_fuel n s.
Proof.
  intros Hw. revert s. induction n as [|n IH]; intros s; [reflexivity|].
  cbn [scan_fuel]. rewrite skip_ws_snoc by exact Hw.
  destruct (skip_ws s) as [|c r]; [reflexivity|]. cbn [app].
  rewrite lex_token_snoc, literal_digits_snoc by exact Hw.
  destruct (lex_token (c :: r)) as [[t rest]|]; [|reflexivity].
  cbn [followed_by]. now rewrite IH.
Qed.

Lemma scan_snoc w s : is_json_ws w = true -> scan (s ++ [w]) = scan s.
Proof.
  intros Hw. unfold scan at 1. rewrite scan_fuel_snoc by exact Hw.
  apply scan_any_fuel. rewrite length_app. simpl. lia.
Qed.

Lemma scan_cons w s : is_json_ws w = true -> scan (w :: s) = scan s.
Proof.
  intros Hw. unfold scan at 1.
  transitivity (scan_fuel (S (length (w :: s))) s).
  - cbn [scan_fuel]. unfold skip_ws. now rewrite lstrip_by_skip.
  - apply scan_any_fuel. simpl. lia.
Qed.

(** Blanks at the two ends of a text do not change what the decoder
    reads. *)
Lemma scan_json_trim s : scan (json_trim s) = scan s.
Proof.
  destruct (strip_by_split is_json_ws s) as (a & z & Hs & Ha & Hz).
  fold (json_trim s) in Hs. rewrite Hs at 2. clear Hs.
  induction Ha as [|c a Hc _ IH]; simpl.
  - induction z as [|c z IH] using rev_ind; [now rewrite app_nil_r|].
    apply Forall_app in Hz as [Hz Hc]. inversion Hc; subst.
    rewrite app_assoc, scan_snoc by assumption. now apply IH.
  - now rewrite scan_cons.
Qed.

Lemma json_loads_trim s : json_loads (json_trim s) = json_loads s.
Proof. unfold json_loads. now rewrite scan_json_trim. Qed.

(** A run under the limits that does not meet one is the run of the
    grammar. *)
Lemma run_limited_stopped st ts st' :
  run_limited st ts = Stopped st' -> run st (map fst ts) = Some st'.
Proof.
  revert st. induction ts as [|[t n] ts IH]; intros st;
    cbn [run_limited run map fst].
  { now intros [= ->]. }
  destruct (step st t) as [st1|]; [|discriminate].
  destruct (limit_hit st t n); [discriminate|]. apply IH.
Qed.

Lemma run_limited_rejected st ts :
  run_limited st ts = Rejected -> run st (map fst ts) = None.
Proof.
  revert st. induction ts as [|[t n] ts IH]; intros st;
    cbn [run_limited run map fst].
  { discriminate. }
  destruct (step st t) as [st1|]; [|reflexivity].
  destruct (limit_hit st t n); [discriminate|]. apply IH.
Qed.

(** When [json.loads] returns, it returns the value of the grammar, and
    when it raises [JSONDecodeError], the text is not JSON. *)
Lemma json_loads_value s v : json_loads s = Decoded v -> json_value s = Some v.
Proof.
  unfold json_loads, json_value, parse. rewrite scan_lex.
  destruct (scan s) as [ts whole]. cbn [fst snd].
  destruct (run_limited (PValue []) ts) as [st| |e] eqn:E; try discriminate.
  destruct st; try discriminate. destruct whole; [|discriminate].
  intros [= ->]. now rewrite (run_limited_stopped _ _ _ E).
Qed.

Lemma json_loads_not_json s :
  json_loads s = JSONDecodeError -> json_value s = None.
Proof.
  unfold json_loads, json_value, parse. rewrite scan_lex.
  destruct (scan s) as [ts whole]. cbn [fst snd].
  destruct whole; [|reflexivity].
  destruct (run_limited (PValue []) ts) as [st| |e] eqn:E; try discriminate.
  - rewrite (run_limited_stopped _ _ _ E). now destruct st.
  - now rewrite (run_limited_rejected _ _ E).
Qed.

Lemma reduce_depth v stk : (depth (reduce v stk) <= length stk)%nat.
Proof. destruct stk as [|[]]; simpl; lia. Qed.

Lemma step_depth st t st' :
  step st t = Some st' ->
  (depth st' <= depth st + (if opens t then 1 else 0))%nat.
Proof.
  destruct st, t; cbn [step start_value opens depth]; try discriminate;
    intros [= <-]; cbn [depth length];
    try (etransitivity; [apply reduce_depth|]; cbn [length]; lia); lia.
Qed.

(** Away from the limits a run is the run of the grammar. *)
Lemma run_limited_within ts : forall st,
  (depth st + length (filter (fun p => opens (fst p) = true) ts)
   <= recursion_room)%nat ->
  Forall (fun p => match fst p with
                   | TVal (PInt _) => over_digits (snd p) = false
                   | _ => True
                   end) ts ->
  run_limited st ts
  = match run st (map fst ts) with
    | Some st' => Stopped st'
    | None => Rejected
    end.
Proof.
  induction ts as [|[t n] ts IH]; intros st Hd Hi;
    cbn [run_limited run map fst]; [reflexivity|].
  inversion Hi as [|? ? Ht Hi']; subst. cbn [fst snd] in Ht.
  destruct (step st t) as [st1|] eqn:E; [|reflexivity].
  pose proof (step_depth _ _ _ E) as Hs.
  assert (Hn : limit_hit st t n = None).
  { destruct t as [| | | | | |x|v]; try reflexivity; cbn [limit_hit].
    - rewrite filter_cons_True in Hd by reflexivity. cbn [length] in Hd.
      destruct (Nat.leb_spec recursion_room (depth st)); [lia|reflexivity].
    - rewrite filter_cons_True in Hd by reflexivity. cbn [length] in Hd.
      destruct (Nat.leb_spec recursion_room (depth st)); [lia|reflexivity].
    - destruct v; try reflexivity. now rewrite Ht. }
  rewrite Hn. apply IH; [|exact Hi'].
  destruct (opens t) eqn:Eo.
  - rewrite filter_cons_True in Hd by exact Eo. cbn [length] in Hd. lia.
  - rewrite filter_cons_False in Hd by (cbn [fst]; rewrite Eo; discriminate).
    lia.
Qed.

(** A text whose tokens stay within the limits: [json.loads] returns
    the value of the grammar, or raises [JSONDecodeError] when there is
    none. *)
Lemma json_loads_within_limits s :
  within_limits (fst (scan s)) ->
  json_loads s
  = match json_value s with
    | Some v => Decoded v
    | None => JSONDecodeError
    end.
Proof.
  unfold within_limits, json_loads, json_value, parse. rewrite scan_lex.
  destruct (scan s) as [ts whole]. cbn [fst snd]. intros [Hd Hi].
  rewrite run_limited_within by (cbn [depth length]; assumption || lia).
  destruct whole; destruct (run (PValue []) (map fst ts)) as [st|];
    try reflexivity; now destruct st.
Qed.

(** Cleaning a text that [json.loads] decodes leaves the text between
    its blanks, which it decodes to the same value. *)
Lemma clean_response_loads raw v :
  json_loads raw = Decoded v ->
  clean_response raw = json_trim raw
  /\ json_loads (clean_response raw) = Decoded v.
Proof.
  intros H.
  destruct (clean_response_valid raw v (json_loads_value _ _ H)) as [Hc _].
  split; [exact Hc|]. now rewrite Hc, json_loads_trim.
Qed.

End Limited.

Section LimitedExamples.

#[local] Existing Instance sample_limits.

(** The decoder at the limits of the sample run: an array inside 900
    others is one too many, and so is a digit after 4300. *)
Example json_loads_deep :
  (exists v, json_loads (replicate 900 91%N ++ replicate 900 93%N) = Decoded v)
  /\ json_loads (replicate 901 91%N ++ replicate 901 93%N)
     = Raised (recursion_error "array")
  /\ json_loads (replicate 901 91%N) = Raised (recursion_error "array")
  /\ json_loads (replicate 900 91%N) = JSONDecodeError
  /\ json_loads (replicate 900 91%N ++ lit "{")
     = Raised (recursion_error "object").
Proof.
  split; [eexists; vm_compute; reflexivity|].
  repeat apply conj; vm_compute; reflexivity.
Qed.

Example json_loads_long_integer :
  match json_loads (replicate 4300 49%N) with
  | Decoded (PInt _) => true
  | _ => false
  end = true
  /\ json_loads (replicate 4301 49%N)
     = Raised (lit "Exceeds the limit (4300 digits) for integer string conversion: value has 4301 digits; use sys.set_int_max_str_digits() to increase the limit")
  /\ match json_loads (replicate 4301 49%N ++ lit ".5") with
     | Decoded (PFloat _) => true
     | _ => false
     end = true.
Proof. repeat apply conj; vm_compute; reflexivity. Qed.

(** What the decoder meets first decides. *)
Example json_loads_first_event :
  json_loads (lit "[1 " ++ replicate 4301 49%N) = JSONDecodeError
  /\ (exists e, json_loads (replicate 4301 49%N ++ lit " x") = Raised e)
  /\ (exists e, json_loads (replicate 4301 49%N ++ lit ".") = Raised e)
  /\ json_loads (lit "0" ++ replicate 4301 49%N) = JSONDecodeError
  /\ json_loads (lit "[x" ++ replicate 2000 91%N) = JSONDecodeError
  /\ (exists e, json_loads (lit "[" ++ replicate 4301 49%N ++ lit " x")
                = Raised e)
  /\ (exists e, json_loads (lit "{" ++ quoted "a" ++ lit ": "
                            ++ replicate 4301 49%N ++ lit ", " ++ quoted "a"
                            ++ lit ": 1}") = Raised e).
Proof.
  repeat apply conj; try (vm_compute; reflexivity);
    eexists; vm_compute; reflexivity.
Qed.

End LimitedExamples.


(** ** Filling the required fields *)

Section Fill.

Context `{L : Limits}.

Lemma str_eqb_neq k k' : k <> k' -> str_eqb k k' = false.
Proof. intros H. unfold str_eqb. now apply bool_decide_eq_false. Qed.

Lemma dict_set_absent k v d :
  dict_get k d = None -> dict_set k v d = d ++ [(k, v)].
Proof.
  induction d as [|[k' v'] d IH]; simpl; [reflexivity|].
  destruct (str_eqb k' k); [discriminate|]. intros H. now rewrite IH.
Qed.

Lemma dict_get_app_absent k d k' v :
  k <> k' -> dict_get k' (d ++ [(k, v)]) = dict_get k' d.
Proof.
  intros Hk. induction d as [|[k0 v0] d IH]; simpl.
  - now rewrite str_eqb_neq.
  - now destruct (str_eqb k0 k').
Qed.

Lemma dict_get_app_present k d k' v x :
  dict_get k' d = Some x -> dict_get k' (d ++ [(k, v)]) = Some x.
Proof.
  induction d as [|[k0 v0] d IH]; simpl; [discriminate|].
  now destruct (str_eqb k0 k').
Qed.

Lemma dict_has_get_none k d : dict_has k d = false -> dict_get k d = None.
Proof. unfold dict_has. now destruct (dict_get k d). Qed.

(** A dict with every field already present comes back as it is. *)
Lemma fill_required_present fields d :
  forallb (fun f => dict_has f d) fields = true ->
  fill_required fields (PDict d) = Ok (PDict d).
Proof.
  induction fields as [|f fields IH]; simpl; [reflexivity|].
  intros H. apply andb_true_iff in H as [-> H]. now apply IH.
Qed.

(** A value that is no dict makes the loop raise, unless every field
    name is found in it. *)
Lemma fill_required_raises fields v :
  is_dict v = false ->
  match v with
  | PList l => forallb (fun f => existsb (is_str f) l) fields
  | PStr s => forallb (fun f => contains f s) fields
  | _ => false
  end = false ->
  fields <> [] ->
  exists e, fill_required fields v = Raise e /\ e <> [].
Proof.
  intros Hd Hall Hne.
  destruct v as [|b|z|f|s|l|d]; try discriminate;
    try (destruct fields as [|f0 fields]; [congruence|];
         simpl; eexists; split; [reflexivity|discriminate]).
  - clear Hne. induction fields as [|f0 fields IH]; [discriminate|].
    simpl in *. destruct (contains f0 s).
    + now apply IH.
    + eexists. split; [reflexivity|discriminate].
  - clear Hne. induction fields as [|f0 fields IH]; [discriminate|].
    simpl in *. destruct (existsb (is_str f0) l).
    + now apply IH.
    + eexists. split; [reflexivity|discriminate].
Qed.

Lemma fill_required_keeps fields v r :
  fill_required fields v = Ok r -> v <> PNone -> r <> PNone.
Proof.
  revert v. induction fields as [|f fields IH]; intros v.
  { now intros [= <-]. }
  cbn [fill_required].
  destruct (py_in f v) as [[|]|e] eqn:Ein; [now apply IH| |discriminate].
  destruct (py_setitem v f (_get_default_value f)) as [v'|e] eqn:Es;
    [|discriminate].
  intros H _. apply (IH v' H).
  destruct v; try discriminate; injection Es as <-; discriminate.
Qed.

(** The interpreter never gives [None]. *)
Lemma interpret_not_none raw : interpret raw <> PNone.
Proof.
  unfold interpret, interpret_body.
  destruct (parse_response _) as [v|e0]; [|discriminate].
  destruct (fill_required _ _) as [r|e] eqn:E; [|discriminate].
  apply (fill_required_keeps _ _ _ E).
  intros Hv. rewrite Hv in E. discriminate.
Qed.

Lemma parse_response_found raw d :
  object_found raw d -> parse_response (clean_response raw) = Ok (PDict d).
Proof.
  unfold object_found, parse_response, has_brace_pair.
  intros [->|(-> & -> & ->)]; reflexivity.
Qed.

(** An exception of the interpreter's limits on a text that is JSON
    reaches the handler of [analyze_comment]. *)
Lemma interpret_raised raw v e :
  json_value raw = Some v -> json_loads raw = Raised e ->
  interpret raw = error_result e.
Proof.
  intros Hv He. destruct (clean_response_valid raw v Hv) as [Hc _].
  unfold interpret, interpret_body, parse_response.
  now rewrite Hc, json_loads_trim, He.
Qed.

Lemma object_found_whole raw d :
  json_loads raw = Decoded (PDict d) -> object_found raw d.
Proof.
  intros H. left. now apply clean_response_loads.
Qed.

End Fill.

(** ** An object inside other text *)

Section Embedded.

Context `{L : Limits}.

Lemma lstrip_by_app_keep p P c X :
  p c = false -> lstrip_by p (P ++ c :: X) = lstrip_by p P ++ c :: X.
Proof.
  intros Hc. induction P as [|a P IH]; simpl.
  - now rewrite Hc.
  - destruct (p a); [exact IH|reflexivity].
Qed.

Lemma rstrip_by_app_keep p X c Q :
  p c = false -> rstrip_by p (X ++ c :: Q) = X ++ c :: rstrip_by p Q.
Proof.
  intros Hc. unfold rstrip_by.
  rewrite rev_app_distr. simpl. rewrite <- app_assoc. simpl.
  rewrite lstrip_by_app_keep by exact Hc.
  rewrite rev_app_distr. simpl. rewrite rev_involutive.
  now rewrite <- app_assoc.
Qed.

Lemma brace_free_lstrip p s : brace_free s -> brace_free (lstrip_by p s).
Proof.
  intros H. destruct (lstrip_by_split p s) as (a & Ha & _).
  unfold brace_free in *. rewrite Ha in H. now apply Forall_app in H as [_ H].
Qed.

Lemma brace_free_rstrip p s : brace_free s -> brace_free (rstrip_by p s).
Proof.
  intros H. destruct (rstrip_by_split p s) as (b & Hb & _).
  unfold brace_free in *. rewrite Hb in H. now apply Forall_app in H as [H _].
Qed.

Lemma around_py_strip mid t : around mid t -> around mid (py_strip t).
Proof.
  intros (P & Q & -> & HP & HQ). unfold py_strip, strip_by.
  rewrite lstrip_by_app_keep by reflexivity.
  rewrite app_comm_cons, app_assoc.
  rewrite rstrip_by_app_keep by reflexivity.
  exists (lstrip_by is_space P), (rstrip_by is_space Q).
  split; [now rewrite <- app_assoc|].
  split; [now apply brace_free_lstrip|now apply brace_free_rstrip].
Qed.

Lemma startswith_app_length p P c X :
  startswith p (P ++ c :: X) = true -> ~ In c p ->
  (length p <= length P)%nat.
Proof.
  revert P. induction p as [|a p IH]; intros P H Hc; simpl; [lia|].
  destruct P as [|b P]; simpl in H.
  - apply andb_true_iff in H as [H _]. apply N.eqb_eq in H.
    exfalso. apply Hc. now left.
  - apply andb_true_iff in H as [_ H]. apply IH in H.
    + simpl. lia.
    + intros Hin. apply Hc. now right.
Qed.

Lemma around_drop_prefix p mid t :
  ~ In lbrace p -> around mid t ->
  around mid (if startswith p t then drop (length p) t else t).
Proof.
  intros Hp Ha. destruct (startswith p t) eqn:E; [|exact Ha].
  destruct Ha as (P & Q & -> & HP & HQ).
  apply startswith_app_length in E; [|exact Hp].
  exists (drop (length p) P), Q. split; [now rewrite drop_app_le|].
  split; [now apply Forall_drop|exact HQ].
Qed.

Lemma rev_around (X : str) c Q : rev (X ++ c :: Q) = rev Q ++ c :: rev X.
Proof. rewrite rev_app_distr. simpl. now rewrite <- app_assoc. Qed.

Lemma shape_assoc (P : str) a mid b Q :
  P ++ a :: mid ++ b :: Q = (P ++ a :: mid) ++ b :: Q.
Proof. now rewrite <- app_assoc. Qed.

Lemma around_drop_last p mid t :
  ~ In rbrace p -> around mid t ->
  around mid (if endswith p t then drop_last (length p) t else t).
Proof.
  intros Hp Ha. destruct (endswith p t) eqn:E; [|exact Ha].
  destruct Ha as (P & Q & -> & HP & HQ).
  unfold endswith in E. rewrite shape_assoc, rev_around in E.
  apply startswith_app_length in E.
  2:{ intros Hin. apply Hp. now apply in_rev. }
  rewrite !length_rev in E.
  exists P, (drop_last (length p) Q).
  split; [|split; [exact HP|now apply Forall_take]].
  unfold drop_last. rewrite !shape_assoc.
  change ((P ++ lbrace :: mid) ++ rbrace :: Q)
    with ((P ++ lbrace :: mid) ++ [rbrace] ++ Q).
  change ((P ++ lbrace :: mid) ++ rbrace :: take (length Q - length p) Q)
    with ((P ++ lbrace :: mid) ++ [rbrace] ++ take (length Q - length p) Q).
  rewrite !app_assoc.
  rewrite take_app_ge.
  2:{ rewrite !length_app. simpl. lia. }
  f_equal. f_equal. rewrite !length_app. simpl. lia.
Qed.

Lemma around_clean_response mid t :
  around mid t -> around mid (clean_response t).
Proof.
  intros H. unfold clean_response.
  apply around_py_strip.
  apply (around_drop_last fence); [simpl; intuition discriminate|].
  apply (around_drop_prefix fence); [simpl; intuition discriminate|].
  apply (around_drop_prefix fence_json); [simpl; intuition discriminate|].
  now apply around_py_strip.
Qed.

Lemma find_app_fresh c P X :
  Forall (fun a => a <> c) P -> find c (P ++ c :: X) = Z.of_nat (length P).
Proof.
  induction 1 as [|a P Ha _ IH]; simpl.
  - now rewrite N.eqb_refl.
  - apply N.eqb_neq in Ha. rewrite Ha, IH.
    destruct (Z.ltb_spec (Z.of_nat (length P)) 0); lia.
Qed.

Lemma rfind_fresh c Q : Forall (fun a => a <> c) Q -> rfind c Q = -1.
Proof.
  induction 1 as [|a Q Ha _ IH]; simpl; [reflexivity|].
  rewrite IH. simpl. apply N.eqb_neq in Ha. now rewrite Ha.
Qed.

Lemma rfind_app_fresh c Y Q :
  Forall (fun a => a <> c) Q -> rfind c (Y ++ c :: Q) = Z.of_nat (length Y).
Proof.
  intros HQ. induction Y as [|y Y IH]; simpl.
  - rewrite (rfind_fresh c Q HQ). simpl. now rewrite N.eqb_refl.
  - rewrite IH. destruct (Z.leb_spec 0 (Z.of_nat (length Y))); lia.
Qed.

(** On a text of that shape the test of line 137 holds and the slice of
    line 138 is the object text. *)
Lemma around_slice mid t :
  around mid t ->
  has_brace_pair t = true
  /\ slice (find lbrace t) (rfind rbrace t + 1) t = lbrace :: mid ++ [rbrace].
Proof.
  intros (P & Q & -> & HP & HQ).
  assert (Hf : find lbrace (P ++ lbrace :: mid ++ rbrace :: Q)
               = Z.of_nat (length P)).
  { apply find_app_fresh. eapply Forall_impl; [exact HP|]. now intros c [? _]. }
  assert (Hr : rfind rbrace (P ++ lbrace :: mid ++ rbrace :: Q)
               = Z.of_nat (length (P ++ lbrace :: mid))).
  { rewrite shape_assoc. apply rfind_app_fresh.
    eapply Forall_impl; [exact HQ|]. now intros c [_ ?]. }
  unfold has_brace_pair. rewrite Hf, Hr. rewrite length_app. simpl length.
  split.
  - apply andb_true_iff. split; [apply Z.leb_le|apply Z.ltb_lt]; lia.
  - unfold slice. rewrite Nat2Z.id, drop_app_length.
    replace (lbrace :: mid ++ rbrace :: Q)
      with ((lbrace :: mid ++ [rbrace]) ++ Q)
      by (simpl; now rewrite <- app_assoc).
    replace (Z.to_nat (Z.of_nat (length P + S (length mid)) + 1
                       - Z.of_nat (length P)))
      with (length (lbrace :: mid ++ [rbrace]))
      by (simpl; rewrite length_app; simpl; lia).
    apply take_app_length.
Qed.

(** An object text between two texts without braces is the object the
    interpreter reads, when [json.loads] decodes it and raises
    [JSONDecodeError] on the whole. *)
Lemma object_found_embedded pre mid post d :
  brace_free pre -> brace_free post ->
  json_loads (lbrace :: mid ++ [rbrace]) = Decoded (PDict d) ->
  json_loads (clean_response (pre ++ lbrace :: mid ++ rbrace :: post))
    = JSONDecodeError ->
  object_found (pre ++ lbrace :: mid ++ rbrace :: post) d.
Proof.
  intros Hpre Hpost Hobj Hnone. right.
  assert (Ha : around mid (clean_response
                             (pre ++ lbrace :: mid ++ rbrace :: post))).
  { apply around_clean_response. now exists pre, post. }
  destruct (around_slice _ _ Ha) as [Hpair Hslice].
  split; [exact Hnone|]. split; [exact Hpair|]. now rewrite Hslice.
Qed.

End Embedded.

(** ** The response interpreter *)

Section Interpreter.

#[local] Existing Instance sample_limits.

(** C2, as stated, fails: the text [5] has no brace, yet it decodes, the
    field check raises on the number and the record is labelled
    [error]. *)
Lemma no_braces_default_counterexample :
  ~ brace_pair (lit "5")
  /\ interpret (lit "5") <> PDict _create_default_result
  /\ label_of (interpret (lit "5")) = Some (PStr (lit "error")).
Proof.
  split; [|split].
  - intros H. apply has_brace_pair_complete in H. discriminate.
  - vm_compute. discriminate.
  - reflexivity.
Qed.

(** C2, amended: a text without an opening brace followed by a closing
    one, and on whose cleaned form [json.loads] raises
    [JSONDecodeError] - it is not JSON by itself, and the decoder meets
    none of the interpreter's limits before it finds that out - gives the
    default record, without an exception and without an error field. *)
Theorem no_braces_default_record `{L : Limits} (raw : str) :
  ~ brace_pair raw ->
  json_loads (clean_response raw) = JSONDecodeError ->
  interpret_body raw = Ok (PDict _create_default_result)
  /\ interpret raw = PDict _create_default_result
  /\ error_of (interpret raw) = None.
Proof.
  intros Hpair Hjson.
  assert (Hb : interpret_body raw = Ok (PDict _create_default_result)).
  { unfold interpret_body, parse_response. rewrite Hjson.
    fold (has_brace_pair (clean_response raw)).
    destruct (has_brace_pair (clean_response raw)) eqn:E; [|reflexivity].
    exfalso. apply Hpair.
    eapply brace_pair_within; [apply within_clean_response|].
    now apply has_brace_pair_sound. }
  unfold interpret. rewrite Hb. now repeat split.
Qed.

Lemma no_braces_default_record_witness :
  ~ brace_pair (lit "I cannot rate this comment.")
  /\ json_loads (clean_response (lit "I cannot rate this comment."))
     = JSONDecodeError
  /\ interpret (lit "I cannot rate this comment.")
     = PDict _create_default_result.
Proof.
  assert (H1 : ~ brace_pair (lit "I cannot rate this comment.")).
  { intros H. apply has_brace_pair_complete in H. discriminate. }
  assert (H2 : json_loads (clean_response (lit "I cannot rate this comment."))
               = JSONDecodeError) by reflexivity.
  split; [exact H1|split; [exact H2|]].
  exact (proj1 (proj2 (no_braces_default_record _ H1 H2))).
Defined.

(** C4, as stated, fails: a content that itself starts with a marker
    loses it when read alone and keeps it inside a block. *)
Lemma fenced_same_counterexample :
  interpret (fenced (lit "json") (lit "```5")) <> interpret (lit "```5").
Proof. vm_compute. discriminate. Qed.

(** C4, amended: for a text that, once trimmed, neither starts nor ends
    with a code-block marker, the text inside a fenced block, tagged
    [json] or untagged, is interpreted as the text alone. *)
Theorem fenced_same_as_unwrapped `{L : Limits} (raw : str) :
  startswith fence (py_strip raw) = false ->
  endswith fence (py_strip raw) = false ->
  interpret (fenced (lit "json") raw) = interpret raw
  /\ interpret (fenced [] raw) = interpret raw.
Proof.
  intros Hs He. unfold interpret, interpret_body.
  rewrite clean_response_fenced_json, clean_response_fenced_plain.
  rewrite (clean_response_plain raw Hs He). now split.
Qed.

Lemma fenced_same_as_unwrapped_witness :
  startswith fence (py_strip full_answer) = false
  /\ endswith fence (py_strip full_answer) = false
  /\ interpret (fenced (lit "json") full_answer) = PDict full_record
  /\ interpret (fenced [] full_answer) = PDict full_record.
Proof.
  assert (H1 : startswith fence (py_strip full_answer) = false) by reflexivity.
  assert (H2 : endswith fence (py_strip full_answer) = false) by reflexivity.
  destruct (fenced_same_as_unwrapped full_answer H1 H2) as [Ha Hb].
  split; [exact H1|split; [exact H2|]].
  split; [rewrite Ha|rewrite Hb]; reflexivity.
Defined.

(** C5, as stated, fails: an object with the five keys whose score is
    an integer of 4301 digits is valid JSON, but [json.loads] raises the
    [ValueError] of [int] on it, which is no [JSONDecodeError]: the
    handler of [analyze_comment] gets it and the record is labelled
    [error]. *)
Lemma valid_object_counterexample :
  match json_value long_score_answer with
  | Some (PDict d) => forallb (fun f => dict_has f d) required_fields
  | _ => false
  end = true
  /\ label_of (interpret long_score_answer) = Some (PStr (lit "error"))
  /\ error_of (interpret long_score_answer)
     = Some (PStr (lit "Exceeds the limit (4300 digits) for integer string conversion: value has 4301 digits; use sys.set_int_max_str_digits() to increase the limit")).
Proof.
  assert (Hv : match json_value long_score_answer with
               | Some (PDict d) =>
                   forallb (fun f => dict_has f d) required_fields
               | _ => false
               end = true) by (vm_compute; reflexivity).
  assert (He : json_loads long_score_answer
               = Raised (lit "Exceeds the limit (4300 digits) for integer string conversion: value has 4301 digits; use sys.set_int_max_str_digits() to increase the limit"))
    by (vm_compute; reflexivity).
  split; [exact Hv|].
  destruct (json_value long_score_answer) as [v|] eqn:Ev; [|discriminate].
  rewrite (interpret_raised _ _ _ Ev He). split; reflexivity.
Qed.

(** C5, amended: a text that [json.loads] decodes to an object with the
    five required keys - a JSON object within the interpreter's limits
    on nesting and on the digits of an integer - comes back as the
    object it decodes to, whatever its label and score. *)
Theorem valid_object_returned_unchanged `{L : Limits} (raw : str) (d : dict) :
  json_loads raw = Decoded (PDict d) ->
  forallb (fun f => dict_has f d) required_fields = true ->
  interpret_body raw = Ok (PDict d) /\ interpret raw = PDict d.
Proof.
  intros Hjson Hkeys.
  assert (Hb : interpret_body raw = Ok (PDict d)).
  { unfold interpret_body.
    rewrite (parse_response_found raw d (object_found_whole _ _ Hjson)).
    now apply fill_required_present. }
  unfold interpret. now rewrite Hb.
Qed.

Lemma valid_object_returned_unchanged_witness :
  json_loads full_answer = Decoded (PDict full_record)
  /\ forallb (fun f => dict_has f full_record) required_fields = true
  /\ interpret full_answer = PDict full_record.
Proof.
  assert (H1 : json_loads full_answer = Decoded (PDict full_record))
    by reflexivity.
  assert (H2 : forallb (fun f => dict_has f full_record) required_fields
               = true) by reflexivity.
  split; [exact H1|split; [exact H2|]].
  exact (proj2 (valid_object_returned_unchanged _ _ H1 H2)).
Defined.

(** C6, as stated, fails: a text can contain the object and yet not be
    read as it.  With a brace earlier in the text, the part from the first
    opening brace to the last closing one is not JSON, and the record is
    the default one, label [unknown], not the label of the object. *)
Lemma missing_fields_counterexample :
  within partial_object braced_answer
  /\ json_loads partial_object = Decoded (PDict partial_record)
  /\ dict_get (lit "sentiment") partial_record = Some (PStr (lit "positive"))
  /\ interpret braced_answer = PDict _create_default_result
  /\ label_of (interpret braced_answer) = Some (PStr (lit "unknown")).
Proof.
  split.
  - exists (lit "Fields in {braces} are optional. "), [].
    unfold braced_answer. now rewrite app_nil_r.
  - repeat split; reflexivity.
Qed.

(** C6, amended: when the object the interpreter reads in a text - the
    object [json.loads] returns for the whole cleaned text or, when it
    raises [JSONDecodeError] on that, for the part from the first opening
    brace to the last closing one - has [sentiment], [score] and
    [key_phrases] but
    neither [topics] nor [emotional_tone], the record is that object with
    the two missing keys added, each with an empty list, and every key of
    the object keeps its value. *)
Theorem missing_fields_filled `{L : Limits} (raw : str) (d : dict) :
  object_found raw d ->
  dict_has (lit "sentiment") d = true ->
  dict_has (lit "score") d = true ->
  dict_has (lit "key_phrases") d = true ->
  dict_has (lit "topics") d = false ->
  dict_has (lit "emotional_tone") d = false ->
  interpret raw
    = PDict (d ++ [(lit "topics", PList []); (lit "emotional_tone", PList [])])
  /\ forall k v, dict_get k d = Some v ->
       dict_get k (d ++ [(lit "topics", PList []);
                         (lit "emotional_tone", PList [])]) = Some v.
Proof.
  intros Hfound Hs Hsc Hk Ht He. split.
  - unfold interpret, interpret_body.
    rewrite (parse_response_found raw d Hfound).
    unfold required_fields. cbn [fill_required py_in py_setitem].
    rewrite Hs, Hsc, Hk, Ht.
    rewrite (dict_set_absent _ _ _ (dict_has_get_none _ _ Ht)).
    assert (Hn : dict_has (lit "emotional_tone")
                   (d ++ [(lit "topics", _get_default_value (lit "topics"))])
                 = false).
    { unfold dict_has. rewrite dict_get_app_absent by discriminate.
      now rewrite (dict_has_get_none _ _ He). }
    rewrite Hn.
    rewrite dict_set_absent by (now apply dict_has_get_none).
    now rewrite <- app_assoc.
  - intros k v Hkv.
    change [(lit "topics", PList []); (lit "emotional_tone", PList [])]
      with ([(lit "topics", PList [])] ++ [(lit "emotional_tone", PList [])]).
    rewrite app_assoc. now apply dict_get_app_present, dict_get_app_present.
Qed.

Lemma missing_fields_filled_witness :
  object_found partial_answer partial_record
  /\ interpret partial_answer
     = PDict (partial_record
              ++ [(lit "topics", PList []); (lit "emotional_tone", PList [])]).
Proof.
  assert (H : object_found partial_answer partial_record).
  { right. repeat split; reflexivity. }
  split; [exact H|].
  exact (proj1 (missing_fields_filled partial_answer partial_record H
                  eq_refl eq_refl eq_refl eq_refl eq_refl)).
Defined.

End Interpreter.

Section NonObject.

#[local] Existing Instance sample_limits.

Lemma analyze_comment_interprets `{L : Limits} gc comment_text w resp :
  gc (length (prompts w)) (make_prompt (truncate comment_text)) = Ok resp ->
  fst (analyze_comment gc comment_text w) = Ok (interpret (response_text resp)).
Proof. intros H. unfold analyze_comment, call_model. now rewrite H. Qed.

(** C10 on the code: the array of the five field names decodes to a
    list in which every field is found, so the field check raises
    nothing and [analyze_comment] returns the list itself - no dict, no
    label [error], no error text - when the model answers with it. *)
Theorem field_names_array_returned_as_list :
  json_loads names_array = Decoded names_list
  /\ is_dict names_list = false
  /\ interpret names_array = names_list
  /\ label_of (interpret names_array) = None
  /\ error_of (interpret names_array) = None
  /\ fst (analyze_comment
            (fun _ _ => Ok {| r_text := Some names_array; r_parts := None;
                              r_str := [] |})
            (lit "nice") (fresh_world []))
     = Ok names_list.
Proof. repeat split; reflexivity. Qed.

(** What the claim expects is what the code does for every other value
    that is no object: a text that [json.loads] decodes to a value other
    than an object - and other than an array with the five field names
    among its elements or a string with the five of them inside - gives
    the record of the exception handler: label [error], score 0.0, empty
    lists and a non-empty error text; so does [analyze_comment] when the
    model answers with that text. *)
Lemma non_object_json_error `{L : Limits} (raw : str) (v : pyval) :
  json_loads raw = Decoded v ->
  is_dict v = false ->
  holds_all_fields v = false ->
  exists e, e <> []
    /\ interpret raw = error_result e
    /\ label_of (interpret raw) = Some (PStr (lit "error"))
    /\ interpret raw <> PDict _create_default_result
    /\ forall gc comment_text w resp,
         gc (length (prompts w)) (make_prompt (truncate comment_text))
           = Ok resp ->
         response_text resp = raw ->
         fst (analyze_comment gc comment_text w) = Ok (error_result e).
Proof.
  intros Hjson Hd Hall.
  destruct (clean_response_loads _ _ Hjson) as [_ Hc].
  destruct (fill_required_raises required_fields v Hd) as (e & He & Hne).
  { destruct v; try reflexivity; exact Hall. }
  { discriminate. }
  assert (Hi : interpret raw = error_result e).
  { unfold interpret, interpret_body, parse_response. now rewrite Hc, He. }
  exists e. split; [exact Hne|]. split; [exact Hi|].
  split; [now rewrite Hi|]. split; [rewrite Hi; discriminate|].
  intros gc comment_text w resp Hgc Hraw.
  now rewrite (analyze_comment_interprets _ _ _ _ Hgc), Hraw, Hi.
Qed.

Lemma non_object_json_error_witness :
  json_loads (lit " [1, 2] ") = Decoded (PList [PInt 1; PInt 2])
  /\ exists e, e <> [] /\ interpret (lit " [1, 2] ") = error_result e.
Proof.
  assert (H : json_loads (lit " [1, 2] ") = Decoded (PList [PInt 1; PInt 2]))
    by reflexivity.
  split; [exact H|].
  destruct (non_object_json_error _ _ H eq_refl eq_refl)
    as (e & He & Hi & _).
  now exists e.
Defined.

End NonObject.

(** ** The batch loop *)

Section Batch.

Context `{L : Limits}.

Variable generate_content : nat -> str -> res response.
Variable uniform : nat -> Q.
Variable batch_size : Z.
Variable rate_limit_delay : Q.
Variable max_retries : Z.

#[local] Abbreviation attempt' := (attempt generate_content uniform rate_limit_delay).
#[local] Abbreviation retry_loop' :=
  (retry_loop generate_content uniform rate_limit_delay max_retries).
#[local] Abbreviation process_comment' :=
  (process_comment generate_content uniform rate_limit_delay max_retries).
#[local] Abbreviation analyze_comments_batch' :=
  (analyze_comments_batch generate_content uniform batch_size
     rate_limit_delay max_retries).

Lemma frame_refl w : frame 0 w w.
Proof. split; [reflexivity|lia]. Qed.

Lemma frame_trans j k w1 w2 w3 :
  frame j w1 w2 -> frame k w2 w3 -> frame (j + k) w1 w3.
Proof. intros [H1 H2] [H3 H4]. split; [congruence|lia]. Qed.

Lemma frame_weaken j k w w' : (j <= k)%nat -> frame j w w' -> frame k w w'.
Proof. intros Hjk [H1 H2]. split; [exact H1|lia]. Qed.

Lemma sleep_frame secs w r w' : sleep secs w = (r, w') -> frame 0 w w'.
Proof.
  unfold sleep. destruct (Qle_bool 0 secs); intros [= <- <-];
    (split; [reflexivity|simpl; lia]).
Qed.

Lemma sleep_ok secs w :
  (0 <= secs)%Q -> exists w', sleep secs w = (Ok tt, w').
Proof.
  intros H. unfold sleep. apply Qle_bool_iff in H. rewrite H. eauto.
Qed.

Lemma analyze_comment_ok t w :
  exists r w', analyze_comment generate_content t w = (Ok r, w')
    /\ heap w' = heap w
    /\ prompts w' = prompts w ++ [make_prompt (truncate t)]
    /\ draws w' = draws w /\ sleeps w' = sleeps w
    /\ r = match generate_content (length (prompts w))
                   (make_prompt (truncate t)) with
           | Ok resp => interpret (response_text resp)
           | Raise e => error_result e
           end.
Proof.
  unfold analyze_comment, call_model.
  destruct (generate_content _ _); eexists _, _; repeat split.
Qed.

Lemma attempt_frame l rc w r w' : attempt' l rc w = (r, w') -> frame 1 w w'.
Proof.
  unfold attempt, bind, random_uniform, get_text, ret.
  set (w1 := {| heap := heap w; prompts := prompts w; draws := S (draws w);
                sleeps := sleeps w |}).
  assert (H1 : frame 0 w w1) by (split; [reflexivity|simpl; lia]).
  destruct (0 <? rc).
  - destruct (sleep _ w1) as [[[]|e] w2] eqn:Es.
    + apply sleep_frame in Es.
      destruct (text (deref l w2)) as [t|].
      * destruct (analyze_comment_ok t w2) as (r0 & w3 & -> & Hh & Hp & _).
        intros [= <- <-]. destruct H1 as [H1 H1'], Es as [H2 H2'].
        split; [congruence|]. rewrite Hp, length_app. simpl in *. lia.
      * intros [= <- <-]. apply (frame_weaken 0); [lia|].
        exact (frame_trans 0 0 _ _ _ H1 Es).
    + apply sleep_frame in Es. intros [= <- <-].
      apply (frame_weaken 0); [lia|]. exact (frame_trans 0 0 _ _ _ H1 Es).
  - destruct (text (deref l w1)) as [t|].
    + destruct (analyze_comment_ok t w1) as (r0 & w3 & -> & Hh & Hp & _).
      intros [= <- <-]. destruct H1 as [H1 H1'].
      split; [congruence|]. rewrite Hp, length_app. simpl in *. lia.
    + intros [= <- <-]. now apply (frame_weaken 0); [lia|].
Qed.

(** The loop ends without an exception, leaves the store alone and calls
    the model at most once a round. *)
Lemma retry_loop_spec fuel l rc sr w :
  0 <= rc ->
  exists rc' sr' w',
    retry_loop' fuel l rc sr w = (Ok (rc', sr'), w')
    /\ rc <= rc' /\ frame fuel w w'.
Proof.
  revert rc sr w. induction fuel as [|fuel IH]; intros rc sr w Hrc;
    cbn [retry_loop].
  { destruct (rc <? max_retries); exists rc, sr, w;
      (split; [reflexivity|split; [lia|apply frame_refl]]). }
  destruct (rc <? max_retries).
  2:{ exists rc, sr, w. split; [reflexivity|]. split; [lia|].
      apply (frame_weaken 0); [lia|apply frame_refl]. }
  destruct (attempt' l rc w) as [[r|e] w1] eqn:Ea;
    apply attempt_frame in Ea.
  { exists rc, r, w1. split; [reflexivity|]. split; [lia|].
    apply (frame_weaken 1); [lia|exact Ea]. }
  assert (Hstep : forall sr0 w2, frame 1 w w2 ->
            exists rc' sr' w',
              retry_loop' fuel l (rc + 1) sr0 w2 = (Ok (rc', sr'), w')
              /\ rc <= rc' /\ frame (S fuel) w w').
  { intros sr0 w2 Hw2.
    destruct (IH (rc + 1) sr0 w2) as (rc' & sr' & w' & -> & Hle & Hf); [lia|].
    exists rc', sr', w'. split; [reflexivity|]. split; [lia|].
    exact (frame_trans 1 fuel _ _ _ Hw2 Hf). }
  destruct (is_quota e).
  - destruct (sleep_ok (inject_Z (15 * (rc + 1))) w1) as [w2 Hs].
    { change 0%Q with (inject_Z 0). rewrite <- Zle_Qle. lia. }
    rewrite Hs. apply sleep_frame in Hs. apply Hstep.
    exact (frame_trans 1 0 _ _ _ Ea Hs).
  - destruct (max_retries <=? rc + 1); now apply Hstep.
Qed.

(** With rounds to spare the loop gives the same result: the
    [Z.to_nat max_retries] rounds that [process_comment] allows from a
    count of 0 are enough. *)
Lemma retry_loop_fuel fuel fuel' l rc sr w :
  (Z.to_nat (max_retries - rc) <= fuel)%nat ->
  (Z.to_nat (max_retries - rc) <= fuel')%nat ->
  retry_loop' fuel l rc sr w = retry_loop' fuel' l rc sr w.
Proof.
  revert fuel' rc sr w. induction fuel as [|fuel IH];
    intros fuel' rc sr w H1 H2; cbn [retry_loop].
  - destruct (rc <? max_retries) eqn:E; [apply Z.ltb_lt in E; lia|].
    destruct fuel'; cbn [retry_loop]; now rewrite E.
  - destruct fuel' as [|fuel']; cbn [retry_loop].
    + destruct (rc <? max_retries) eqn:E; [apply Z.ltb_lt in E; lia|].
      reflexivity.
    + destruct (rc <? max_retries) eqn:E; [|reflexivity].
      apply Z.ltb_lt in E.
      destruct (attempt' l rc w) as [[r|e] w1]; [reflexivity|].
      destruct (is_quota e).
      * destruct (sleep _ w1) as [[[]|e'] w2]; [|reflexivity].
        apply IH; lia.
      * destruct (max_retries <=? rc + 1); apply IH; lia.
Qed.

(** One comment: it goes through untouched when it has a record, and gets
    a copy with a record otherwise; nothing raises when the delay is not
    negative. *)
Lemma process_comment_spec l results w :
  (0 <= rate_limit_delay)%Q ->
  exists l' w',
    process_comment' l results w = (Ok (results ++ [l']), w')
    /\ (length (prompts w) <= length (prompts w')
        <= length (prompts w)
           + (if has_sentiment (deref l w) then 0 else Z.to_nat max_retries))%nat
    /\ if has_sentiment (deref l w) then l' = l /\ w' = w
       else l' = length (heap w)
            /\ exists r,
                 heap w' = heap w
                   ++ [ {| text := text (deref l w);
                           sentiment_analysis := Some r;
                           fields := fields (deref l w) |} ].
Proof.
  intros Hd. unfold process_comment.
  destruct (has_sentiment (deref l w)).
  { exists l, w. split; [reflexivity|]. split; [lia|now split]. }
  destruct (retry_loop_spec (Z.to_nat max_retries) l 0 PNone w)
    as (rc & sr & w1 & -> & _ & Hh & Hp); [lia|].
  cbv zeta. unfold alloc. cbn [heap prompts draws sleeps].
  set (r := match sr with
            | PNone => with_error _create_default_result
                         (lit "Max retries exceeded")
            | _ => sr
            end).
  set (c := {| text := text (deref l w); sentiment_analysis := Some r;
               fields := fields (deref l w) |}).
  set (w2 := {| heap := heap w1 ++ [c]; prompts := prompts w1;
                draws := draws w1; sleeps := sleeps w1 |}).
  destruct (rc =? 0).
  - destruct (sleep_ok rate_limit_delay w2 Hd) as [w3 Hs]. rewrite Hs.
    apply sleep_frame in Hs. destruct Hs as [Hh3 Hp3].
    exists (length (heap w1)), w3. rewrite Hh. split; [reflexivity|].
    split; [simpl in *; lia|]. split; [reflexivity|].
    exists r. rewrite Hh3. simpl. now rewrite Hh.
  - exists (length (heap w1)), w2. rewrite Hh. split; [reflexivity|].
    split; [simpl; lia|]. split; [reflexivity|].
    exists r. simpl. now rewrite Hh.
Qed.

Lemma for_each_app {A B} (f : A -> B -> M B) l1 l2 acc w :
  for_each f (l1 ++ l2) acc w
  = match for_each f l1 acc w with
    | (Ok acc', w') => for_each f l2 acc' w'
    | (Raise e, w') => (Raise e, w')
    end.
Proof.
  revert acc w. induction l1 as [|x l1 IH]; intros acc w; [reflexivity|].
  simpl. unfold bind. destruct (f x acc w) as [[acc'|e] w']; [|reflexivity].
  apply IH.
Qed.

(** A loop over groups is a loop over their members in a row. *)
Lemma for_each_concat {A B C} (f : A -> B -> M B) (g : C -> list A) gs acc w :
  for_each (fun i results => for_each f (g i) results) gs acc w
  = for_each f (concat (map g gs)) acc w.
Proof.
  revert acc w. induction gs as [|i gs IH]; intros acc w; [reflexivity|].
  simpl. rewrite for_each_app. unfold bind.
  destruct (for_each f (g i) acc w) as [[acc'|e] w']; [|reflexivity].
  apply IH.
Qed.

Lemma chunks_take {A} (b : nat) (l : list A) k :
  concat (map (fun j => take b (drop (j * b) l)) (seq 0 k)) = take (k * b) l.
Proof.
  induction k as [|k IH]; [reflexivity|].
  rewrite seq_S, map_app, concat_app, IH. simpl.
  rewrite app_nil_r, take_take_drop. f_equal. lia.
Qed.

(** The batches of a positive size, one after the other, are the list. *)
Lemma batches_cover (comments : list nat) starts :
  0 < batch_size ->
  py_range (Z.of_nat (length comments)) batch_size = Ok starts ->
  concat (map (batch_at batch_size comments) starts) = comments.
Proof.
  intros Hb. unfold py_range.
  destruct (Z.eqb_spec batch_size 0) as [|_]; [lia|].
  destruct (Z.ltb_spec batch_size 0) as [|_]; [lia|].
  intros [= <-]. rewrite map_map.
  set (k := Z.to_nat ((Z.of_nat (length comments) + batch_size - 1)
                      / batch_size)).
  rewrite (map_ext _ (fun j => take (Z.to_nat batch_size)
                                 (drop (j * Z.to_nat batch_size) comments))).
  2:{ intros j. unfold batch_at. do 2 f_equal. lia. }
  rewrite chunks_take. apply take_ge.
  pose proof (Z.div_mod (Z.of_nat (length comments) + batch_size - 1)
                batch_size ltac:(lia)) as Hdm.
  pose proof (Z.mod_pos_bound (Z.of_nat (length comments) + batch_size - 1)
                batch_size Hb) as Hmod.
  assert (0 <= (Z.of_nat (length comments) + batch_size - 1) / batch_size)
    by (apply Z.div_pos; lia).
  unfold k. nia.
Qed.

Lemma analyze_comments_batch_flat comments w :
  0 < batch_size ->
  analyze_comments_batch' comments w
  = for_each process_comment' comments [] w.
Proof.
  intros Hb. unfold analyze_comments_batch, bind, lift.
  destruct (py_range (Z.of_nat (length comments)) batch_size)
    as [starts|e] eqn:E.
  - rewrite for_each_concat. now rewrite (batches_cover _ _ Hb E).
  - unfold py_range in E.
    destruct (Z.eqb_spec batch_size 0) as [|_]; [lia|].
    now destruct (batch_size <? 0).
Qed.

Lemma deref_prefix l w0 w :
  (l < length (heap w0))%nat -> heap w0 `prefix_of` heap w ->
  deref l w = deref l w0.
Proof.
  intros Hl Hp. unfold deref. now rewrite (prefix_lookup_lt _ _ _ Hl Hp).
Qed.

(** The whole list, from any state that extends the initial store. *)
Lemma process_all comments :
  (0 <= rate_limit_delay)%Q ->
  forall results w0 w,
  Forall (fun l => (l < length (heap w0))%nat) comments ->
  heap w0 `prefix_of` heap w ->
  exists results' w',
    for_each process_comment' comments results w = (Ok (results ++ results'), w')
    /\ heap w `prefix_of` heap w'
    /\ Forall2 (answers w0 w') comments results'
    /\ (length (prompts w) <= length (prompts w')
        <= length (prompts w) + Z.to_nat max_retries * pending w0 comments)%nat
    /\ (pending w0 comments = 0%nat -> w' = w).
Proof.
  intros Hd. induction comments as [|l comments IH];
    intros results w0 w Hv Hp.
  { exists [], w. rewrite app_nil_r.
    split; [reflexivity|]. split; [reflexivity|]. split; [constructor|].
    split; [lia|reflexivity]. }
  inversion Hv as [|? ? Hl Hv']; subst.
  destruct (process_comment_spec l results w Hd)
    as (l' & w1 & Hpc & Hcalls & Hcase).
  rewrite (deref_prefix _ _ _ Hl Hp) in Hcalls, Hcase.
  assert (Hp1 : heap w `prefix_of` heap w1).
  { destruct (has_sentiment (deref l w0)).
    - destruct Hcase as [_ ->]. reflexivity.
    - destruct Hcase as [_ [r ->]]. now apply prefix_app_r. }
  destruct (IH (results ++ [l']) w0 w1 Hv')
    as (results' & w' & Hfe & Hp' & Hans & Hcalls' & Hsame).
  { now transitivity (heap w). }
  exists (l' :: results'), w'.
  cbn [for_each]. unfold bind. rewrite Hpc, Hfe.
  split. { now rewrite <- app_assoc. }
  split. { now transitivity (heap w1). }
  unfold pending in *.
  split; [|split].
  - constructor; [|exact Hans]. unfold answers.
    destruct (has_sentiment (deref l w0)); [now destruct Hcase|].
    destruct Hcase as [-> [r Hh]]. split.
    + destruct Hp as [k ->]. rewrite length_app. lia.
    + exists r. apply (prefix_lookup_Some (heap w1)); [|exact Hp'].
      rewrite Hh. now apply list_lookup_middle.
  - destruct (has_sentiment (deref l w0)) eqn:E.
    + rewrite filter_cons_False by congruence. lia.
    + rewrite filter_cons_True by exact E. simpl. lia.
  - destruct (has_sentiment (deref l w0)) eqn:E.
    + rewrite filter_cons_False by congruence. intros H0.
      destruct Hcase as [_ ->]. now apply Hsame.
    + rewrite filter_cons_True by exact E. discriminate.
Qed.

(** The first attempt on a comment that has a text: one draw, one call
    of the model, and the record [analyze_comment] makes of the answer
    or of the failure; then the copy and the wait between comments. *)
Lemma process_comment_first_attempt l results w t :
  has_sentiment (deref l w) = false ->
  text (deref l w) = Some t ->
  0 < max_retries ->
  (0 <= rate_limit_delay)%Q ->
  process_comment' l results w
  = (Ok (results ++ [length (heap w)]),
     {| heap := heap w
          ++ [ {| text := Some t;
                  sentiment_analysis :=
                    Some match generate_content (length (prompts w))
                                 (make_prompt (truncate t)) with
                         | Ok resp => interpret (response_text resp)
                         | Raise e => error_result e
                         end;
                  fields := fields (deref l w) |} ];
        prompts := prompts w ++ [make_prompt (truncate t)];
        draws := S (draws w);
        sleeps := sleeps w ++ [rate_limit_delay] |}).
Proof.
  intros Hs Ht Hm Hd. unfold process_comment. rewrite Hs.
  destruct (Z.to_nat max_retries) as [|fuel] eqn:Ef; [lia|].
  cbn [retry_loop]. destruct (Z.ltb_spec 0 max_retries) as [_|]; [|lia].
  unfold attempt, bind, random_uniform, get_text, ret.
  change (0 <? 0) with false. cbv iota.
  unfold deref at 1. cbn [heap]. fold (deref l w). rewrite Ht.
  unfold analyze_comment, call_model. cbn [heap prompts draws sleeps].
  apply Qle_bool_iff in Hd.
  destruct (generate_content _ _) as [resp|e].
  - pose proof (interpret_not_none (response_text resp)) as Hn.
    destruct (interpret (response_text resp)); [congruence|..];
      cbv zeta; unfold alloc, sleep; cbn [heap prompts draws sleeps];
      rewrite Hd; reflexivity.
  - cbv zeta. unfold alloc, sleep. cbn [heap prompts draws sleeps].
    rewrite Hd. reflexivity.
Qed.

Lemma backoff_delay_nonneg jitter rc :
  (0 <= rate_limit_delay)%Q -> (0 <= jitter)%Q -> 0 <= rc ->
  (0 <= backoff_delay rate_limit_delay jitter rc)%Q.
Proof.
  intros Hd Hj Hrc. unfold backoff_delay.
  apply Qmult_le_0_compat; [now apply Qmult_le_0_compat|].
  change 0%Q with (inject_Z 0). rewrite <- Zle_Qle.
  now apply Z.pow_nonneg.
Qed.

(** An attempt on a comment without the key [text] raises [KeyError]
    before the model is called. *)
Lemma attempt_missing_text l rc w :
  text (deref l w) = None ->
  (0 <= rate_limit_delay)%Q -> (0 <= uniform (draws w))%Q -> 0 <= rc ->
  exists w1,
    attempt' l rc w = (Raise (lit "'text'"), w1)
    /\ heap w1 = heap w /\ prompts w1 = prompts w
    /\ draws w1 = S (draws w).
Proof.
  intros Ht Hd Hj Hrc. unfold attempt, bind, random_uniform, get_text, ret.
  destruct (0 <? rc).
  - pose proof (backoff_delay_nonneg _ _ Hd Hj Hrc) as Hb.
    unfold sleep. apply Qle_bool_iff in Hb. cbn [draws]. rewrite Hb.
    unfold deref. cbn [heap]. fold (deref l w). rewrite Ht.
    eexists. split; [reflexivity|]. now repeat split.
  - unfold deref. cbn [heap]. fold (deref l w). rewrite Ht.
    eexists. split; [reflexivity|]. now repeat split.
Qed.

(** When an exception does reach the loop - here the [KeyError] of a
    comment without [text] - it makes [max_retries] attempts, calls the
    model in none of them, and ends with the default record and the last
    message. *)
Lemma retry_loop_exhausted l w :
  text (deref l w) = None ->
  (0 <= rate_limit_delay)%Q -> (forall n, (0 <= uniform n)%Q) ->
  0 < max_retries ->
  exists w',
    retry_loop' (Z.to_nat max_retries) l 0 PNone w
    = (Ok (max_retries, with_error _create_default_result (lit "'text'")), w')
    /\ heap w' = heap w /\ prompts w' = prompts w
    /\ draws w' = (draws w + Z.to_nat max_retries)%nat.
Proof.
  intros Ht Hd Hj Hm.
  assert (Hgen : forall k rc sr w0,
            text (deref l w0) = None -> 0 <= rc ->
            rc + Z.of_nat (S k) = max_retries ->
            exists w',
              retry_loop' (S k) l rc sr w0
              = (Ok (max_retries,
                     with_error _create_default_result (lit "'text'")), w')
              /\ heap w' = heap w0 /\ prompts w' = prompts w0
              /\ draws w' = (draws w0 + S k)%nat).
  { induction k as [|k IH]; intros rc sr w0 Ht0 Hrc Hk; cbn [retry_loop].
    - destruct (Z.ltb_spec rc max_retries) as [_|]; [|lia].
      destruct (attempt_missing_text l rc w0 Ht0 Hd (Hj _) Hrc)
        as (w1 & -> & Hh & Hp & Hdr).
      change (is_quota (lit "'text'")) with false. cbv iota.
      destruct (Z.leb_spec max_retries (rc + 1)) as [_|]; [|lia].
      destruct (Z.ltb_spec (rc + 1) max_retries) as [|_]; [lia|].
      exists w1. replace (rc + 1) with max_retries by lia.
      split; [reflexivity|]. repeat split; try assumption. lia.
    - destruct (Z.ltb_spec rc max_retries) as [_|]; [|lia].
      destruct (attempt_missing_text l rc w0 Ht0 Hd (Hj _) Hrc)
        as (w1 & -> & Hh & Hp & Hdr).
      change (is_quota (lit "'text'")) with false. cbv iota.
      destruct (Z.leb_spec max_retries (rc + 1)) as [|_]; [lia|].
      destruct (IH (rc + 1) sr w1) as (w' & Hl & Hh' & Hp' & Hd'); [|lia|lia|].
      { unfold deref. now rewrite Hh. }
      exists w'. split; [exact Hl|]. repeat split; try congruence. lia. }
  destruct (Z.to_nat max_retries) as [|k] eqn:Ek; [lia|].
  destruct (Hgen k 0 PNone w Ht) as (w' & H & Hrest); [lia|lia|].
  now exists w'.
Qed.

End Batch.

(** ** The batch as a whole *)

Section BatchClaims.

#[local] Existing Instance sample_limits.

(** C7: with a positive batch size and a delay that is not negative, the
    batch returns one reference for each input reference, in the same
    order - the input object itself when it came with a record, a new
    copy with a record otherwise; on the empty list it returns the empty
    list and leaves the state as it was, so the model is not called. *)
Theorem batch_preserves_length_and_order `{L : Limits}
    (generate_content : nat -> str -> res response) (uniform : nat -> Q)
    (batch_size : Z) (rate_limit_delay : Q) (max_retries : Z)
    (comments : list nat) (w : world) :
  0 < batch_size ->
  (0 <= rate_limit_delay)%Q ->
  Forall (fun l => (l < length (heap w))%nat) comments ->
  exists results w',
    analyze_comments_batch generate_content uniform batch_size
      rate_limit_delay max_retries comments w = (Ok results, w')
    /\ length results = length comments
    /\ Forall2 (answers w w') comments results
    /\ (comments = [] -> results = [] /\ w' = w).
Proof.
  intros Hb Hd Hv.
  destruct (process_all generate_content uniform rate_limit_delay max_retries
              comments Hd [] w w Hv (reflexivity _))
    as (results & w' & Hfe & _ & Hans & _ & Hsame).
  exists results, w'. rewrite analyze_comments_batch_flat by exact Hb.
  split; [exact Hfe|]. split; [symmetry; exact (Forall2_length _ _ _ Hans)|].
  split; [exact Hans|]. intros ->. split.
  - now inversion Hans.
  - now apply Hsame.
Qed.

Lemma batch_preserves_length_and_order_witness :
  let w := fresh_world [plain_comment "nice"; labelled_comment "neutral";
                        plain_comment "awful"] in
  exists results w',
    analyze_comments_batch steady_model no_jitter 2 2 3 [0; 1; 2]%nat w
      = (Ok results, w')
    /\ length results = 3%nat
    /\ Forall2 (answers w w') [0; 1; 2]%nat results.
Proof.
  intros w.
  destruct (batch_preserves_length_and_order steady_model no_jitter 2 2 3
              [0; 1; 2]%nat w)
    as (results & w' & H & Hlen & Hans & _).
  - reflexivity.
  - discriminate.
  - repeat constructor.
  - now exists results, w'.
Defined.

(** C8: a comment that comes with a record goes through the loop body
    with no effect at all, and in a batch it is returned at its own
    place as the same object; no object of the input store is changed;
    and the model is called at most [max_retries] times for each comment
    that came without a record, never for the others. *)
Theorem annotated_pass_through_inputs_intact `{L : Limits}
    (generate_content : nat -> str -> res response) (uniform : nat -> Q)
    (batch_size : Z) (rate_limit_delay : Q) (max_retries : Z)
    (comments : list nat) (w : world) :
  0 < batch_size ->
  (0 <= rate_limit_delay)%Q ->
  Forall (fun l => (l < length (heap w))%nat) comments ->
  (forall l results0 w0,
      has_sentiment (deref l w0) = true ->
      process_comment generate_content uniform rate_limit_delay max_retries
        l results0 w0 = (Ok (results0 ++ [l]), w0))
  /\ exists results w',
       analyze_comments_batch generate_content uniform batch_size
         rate_limit_delay max_retries comments w = (Ok results, w')
       /\ (forall i l, comments !! i = Some l ->
             has_sentiment (deref l w) = true ->
             results !! i = Some l /\ deref l w' = deref l w)
       /\ (forall l c, heap w !! l = Some c -> heap w' !! l = Some c)
       /\ 0 <= calls_between w w'
            <= Z.max 0 max_retries * Z.of_nat (pending w comments).
Proof.
  intros Hb Hd Hv. split.
  { intros l results0 w0 H. unfold process_comment. now rewrite H. }
  destruct (process_all generate_content uniform rate_limit_delay max_retries
              comments Hd [] w w Hv (reflexivity _))
    as (results & w' & Hfe & Hp & Hans & Hcalls & _).
  exists results, w'. rewrite analyze_comments_batch_flat by exact Hb.
  split; [exact Hfe|]. split; [|split].
  - intros i l Hi Hs.
    destruct (Forall2_lookup_l _ _ _ _ _ Hans Hi) as (l' & Hl' & Ha).
    unfold answers in Ha. rewrite Hs in Ha. subst l'.
    split; [exact Hl'|]. apply deref_prefix; [|exact Hp].
    rewrite Forall_forall in Hv. apply Hv.
    now apply list_elem_of_lookup_2 in Hi.
  - intros l c Hl. exact (prefix_lookup_Some _ _ _ _ Hl Hp).
  - unfold calls_between.
    assert (Hm : Z.of_nat (Z.to_nat max_retries) = Z.max 0 max_retries) by lia.
    rewrite <- Hm, <- Nat2Z.inj_mul. lia.
Qed.

Lemma annotated_pass_through_inputs_intact_witness :
  let w := fresh_world [labelled_comment "positive"; plain_comment "meh"] in
  exists results w',
    analyze_comments_batch failing_model no_jitter 10 2 3 [0; 1]%nat w
      = (Ok results, w')
    /\ results !! 0%nat = Some 0%nat
    /\ heap w' !! 0%nat = Some (labelled_comment "positive")
    /\ heap w' !! 1%nat = Some (plain_comment "meh")
    /\ calls_between w w' <= 3.
Proof.
  intros w.
  destruct (annotated_pass_through_inputs_intact failing_model no_jitter
              10 2 3 [0; 1]%nat w)
    as (_ & results & w' & H & Hpass & Hheap & Hcalls).
  - reflexivity.
  - discriminate.
  - repeat constructor.
  - exists results, w'. split; [exact H|].
    split; [exact (proj1 (Hpass 0%nat 0%nat eq_refl eq_refl))|].
    split; [exact (Hheap 0%nat _ eq_refl)|].
    split; [exact (Hheap 1%nat _ eq_refl)|].
    exact (proj2 Hcalls).
Defined.

(** With a model that raises on every call, every comment that has a
    text and no record costs one call, whatever [max_retries] is, and
    gets the record of the handler of [analyze_comment]. *)
Lemma raising_model_one_call_each `{L : Limits}
    (generate_content : nat -> str -> res response) (uniform : nat -> Q)
    (batch_size : Z) (rate_limit_delay : Q) (max_retries : Z)
    (comments : list nat) (w : world) :
  0 < batch_size ->
  0 < max_retries ->
  (0 <= rate_limit_delay)%Q ->
  (forall n prompt, exists e, generate_content n prompt = Raise e) ->
  Forall (fun l => (l < length (heap w))%nat
                   /\ has_sentiment (deref l w) = false
                   /\ text (deref l w) <> None) comments ->
  exists results w',
    analyze_comments_batch generate_content uniform batch_size
      rate_limit_delay max_retries comments w = (Ok results, w')
    /\ calls_between w w' = Z.of_nat (length comments)
    /\ Forall (fun l' => exists e, record_at w' l' = Some (error_result e))
         results.
Proof.
  intros Hb Hm Hd Hgc Hv.
  rewrite analyze_comments_batch_flat by exact Hb.
  assert (Hgen : forall results w1,
            heap w `prefix_of` heap w1 ->
            exists results' w',
              for_each (process_comment generate_content uniform
                          rate_limit_delay max_retries) comments results w1
              = (Ok (results ++ results'), w')
              /\ heap w1 `prefix_of` heap w'
              /\ length (prompts w')
                 = (length (prompts w1) + length comments)%nat
              /\ Forall (fun l' => exists e,
                           record_at w' l' = Some (error_result e)) results').
  { induction Hv as [|l comments (Hl & Hs & Ht) _ IH]; intros results w1 Hp.
    { exists [], w1. rewrite app_nil_r. repeat split; try reflexivity.
      - simpl. lia.
      - constructor. }
    destruct (text (deref l w)) as [t|] eqn:Et; [|congruence].
    rewrite <- (deref_prefix l w w1 Hl Hp) in Hs, Et.
    cbn [for_each]. unfold bind.
    rewrite (process_comment_first_attempt _ _ _ _ _ _ _ _ Hs Et Hm Hd).
    destruct (Hgc (length (prompts w1)) (make_prompt (truncate t)))
      as [e He]. rewrite He.
    match goal with
    | |- context [for_each _ _ _ ?w2] =>
        destruct (IH (results ++ [length (heap w1)]) w2)
          as (results' & w' & Hfe & Hp' & Hlen & Hrec)
    end.
    { cbn [heap]. transitivity (heap w1); [exact Hp|now apply prefix_app_r]. }
    rewrite Hfe. exists (length (heap w1) :: results'), w'.
    split; [now rewrite <- app_assoc|]. cbn [heap prompts] in *.
    split; [transitivity (heap w1 ++ [ {| text := Some t;
                sentiment_analysis := Some (error_result e);
                fields := fields (deref l w1) |} ]);
            [now apply prefix_app_r|exact Hp']|].
    split; [rewrite Hlen, length_app; simpl; lia|].
    constructor; [|exact Hrec].
    exists e. unfold record_at, deref.
    rewrite (prefix_lookup_Some _ _ _ _
               (list_lookup_middle (heap w1) [] _ _ eq_refl) Hp').
    reflexivity. }
  destruct (Hgen [] w (reflexivity _)) as (results & w' & H & _ & Hlen & Hrec).
  exists results, w'. split; [exact H|]. split; [|exact Hrec].
  unfold calls_between. lia.
Qed.

(** C1 on the code: with a model that fails on every call and is not
    short of quota, [analyze_comment] turns each failure into a record
    of its own, so the loop of the batch sees no exception: one attempt
    (one draw of the jitter, one call) for each comment, not
    [max_retries = 3], and records labelled [error], not [unknown]. *)
Theorem failing_model_one_call_error_label :
  let w := fresh_world [plain_comment "first"; plain_comment "second"] in
  is_quota (lit "503 service unavailable") = false
  /\ exists w',
       analyze_comments_batch failing_model no_jitter 10 2 3 [0; 1]%nat w
         = (Ok [2; 3]%nat, w')
       /\ calls_between w w' = 2
       /\ draws w' = 2%nat
       /\ record_at w' 2 = Some (error_result (lit "503 service unavailable"))
       /\ record_at w' 3 = Some (error_result (lit "503 service unavailable"))
       /\ label_of (error_result (lit "503 service unavailable"))
          = Some (PStr (lit "error")).
Proof.
  intros w. split; [reflexivity|].
  eexists. split; [vm_compute; reflexivity|]. now repeat split.
Qed.

End BatchClaims.

(** ** The backoff delay *)

Section Backoff.

#[local] Existing Instance sample_limits.

(** C9: at the second retry with a base delay of 2.0, the wait is the
    base delay times the jitter times 2 to the power 2; for a jitter in
    [0.5, 1.5) it lies between 4 and 12 seconds, and it is the wait the
    attempt makes before it does anything else. *)
Theorem backoff_delay_second_retry `{L : Limits} (jitter : Q) :
  (1 # 2 <= jitter)%Q ->
  (jitter < 3 # 2)%Q ->
  (backoff_delay 2 jitter 2 == 2 * jitter * inject_Z (2 ^ 2))%Q
  /\ (4 <= backoff_delay 2 jitter 2)%Q
  /\ (backoff_delay 2 jitter 2 <= 12)%Q
  /\ forall generate_content uniform l w,
       uniform (draws w) = jitter ->
       sleeps (snd (attempt generate_content uniform 2 l 2 w))
       = sleeps w ++ [backoff_delay 2 jitter 2].
Proof.
  intros Hlo Hhi.
  assert (Hb : (backoff_delay 2 jitter 2 == 8 * jitter)%Q).
  { unfold backoff_delay. change (inject_Z (2 ^ 2)) with 4%Q. ring. }
  split; [|split; [|split]].
  - rewrite Hb. change (inject_Z (2 ^ 2)) with 4%Q. ring.
  - rewrite Hb. lra.
  - rewrite Hb. lra.
  - intros generate_content uniform l w Hu.
    unfold attempt, bind, random_uniform, sleep, get_text.
    cbn [draws heap prompts sleeps]. rewrite Hu.
    change (0 <? 2) with true. cbv iota.
    assert (Hpos : Qle_bool 0 (backoff_delay 2 jitter 2) = true).
    { apply Qle_bool_iff. rewrite Hb. lra. }
    rewrite Hpos.
    match goal with
    | |- context [text (deref l ?w1)] =>
        destruct (text (deref l w1)) as [t|]; [|reflexivity];
        destruct (analyze_comment_ok generate_content t w1)
          as (r & w2 & He & _ & _ & _ & Hs & _);
        rewrite He; cbn [snd]; rewrite Hs
    end.
    reflexivity.
Qed.

Lemma backoff_delay_second_retry_witness :
  (1 # 2 <= 1)%Q /\ (1 < 3 # 2)%Q
  /\ (4 <= backoff_delay 2 1 2)%Q /\ (backoff_delay 2 1 2 <= 12)%Q.
Proof.
  assert (H1 : (1 # 2 <= 1)%Q) by discriminate.
  assert (H2 : (1 < 3 # 2)%Q) by reflexivity.
  destruct (backoff_delay_second_retry 1 H1 H2) as (_ & Hlo & Hhi & _).
  now repeat split.
Defined.

End Backoff.

(** ** The summary *)

Section Summary.

#[local] Existing Instance sample_limits.

Lemma collect_sentiments_labels cs :
  Forall record_ok cs -> collect_sentiments cs = Ok (labels_of cs).
Proof.
  induction 1 as [|c cs Hc _ IH]; [reflexivity|].
  cbn [collect_sentiments labels_of].
  unfold record_ok in Hc.
  destruct (sentiment_analysis c) as [v|]; [|exact IH].
  destruct v; try discriminate.
  cbn [py_in py_getitem label_of]. unfold dict_has.
  destruct (dict_get (lit "sentiment") d) as [x|]; [|exact IH].
  now rewrite IH.
Qed.

Lemma labelled_label label c :
  labelled label c
  = match sentiment_analysis c with
    | Some v => match label_of v with
                | Some x => is_str label x
                | None => false
                end
    | None => false
    end.
Proof.
  unfold labelled. destruct (sentiment_analysis c) as [v|]; [|reflexivity].
  now destruct v.
Qed.

Lemma count_label_labels label cs :
  count_label label (labels_of cs) = count_if (labelled label) cs.
Proof.
  unfold count_label, count_if. f_equal.
  induction cs as [|c cs IH]; [reflexivity|].
  cbn [labels_of]. rewrite (filter_cons _ c cs), labelled_label.
  destruct (sentiment_analysis c) as [v|].
  2:{ now rewrite decide_False by discriminate. }
  destruct (label_of v) as [x|].
  2:{ now rewrite decide_False by discriminate. }
  rewrite filter_cons. destruct (decide (is_str label x = true)).
  - simpl. now rewrite IH.
  - exact IH.
Qed.

Lemma unlabelled_label c :
  record_ok c ->
  unlabelled c
  = match sentiment_analysis c with
    | Some v => match label_of v with Some _ => false | None => true end
    | None => true
    end.
Proof.
  unfold unlabelled, record_ok.
  destruct (sentiment_analysis c) as [v|]; [|reflexivity].
  destruct v; try discriminate. intros _. cbn [label_of]. unfold dict_has.
  now destruct (dict_get (lit "sentiment") d).
Qed.

Lemma labels_unlabelled cs :
  Forall record_ok cs ->
  Z.of_nat (length cs) - Z.of_nat (length (labels_of cs))
  = count_if unlabelled cs.
Proof.
  unfold count_if.
  induction 1 as [|c cs Hc _ IH]; [reflexivity|].
  cbn [labels_of]. rewrite filter_cons, (unlabelled_label c Hc).
  destruct (sentiment_analysis c) as [v|].
  2:{ rewrite decide_True by reflexivity. simpl length. lia. }
  destruct (label_of v) as [x|].
  - rewrite decide_False by discriminate. simpl length. lia.
  - rewrite decide_True by reflexivity. simpl length. lia.
Qed.

(** With four counts, the key that [max] gives is the first of the
    largest. *)
Lemma max_key_four a b c d :
  let cnt := [ (lit "positive", a); (lit "negative", b);
               (lit "neutral", c); (lit "unknown", d) ] in
  first_max (count_of cnt) label_names (max_key cnt).
Proof.
  intros cnt.
  assert (Ha : count_of cnt (lit "positive") = a) by reflexivity.
  assert (Hb : count_of cnt (lit "negative") = b) by reflexivity.
  assert (Hc : count_of cnt (lit "neutral") = c) by reflexivity.
  assert (Hd : count_of cnt (lit "unknown") = d) by reflexivity.
  unfold max_key. change (map fst cnt) with label_names.
  unfold label_names. cbn [max_from]. rewrite Ha, Hb.
  assert (Hall : forall i k,
            label_names !! i = Some k ->
            (forall j k', label_names !! j = Some k' ->
               count_of cnt k' <= count_of cnt k) ->
            (forall j k', label_names !! j = Some k' -> (j < i)%nat ->
               count_of cnt k' < count_of cnt k) ->
            first_max (count_of cnt) label_names k).
  { intros i k H1 H2 H3. now exists i. }
  destruct (Z.ltb_spec a b); rewrite ?Hb, ?Ha, ?Hc;
    [destruct (Z.ltb_spec b c)|destruct (Z.ltb_spec a c)];
    rewrite ?Hb, ?Ha, ?Hc, ?Hd;
    [destruct (Z.ltb_spec c d)|destruct (Z.ltb_spec b d)
    |destruct (Z.ltb_spec c d)|destruct (Z.ltb_spec a d)];
    (first [apply (Hall 0%nat); [reflexivity|..]
           | apply (Hall 1%nat); [reflexivity|..]
           | apply (Hall 2%nat); [reflexivity|..]
           | apply (Hall 3%nat); [reflexivity|..]];
     [intros j k' Hj|intros j k' Hj Hlt]);
    destruct j as [|[|[|[|j]]]]; try discriminate;
    injection Hj as <-; rewrite ?Ha, ?Hb, ?Hc, ?Hd; lia.
Qed.

(** C3, as stated, fails on the count of [unknown]: a record labelled
    [unknown] is not counted there. *)
Lemma summary_unknown_counterexample :
  exists s,
    sentiment_summary_of [labelled_comment "unknown"] = Ok s
    /\ count_if (labelled (lit "unknown")) [labelled_comment "unknown"] = 1
    /\ count_of (counts s) (lit "unknown") = 0.
Proof. eexists. repeat split. Qed.

(** C3, amended: for comments whose record, when there is one, is a
    dict, the summary has the number of comments as its total, the
    numbers of records labelled [positive], [negative] and [neutral]
    under those keys, under [unknown] the number of comments that carry
    no label at all, and as overall sentiment the first of the four
    keys, in that order, that has the largest count - [positive] for
    the counts 3, 1, 1 and 0.  [analyze_video_comments] returns that
    summary of the batch's output. *)
Theorem summary_counts_and_overall `{L : Limits} (cs : list comment) :
  Forall record_ok cs ->
  exists s,
    sentiment_summary_of cs = Ok s
    /\ total_comments s = Z.of_nat (length cs)
    /\ counts s
       = [ (lit "positive", count_if (labelled (lit "positive")) cs);
           (lit "negative", count_if (labelled (lit "negative")) cs);
           (lit "neutral", count_if (labelled (lit "neutral")) cs);
           (lit "unknown", count_if unlabelled cs) ]
    /\ first_max (count_of (counts s)) label_names (overall_sentiment s)
    /\ (count_if (labelled (lit "positive")) cs = 3 ->
        count_if (labelled (lit "negative")) cs = 1 ->
        count_if (labelled (lit "neutral")) cs = 1 ->
        count_if unlabelled cs = 0 ->
        overall_sentiment s = lit "positive")
    /\ forall generate_content uniform vc w r w',
         analyze_video_comments generate_content uniform vc w = (Ok r, w') ->
         sentiment_summary_of (map (fun l => deref l w') (result_comments r))
         = Ok (sentiment_summary r).
Proof.
  intros Hok. unfold sentiment_summary_of.
  rewrite (collect_sentiments_labels cs Hok).
  rewrite !count_label_labels, (labels_unlabelled cs Hok).
  eexists. split; [reflexivity|]. cbn [total_comments counts overall_sentiment].
  split; [reflexivity|]. split; [reflexivity|].
  split; [apply max_key_four|]. split.
  - intros -> -> -> ->. reflexivity.
  - intros generate_content uniform vc w r w'.
    unfold analyze_video_comments, bind.
    destruct (analyze_comments_batch _ _ _ _ _ _ w) as [[rs|e] w1];
      [|discriminate].
    destruct (collect_sentiments (map (fun l => deref l w1) rs)) eqn:E.
    + unfold sentiment_summary_of at 1. rewrite E.
      intros [= <- <-]. cbn [result_comments sentiment_summary].
      unfold sentiment_summary_of. now rewrite E.
    + unfold sentiment_summary_of at 1. rewrite E. discriminate.
Qed.

Lemma summary_counts_and_overall_witness :
  let cs := [ labelled_comment "positive"; labelled_comment "negative";
              labelled_comment "positive"; labelled_comment "neutral";
              labelled_comment "positive" ] in
  Forall record_ok cs
  /\ exists s,
       sentiment_summary_of cs = Ok s
       /\ total_comments s = 5
       /\ overall_sentiment s = lit "positive".
Proof.
  intros cs.
  assert (H : Forall record_ok cs) by (repeat constructor).
  split; [exact H|].
  destruct (summary_counts_and_overall cs H)
    as (s & Hs & Ht & _ & _ & Hpos & _).
  exists s. split; [exact Hs|]. split; [exact Ht|].
  now apply Hpos.
Defined.

End Summary.

(** * Further properties of the analyzer *)

Import MoreProps.

Section Truncation.

(** X1: the text put into the prompt has at most 1000 characters; its first
    997 are those of the comment; and a text that was cut once is not cut
    again. *)
Theorem truncate_bounds (comment_text : str) :
  length (truncate comment_text) = Nat.min (length comment_text) 1000
  /\ take 997 (truncate comment_text) = take 997 comment_text
  /\ truncate (truncate comment_text) = truncate comment_text.
Proof.
  destruct (Nat.ltb_spec 1000 (length comment_text)) as [Hlong|Hshort].
  - assert (Ht : truncate comment_text = take 997 comment_text ++ lit "...").
    { unfold truncate. destruct (Nat.ltb_spec 1000 (length comment_text)); [reflexivity|lia]. }
    assert (Hlen : length (take 997 comment_text ++ lit "...") = 1000%nat).
    { rewrite length_app, length_take.
      change (length (lit "...")) with 3%nat. lia. }
    rewrite !Ht. split; [lia|]. split.
    + rewrite take_app_le by (rewrite length_take; lia).
      now rewrite take_take, Nat.min_id.
    + unfold truncate. rewrite Hlen. reflexivity.
  - assert (Ht : truncate comment_text = comment_text).
    { unfold truncate. destruct (Nat.ltb_spec 1000 (length comment_text)); [lia|reflexivity]. }
    rewrite !Ht. split; [lia|]. now split.
Qed.

End Truncation.

Section RequiredFields.

Context `{L : Limits}.

Lemma dict_has_set k f x d : dict_has f d = true -> dict_has f (dict_set k x d) = true.
Proof.
  unfold dict_has. induction d as [|[k' v'] d IH]; simpl; [discriminate|].
  destruct (str_eqb k' k) eqn:Ek; simpl; destruct (str_eqb k' f); auto.
Qed.

Lemma dict_has_set_same k x d : dict_has k (dict_set k x d) = true.
Proof.
  unfold dict_has. induction d as [|[k' v'] d IH]; simpl.
  - unfold str_eqb. now rewrite bool_decide_eq_true_2.
  - destruct (str_eqb k' k) eqn:Ek; simpl; rewrite Ek; [reflexivity|exact IH].
Qed.

Lemma py_in_setitem v k x v' f :
  py_setitem v k x = Ok v' ->
  (py_in f v = Ok true -> py_in f v' = Ok true) /\ py_in k v' = Ok true.
Proof.
  destruct v; try discriminate. intros [= <-]. cbn [py_in]. split.
  - intros [= H]. now rewrite dict_has_set.
  - now rewrite dict_has_set_same.
Qed.

Lemma fill_required_keeps_in fields v r f :
  fill_required fields v = Ok r -> py_in f v = Ok true -> py_in f r = Ok true.
Proof.
  revert v. induction fields as [|f0 fields IH]; intros v; cbn [fill_required].
  { now intros [= <-]. }
  destruct (py_in f0 v) as [[|]|e]; [apply IH| |discriminate].
  destruct (py_setitem v f0 (_get_default_value f0)) as [v'|e] eqn:Es;
    [|discriminate].
  intros H Hin. apply (IH v' H).
  now apply (proj1 (py_in_setitem _ _ _ _ f Es)).
Qed.

Lemma fill_required_all fields v r :
  fill_required fields v = Ok r ->
  Forall (fun f => py_in f r = Ok true) fields.
Proof.
  revert v. induction fields as [|f0 fields IH]; intros v; cbn [fill_required].
  { constructor. }
  destruct (py_in f0 v) as [[|]|e] eqn:Ein; [| |discriminate].
  - intros H. constructor; [|exact (IH v H)].
    exact (fill_required_keeps_in _ _ _ _ H Ein).
  - destruct (py_setitem v f0 (_get_default_value f0)) as [v'|e] eqn:Es;
      [|discriminate].
    intros H. constructor; [|exact (IH v' H)].
    apply (fill_required_keeps_in _ _ _ _ H).
    exact (proj2 (py_in_setitem _ _ _ _ f0 Es)).
Qed.

Lemma interpret_has_fields raw :
  Forall (fun f => py_in f (interpret raw) = Ok true) required_fields.
Proof.
  unfold interpret, interpret_body.
  destruct (parse_response _) as [v|e0]; [|repeat constructor].
  destruct (fill_required _ _) as [r|e] eqn:E.
  - exact (fill_required_all _ _ _ E).
  - repeat constructor.
Qed.

(** X2: whatever the model does - answer, fail, or answer with a text that
    is no record - [analyze_comment] raises nothing: it makes one call,
    with the prompt of the cut text, draws and waits nothing, leaves the
    comments alone, and returns a value in which each of the five
    required names is found. *)
Theorem analyze_comment_always_answers
    (generate_content : nat -> str -> res response) (comment_text : str)
    (w : world) :
  exists result w',
    analyze_comment generate_content comment_text w = (Ok result, w')
    /\ prompts w' = prompts w ++ [make_prompt (truncate comment_text)]
    /\ heap w' = heap w /\ draws w' = draws w /\ sleeps w' = sleeps w
    /\ Forall (fun f => py_in f result = Ok true) required_fields.
Proof.
  destruct (analyze_comment_ok generate_content comment_text w)
    as (r & w' & He & Hh & Hp & Hd & Hs & Hr).
  exists r, w'. repeat (split; [assumption|]).
  rewrite Hr. destruct (generate_content _ _).
  - apply interpret_has_fields.
  - repeat constructor.
Qed.

End RequiredFields.

Section ObjectText.

Context `{L : Limits}.

Lemma bottom_object_cons f stk :
  bottom_object stk -> bottom_object (f :: stk).
Proof.
  unfold bottom_object. destruct stk as [|g stk]; [intros []|].
  now rewrite last_cons_cons.
Qed.

Lemma bottom_object_tail f stk :
  bottom_object (f :: stk) ->
  match f with FObj _ _ => stk = [] \/ bottom_object stk
          | FArr _ => bottom_object stk end.
Proof.
  unfold bottom_object. destruct stk as [|g stk].
  - destruct f; [intros []|now left].
  - rewrite last_cons_cons. destruct f; [trivial|now right].
Qed.

Lemma reduce_in_object v stk :
  (stk = [] /\ is_dict v = true) \/ bottom_object stk ->
  in_object (reduce v stk).
Proof.
  intros [[-> Hv]|Hb]; [exact Hv|].
  destruct stk as [|f stk]; [destruct Hb|].
  apply bottom_object_tail in Hb. now destruct f.
Qed.

Lemma start_value_in_object t stk st :
  bottom_object stk -> start_value t stk = Some st -> in_object st.
Proof.
  intros Hb. destruct t; cbn [start_value]; try discriminate;
    intros [= <-]; cbn [in_object]; auto using reduce_in_object.
Qed.

Lemma step_in_object st t st' :
  in_object st -> step st t = Some st' -> in_object st'.
Proof.
  destruct st as [stk|stk|acc stk|stk|acc stk|acc k stk|acc stk|v];
    cbn [in_object step]; intros Hi.
  - now apply start_value_in_object.
  - destruct t; try (apply start_value_in_object; now apply bottom_object_cons).
    intros [= <-]. apply reduce_in_object. now right.
  - destruct t; try discriminate; intros [= <-].
    + apply reduce_in_object. now right.
    + cbn [in_object]. now apply bottom_object_cons.
  - destruct t; try discriminate; intros [= <-].
    + apply reduce_in_object. destruct Hi as [->|Hb]; [now left|now right].
    + exact Hi.
  - destruct t; try discriminate; intros [= <-]. exact Hi.
  - destruct t; try discriminate; intros [= <-]. cbn [in_object].
    destruct Hi as [->|Hb]; [exact I|now apply bottom_object_cons].
  - destruct t; try discriminate; intros [= <-].
    + apply reduce_in_object. destruct Hi as [->|Hb]; [now left|now right].
    + exact Hi.
  - discriminate.
Qed.

Lemma run_in_object ts : forall st st',
  in_object st -> run st ts = Some st' -> in_object st'.
Proof.
  induction ts as [|t ts IH]; intros st st' Hi; cbn [run].
  { now intros [= <-]. }
  destruct (step st t) as [st1|] eqn:E; [|discriminate].
  apply IH. exact (step_in_object _ _ _ Hi E).
Qed.

(** A text that starts with an opening brace decodes to an object or
    not at all. *)
Lemma json_value_brace r v :
  json_value (lbrace :: r) = Some v -> is_dict v = true.
Proof.
  unfold json_value, lex.
  change (lex_fuel (S (length (lbrace :: r))) (lbrace :: r))
    with (match lex_fuel (length (lbrace :: r)) r with
          | Some ts => Some (TLBrace :: ts)
          | None => None
          end).
  destruct (lex_fuel (length (lbrace :: r)) r) as [ts|]; [|discriminate].
  unfold parse. cbn [run step start_value].
  destruct (run (PObjOpen []) ts) as [st|] eqn:E; [|discriminate].
  assert (Hi : in_object st).
  { apply (run_in_object ts (PObjOpen []) st); [now left|exact E]. }
  destruct st; try discriminate. now intros [= <-].
Qed.

Lemma json_loads_brace r v :
  json_loads (lbrace :: r) = Decoded v -> is_dict v = true.
Proof. intros H. exact (json_value_brace _ _ (json_loads_value _ _ H)). Qed.

Lemma find_drop c s :
  0 <= find c s -> exists r, drop (Z.to_nat (find c s)) s = c :: r.
Proof.
  induction s as [|x s IH]; cbn [find]; [lia|].
  destruct (N.eqb_spec x c) as [->|_]; [intros _; now exists s|].
  destruct (Z.ltb_spec (find c s) 0) as [|Hge]; [lia|].
  intros _. destruct (IH Hge) as [r Hr]. exists r.
  replace (Z.to_nat (find c s + 1)) with (S (Z.to_nat (find c s))) by lia.
  exact Hr.
Qed.

Lemma slice_starts c s e :
  0 <= find c s -> find c s < e ->
  exists r, slice (find c s) e s = c :: r.
Proof.
  intros H0 He. unfold slice. destruct (find_drop c s H0) as [r ->].
  destruct (Z.to_nat (e - find c s)) as [|n] eqn:En; [lia|].
  now exists (take n r).
Qed.

(** What [parse_response] gives when it is no dict is what
    [json.loads] returns for the whole text. *)
Lemma parse_response_non_dict t v :
  parse_response t = Ok v -> is_dict v = false ->
  json_loads t = Decoded v.
Proof.
  unfold parse_response.
  destruct (json_loads t) as [v0| |e]; [now intros [= ->]| |discriminate].
  destruct (Z.leb_spec 0 (find lbrace t)) as [H0|];
    [|intros [= <-]; discriminate].
  destruct (Z.ltb_spec (find lbrace t) (rfind rbrace t + 1)) as [He|];
    [|intros [= <-]; discriminate].
  cbn [andb].
  destruct (slice_starts lbrace t _ H0 He) as [r ->].
  destruct (json_loads (lbrace :: r)) as [v0| |e] eqn:E;
    [|intros [= <-]; discriminate|discriminate].
  intros [= <-]. rewrite (json_loads_brace _ _ E). discriminate.
Qed.

Lemma fill_required_dict fields d r :
  fill_required fields (PDict d) = Ok r -> is_dict r = true.
Proof.
  revert d. induction fields as [|f fields IH]; intros d; cbn [fill_required].
  { now intros [= <-]. }
  cbn [py_in py_setitem]. destruct (dict_has f d); apply IH.
Qed.

Lemma fill_required_non_dict fields v :
  is_dict v = false ->
  match v with
  | PList l => forallb (fun f => existsb (is_str f) l) fields
  | PStr s => forallb (fun f => contains f s) fields
  | _ => false
  end = true ->
  fill_required fields v = Ok v.
Proof.
  intros Hd. destruct v as [| | | |s|l|d]; try discriminate.
  - induction fields as [|f fields IH]; [reflexivity|].
    cbn [forallb fill_required py_in]. intros H.
    apply andb_true_iff in H as [-> H]. now apply IH.
  - induction fields as [|f fields IH]; [reflexivity|].
    cbn [forallb fill_required py_in]. intros H.
    apply andb_true_iff in H as [-> H]. now apply IH.
Qed.

End ObjectText.

Section RecordOrLookalike.

Context `{L : Limits}.

(** X3: the interpreter returns a dict, with one exception: when
    [json.loads] returns, for the cleaned text as a whole, an array with
    the five field names among its elements or a string with the five of
    them inside, it returns that list or string.  When [json.loads] ends
    with an exception of the interpreter's limits the result is the dict
    of the handler. *)
Theorem interpret_dict_unless_lookalike (raw : str) :
  (is_dict (interpret raw) = false
   <-> exists v, json_loads (clean_response raw) = Decoded v
         /\ is_dict v = false /\ holds_all_fields v = true)
  /\ forall v, json_loads (clean_response raw) = Decoded v ->
       is_dict v = false -> holds_all_fields v = true ->
       interpret raw = v.
Proof.
  assert (Hback : forall v, json_loads (clean_response raw) = Decoded v ->
            is_dict v = false -> holds_all_fields v = true ->
            interpret raw = v).
  { intros v Hj Hd Hall. unfold interpret, interpret_body, parse_response.
    rewrite Hj, fill_required_non_dict; [reflexivity|exact Hd|].
    destruct v; try discriminate; exact Hall. }
  split; [|exact Hback]. split.
  - unfold interpret, interpret_body.
    destruct (parse_response (clean_response raw)) as [v|e0] eqn:Ep;
      [|discriminate].
    destruct (fill_required required_fields v) as [r|e] eqn:E;
      [|discriminate].
    intros Hr.
    destruct (is_dict v) eqn:Hd.
    { destruct v; try discriminate.
      now rewrite (fill_required_dict _ _ _ E) in Hr. }
    exists v. split; [now apply parse_response_non_dict|].
    split; [exact Hd|].
    destruct (holds_all_fields v) eqn:Hall; [reflexivity|].
    destruct (fill_required_raises required_fields v Hd) as (e & He & _).
    + destruct v; try reflexivity; exact Hall.
    + discriminate.
    + congruence.
  - intros (v & Hj & Hd & Hall). now rewrite (Hback v Hj Hd Hall).
Qed.

End RecordOrLookalike.

Section BatchEffects.

Context `{L : Limits}.

Variable generate_content : nat -> str -> res response.
Variable uniform : nat -> Q.
Variable rate_limit_delay : Q.
Variable max_retries : Z.

#[local] Abbreviation process_comment' :=
  (process_comment generate_content uniform rate_limit_delay max_retries).

Lemma pending_refs_cons_done w l comments :
  has_sentiment (deref l w) = true ->
  pending_refs w (l :: comments) = pending_refs w comments.
Proof.
  intros H. unfold pending_refs. rewrite filter_cons_False; [reflexivity|].
  rewrite H. discriminate.
Qed.

Lemma pending_refs_cons_pending w l comments :
  has_sentiment (deref l w) = false ->
  pending_refs w (l :: comments) = l :: pending_refs w comments.
Proof. intros H. unfold pending_refs. now rewrite filter_cons_True. Qed.

Lemma pending_length w comments :
  pending w comments = length (pending_refs w comments).
Proof. reflexivity. Qed.

(** When no attempt fails, the loop over the comments is one step for
    each pending comment. *)
Lemma first_attempts_all comments :
  0 < max_retries ->
  (0 <= rate_limit_delay)%Q ->
  forall results w0 w1,
  Forall (fun l => (l < length (heap w0))%nat /\ text (deref l w0) <> None)
    comments ->
  heap w0 `prefix_of` heap w1 ->
  exists results',
    for_each process_comment' comments results w1
    = (Ok (results ++ results'),
       {| heap := heap w1
            ++ first_answers generate_content w0 (length (prompts w1))
                 (pending_refs w0 comments);
          prompts := prompts w1
            ++ map (fun l => make_prompt (truncate (text_of w0 l)))
                 (pending_refs w0 comments);
          draws := draws w1 + length (pending_refs w0 comments);
          sleeps := sleeps w1
            ++ replicate (length (pending_refs w0 comments)) rate_limit_delay |}).
Proof.
  intros Hm Hd. induction comments as [|l comments IH];
    intros results w0 w1 Hv Hp.
  { exists []. cbn. rewrite !app_nil_r, Nat.add_0_r. now destruct w1. }
  inversion Hv as [|? ? [Hl Ht] Hv']; subst.
  cbn [for_each]. unfold bind.
  destruct (has_sentiment (deref l w0)) eqn:Es.
  - rewrite (pending_refs_cons_done _ _ _ Es).
    assert (Hpc : process_comment' l results w1 = (Ok (results ++ [l]), w1)).
    { unfold process_comment. now rewrite (deref_prefix _ _ _ Hl Hp), Es. }
    rewrite Hpc. destruct (IH (results ++ [l]) w0 w1 Hv' Hp) as [results' ->].
    exists (l :: results'). now rewrite <- app_assoc.
  - rewrite (pending_refs_cons_pending _ _ _ Es).
    destruct (text (deref l w0)) as [t|] eqn:Et; [|congruence].
    pose proof (deref_prefix _ _ _ Hl Hp) as Hdr.
    rewrite (process_comment_first_attempt generate_content uniform
               rate_limit_delay max_retries l results w1 t)
      by (rewrite ?Hdr; assumption).
    match goal with
    | |- context [for_each _ _ _ ?w2] =>
        destruct (IH (results ++ [length (heap w1)]) w0 w2 Hv')
          as [results' ->]
    end.
    { cbn [heap]. transitivity (heap w1); [exact Hp|now apply prefix_app_r]. }
    exists (length (heap w1) :: results'). cbn [heap prompts draws sleeps].
    rewrite <- !app_assoc. cbn [first_answers map length replicate app].
    rewrite length_app. cbn [length].
    replace (length (prompts w1) + 1)%nat with (S (length (prompts w1))) by lia.
    replace (S (draws w1) + length (pending_refs w0 comments))%nat
      with (draws w1 + S (length (pending_refs w0 comments)))%nat by lia.
    unfold answer_record, annotated, text_of. rewrite Hdr, Et. reflexivity.
Qed.

End BatchEffects.

Section BatchShape.

#[local] Existing Instance sample_limits.

(** X4: in the ordinary run - a positive batch size and retry bound, a delay
    that is not negative, a text in every comment - the batch treats each
    comment that has no record once: one draw of the jitter, one call of
    the model with the prompt of its truncated text, one copy with the
    record of the answer added to the store, one wait of
    [rate_limit_delay]; all in the order of the input. *)
Theorem batch_one_attempt_per_pending `{L : Limits}
    (generate_content : nat -> str -> res response) (uniform : nat -> Q)
    (batch_size : Z) (rate_limit_delay : Q) (max_retries : Z)
    (comments : list nat) (w : world) :
  0 < batch_size ->
  0 < max_retries ->
  (0 <= rate_limit_delay)%Q ->
  Forall (fun l => (l < length (heap w))%nat /\ text (deref l w) <> None)
    comments ->
  exists results w',
    analyze_comments_batch generate_content uniform batch_size
      rate_limit_delay max_retries comments w = (Ok results, w')
    /\ prompts w' = prompts w
         ++ map (fun l => make_prompt (truncate (text_of w l)))
              (pending_refs w comments)
    /\ heap w' = heap w
         ++ first_answers generate_content w (length (prompts w))
              (pending_refs w comments)
    /\ draws w' = (draws w + pending w comments)%nat
    /\ sleeps w' = sleeps w ++ replicate (pending w comments) rate_limit_delay.
Proof.
  intros Hb Hm Hd Hv.
  rewrite analyze_comments_batch_flat by exact Hb.
  destruct (first_attempts_all generate_content uniform rate_limit_delay
              max_retries comments Hm Hd [] w w Hv (reflexivity _))
    as [results ->].
  eexists _, _. split; [reflexivity|]. now repeat split.
Qed.

Lemma batch_one_attempt_per_pending_witness :
  let w := fresh_world [plain_comment "nice"; labelled_comment "neutral";
                        plain_comment "awful"] in
  exists results w',
    analyze_comments_batch steady_model no_jitter 2 2 3 [0; 1; 2]%nat w
      = (Ok results, w')
    /\ prompts w' = [make_prompt (lit "nice"); make_prompt (lit "awful")]
    /\ draws w' = 2%nat
    /\ sleeps w' = [2%Q; 2%Q].
Proof.
  intros w.
  destruct (batch_one_attempt_per_pending steady_model no_jitter 2 2 3
              [0; 1; 2]%nat w)
    as (results & w' & H & Hp & _ & Hdr & Hs).
  - reflexivity.
  - reflexivity.
  - discriminate.
  - repeat constructor; discriminate.
  - exists results, w'. split; [exact H|].
    split; [exact Hp|]. split; [exact Hdr|exact Hs].
Defined.

End BatchShape.

Section Rerun.

#[local] Existing Instance sample_limits.

(** A list of comments that all have a record goes through the loop as
    it is, whatever the model and the configuration. *)
Lemma annotated_all `{L : Limits} generate_content uniform rate_limit_delay
    max_retries comments results w :
  Forall (fun l => has_sentiment (deref l w) = true) comments ->
  for_each (process_comment generate_content uniform rate_limit_delay
              max_retries) comments results w
  = (Ok (results ++ comments), w).
Proof.
  intros H. revert results. induction H as [|l comments Hl _ IH]; intros results.
  { cbn. now rewrite app_nil_r. }
  cbn [for_each]. unfold bind. unfold process_comment at 1. rewrite Hl.
  rewrite IH. now rewrite <- app_assoc.
Qed.

(** X5: every reference a batch returns carries a record, and a second run
    on the returned list - with any model and any configuration of a
    positive batch size - returns the same list and has no effect: no
    call, no draw, no wait, no new object. *)
Theorem batch_rerun_changes_nothing `{L : Limits}
    (generate_content : nat -> str -> res response) (uniform : nat -> Q)
    (batch_size : Z) (rate_limit_delay : Q) (max_retries : Z)
    (comments : list nat) (w : world) :
  0 < batch_size ->
  (0 <= rate_limit_delay)%Q ->
  Forall (fun l => (l < length (heap w))%nat) comments ->
  exists results w',
    analyze_comments_batch generate_content uniform batch_size
      rate_limit_delay max_retries comments w = (Ok results, w')
    /\ Forall (fun l' => has_sentiment (deref l' w') = true) results
    /\ forall generate_content2 uniform2 batch_size2 rate_limit_delay2
         max_retries2,
         0 < batch_size2 ->
         analyze_comments_batch generate_content2 uniform2 batch_size2
           rate_limit_delay2 max_retries2 results w' = (Ok results, w').
Proof.
  intros Hb Hd Hv.
  destruct (process_all generate_content uniform rate_limit_delay max_retries
              comments Hd [] w w Hv (reflexivity _))
    as (results & w' & Hfe & Hp & Hans & _ & _).
  exists results, w'. rewrite analyze_comments_batch_flat by exact Hb.
  split; [exact Hfe|].
  assert (Hall : Forall (fun l' => has_sentiment (deref l' w') = true) results).
  { clear Hfe. induction Hans as [|l l' comments results Ha _ IH];
      [constructor|].
    inversion Hv as [|? ? Hl Hv']; subst.
    constructor; [|exact (IH Hv')].
    unfold answers in Ha. destruct (has_sentiment (deref l w)) eqn:Es.
    - subst l'. now rewrite (deref_prefix _ _ _ Hl Hp).
    - destruct Ha as [_ [r Hr]]. unfold deref. now rewrite Hr. }
  split; [exact Hall|].
  intros gc2 u2 b2 d2 m2 Hb2.
  rewrite analyze_comments_batch_flat by exact Hb2.
  now rewrite annotated_all.
Qed.

Lemma batch_rerun_changes_nothing_witness :
  let w := fresh_world [plain_comment "nice"; labelled_comment "neutral"] in
  exists results w',
    analyze_comments_batch steady_model no_jitter 10 2 3 [0; 1]%nat w
      = (Ok results, w')
    /\ analyze_comments_batch failing_model no_jitter 1 0 0 results w'
       = (Ok results, w').
Proof.
  intros w.
  destruct (batch_rerun_changes_nothing steady_model no_jitter 10 2 3
              [0; 1]%nat w)
    as (results & w' & H & _ & Hre).
  - reflexivity.
  - discriminate.
  - repeat constructor.
  - exists results, w'. split; [exact H|].
    apply Hre. reflexivity.
Defined.

End Rerun.

Section BatchSize.

Context `{L : Limits}.

(** X6: the batch size only groups the comments: every positive size gives
    the same results and the same effects.  A size of zero makes
    [range] raise before any comment is looked at, and a negative size
    gives no batch at all: the result is the empty list, whatever the
    input. *)
Theorem batch_size_only_groups
    (generate_content : nat -> str -> res response) (uniform : nat -> Q)
    (rate_limit_delay : Q) (max_retries : Z) (comments : list nat)
    (w : world) :
  (forall b1 b2, 0 < b1 -> 0 < b2 ->
     analyze_comments_batch generate_content uniform b1 rate_limit_delay
       max_retries comments w
     = analyze_comments_batch generate_content uniform b2 rate_limit_delay
         max_retries comments w)
  /\ analyze_comments_batch generate_content uniform 0 rate_limit_delay
       max_retries comments w
     = (Raise (lit "range() arg 3 must not be zero"), w)
  /\ (forall b, b < 0 ->
        analyze_comments_batch generate_content uniform b rate_limit_delay
          max_retries comments w = (Ok [], w)).
Proof.
  split; [|split].
  - intros b1 b2 H1 H2. now rewrite !analyze_comments_batch_flat.
  - reflexivity.
  - intros b Hb. unfold analyze_comments_batch, bind, lift, py_range.
    destruct (Z.eqb_spec b 0) as [|_]; [lia|].
    destruct (Z.ltb_spec b 0) as [_|]; [reflexivity|lia].
Qed.

End BatchSize.

Section GivingUp.

Context `{L : Limits}.

Variable generate_content : nat -> str -> res response.
Variable uniform : nat -> Q.
Variable rate_limit_delay : Q.
Variable max_retries : Z.

#[local] Abbreviation attempt' := (attempt generate_content uniform rate_limit_delay).
#[local] Abbreviation retry_loop' :=
  (retry_loop generate_content uniform rate_limit_delay max_retries).
#[local] Abbreviation process_comment' :=
  (process_comment generate_content uniform rate_limit_delay max_retries).

(** Without a round to try, the loop is skipped: the comment gets the
    fallback record, and the wait between comments follows. *)
Lemma process_comment_no_round l results w :
  max_retries <= 0 ->
  has_sentiment (deref l w) = false ->
  (0 <= rate_limit_delay)%Q ->
  process_comment' l results w
  = (Ok (results ++ [length (heap w)]),
     {| heap := heap w
          ++ [annotated (deref l w) (fallback_record "Max retries exceeded")];
        prompts := prompts w;
        draws := draws w;
        sleeps := sleeps w ++ [rate_limit_delay] |}).
Proof.
  intros Hm Hs Hd. unfold process_comment. rewrite Hs.
  replace (Z.to_nat max_retries) with 0%nat by lia. cbn [retry_loop].
  destruct (Z.ltb_spec 0 max_retries) as [|_]; [lia|].
  cbv zeta. unfold alloc, sleep. cbn [heap prompts draws sleeps].
  apply Qle_bool_iff in Hd. rewrite Hd. reflexivity.
Qed.

Lemma no_round_all comments :
  max_retries <= 0 ->
  (0 <= rate_limit_delay)%Q ->
  forall results w0 w1,
  Forall (fun l => (l < length (heap w0))%nat) comments ->
  heap w0 `prefix_of` heap w1 ->
  exists results',
    for_each process_comment' comments results w1
    = (Ok (results ++ results'),
       {| heap := heap w1
            ++ map (fun l => annotated (deref l w0)
                               (fallback_record "Max retries exceeded"))
                 (pending_refs w0 comments);
          prompts := prompts w1;
          draws := draws w1;
          sleeps := sleeps w1
            ++ replicate (length (pending_refs w0 comments)) rate_limit_delay |}).
Proof.
  intros Hm Hd. induction comments as [|l comments IH];
    intros results w0 w1 Hv Hp.
  { exists []. cbn. rewrite !app_nil_r. now destruct w1. }
  inversion Hv as [|? ? Hl Hv']; subst.
  cbn [for_each]. unfold bind.
  pose proof (deref_prefix _ _ _ Hl Hp) as Hdr.
  destruct (has_sentiment (deref l w0)) eqn:Es.
  - rewrite (pending_refs_cons_done _ _ _ Es).
    assert (Hpc : process_comment' l results w1 = (Ok (results ++ [l]), w1)).
    { unfold process_comment. now rewrite Hdr, Es. }
    rewrite Hpc. destruct (IH (results ++ [l]) w0 w1 Hv' Hp) as [results' ->].
    exists (l :: results'). now rewrite <- app_assoc.
  - rewrite (pending_refs_cons_pending _ _ _ Es).
    rewrite process_comment_no_round by (rewrite ?Hdr; assumption).
    match goal with
    | |- context [for_each _ _ _ ?w2] =>
        destruct (IH (results ++ [length (heap w1)]) w0 w2 Hv')
          as [results' ->]
    end.
    { cbn [heap]. transitivity (heap w1); [exact Hp|now apply prefix_app_r]. }
    exists (length (heap w1) :: results'). cbn [heap prompts draws sleeps].
    rewrite <- !app_assoc. cbn [map length replicate app].
    now rewrite Hdr.
Qed.


Lemma retry_loop_step fuel l rc sr w :
  retry_loop' (S fuel) l rc sr w
  = if rc <? max_retries then
      match attempt' l rc w with
      | (Ok result, w1) => (Ok (rc, result), w1)
      | (Raise e, w1) =>
          if is_quota e then
            match sleep (inject_Z (15 * (rc + 1))) w1 with
            | (Ok _, w2) => retry_loop' fuel l (rc + 1) sr w2
            | (Raise e', w2) => (Raise e', w2)
            end
          else if max_retries <=? rc + 1 then
            retry_loop' fuel l (rc + 1) (with_error _create_default_result e) w1
          else retry_loop' fuel l (rc + 1) sr w1
      end
    else (Ok (rc, sr), w).
Proof. reflexivity. Qed.




End GivingUp.

Section QuotaBranch.

Context `{L : Limits}.

Variable generate_content : nat -> str -> res response.
Variable uniform : nat -> Q.
Variable rate_limit_delay : Q.
Variable max_retries : Z.

#[local] Abbreviation attempt' := (attempt generate_content uniform rate_limit_delay).
#[local] Abbreviation retry_loop' :=
  (retry_loop generate_content uniform rate_limit_delay max_retries).
#[local] Abbreviation process_comment' :=
  (process_comment generate_content uniform rate_limit_delay max_retries).
#[local] Abbreviation ordinary_waits' := (ordinary_waits uniform rate_limit_delay).

Lemma ordinary_waits_refl w : ordinary_waits' w w.
Proof. exists []. split; [now rewrite app_nil_r|constructor]. Qed.

Lemma ordinary_waits_trans w1 w2 w3 :
  ordinary_waits' w1 w2 -> ordinary_waits' w2 w3 -> ordinary_waits' w1 w3.
Proof.
  intros (a & Ha & Fa) (b & Hb & Fb). exists (a ++ b). split.
  - now rewrite Hb, Ha, app_assoc.
  - now apply Forall_app.
Qed.

Lemma ordinary_waits_same w w' : sleeps w' = sleeps w -> ordinary_waits' w w'.
Proof. intros H. exists []. split; [now rewrite app_nil_r|constructor]. Qed.

(** What an attempt can raise: the [KeyError] of a comment without
    [text], or the [ValueError] of a negative wait; the model is not
    called before either, and neither passes the quota test. *)
Lemma attempt_raises l rc w e w' :
  attempt' l rc w = (Raise e, w') ->
  (e = lit "'text'" \/ e = lit "sleep length must be non-negative")
  /\ prompts w' = prompts w.
Proof.
  unfold attempt, bind, random_uniform, get_text, ret.
  destruct (0 <? rc).
  - unfold sleep. cbn [draws heap prompts sleeps].
    destruct (Qle_bool 0 _).
    + unfold deref. cbn [heap]. fold (deref l w).
      destruct (text (deref l w)) as [t|].
      * match goal with
        | |- analyze_comment _ _ ?w1 = _ -> _ =>
            destruct (analyze_comment_ok generate_content t w1)
              as (r & w2 & -> & _)
        end.
        discriminate.
      * intros [= <- <-]. split; [now left|reflexivity].
    + intros [= <- <-]. split; [now right|reflexivity].
  - unfold deref. cbn [heap]. fold (deref l w).
    destruct (text (deref l w)) as [t|].
    + match goal with
      | |- analyze_comment _ _ ?w1 = _ -> _ =>
          destruct (analyze_comment_ok generate_content t w1)
            as (r & w2 & -> & _)
      end.
      discriminate.
    + intros [= <- <-]. split; [now left|reflexivity].
Qed.

Lemma attempt_waits l rc w r w' :
  attempt' l rc w = (r, w') -> ordinary_waits' w w'.
Proof.
  unfold attempt, bind, random_uniform, get_text, ret.
  destruct (Z.ltb_spec 0 rc) as [Hrc|_].
  - unfold sleep. cbn [draws heap prompts sleeps].
    destruct (Qle_bool 0 _).
    + assert (Hw : ordinary_wait uniform rate_limit_delay
                     (backoff_delay rate_limit_delay (uniform (draws w)) rc)).
      { right. now exists (draws w), rc. }
      unfold deref. cbn [heap]. fold (deref l w).
      destruct (text (deref l w)) as [t|].
      * match goal with
        | |- analyze_comment _ _ ?w1 = _ -> _ =>
            destruct (analyze_comment_ok generate_content t w1)
              as (r0 & w2 & -> & _ & _ & _ & Hs & _)
        end.
        intros [= <- <-]. eexists. split; [exact Hs|]. now constructor.
      * intros [= <- <-]. eexists. split; [reflexivity|]. now constructor.
    + intros [= <- <-]. now apply ordinary_waits_same.
  - unfold deref. cbn [heap]. fold (deref l w).
    destruct (text (deref l w)) as [t|].
    + match goal with
      | |- analyze_comment _ _ ?w1 = _ -> _ =>
          destruct (analyze_comment_ok generate_content t w1)
            as (r0 & w2 & -> & _ & _ & _ & Hs & _)
      end.
      intros [= <- <-]. now apply ordinary_waits_same.
    + intros [= <- <-]. now apply ordinary_waits_same.
Qed.

Lemma attempt_not_quota l rc w e w' :
  attempt' l rc w = (Raise e, w') -> is_quota e = false.
Proof.
  intros H. destruct (attempt_raises _ _ _ _ _ H) as [[-> | ->] _]; reflexivity.
Qed.

Lemma retry_loop_waits fuel : forall l rc sr w r w',
  retry_loop' fuel l rc sr w = (r, w') -> ordinary_waits' w w'.
Proof.
  induction fuel as [|fuel IH]; intros l rc sr w r w'.
  { cbn [retry_loop]. destruct (rc <? max_retries); intros [= <- <-];
      apply ordinary_waits_refl. }
  rewrite retry_loop_step.
  destruct (rc <? max_retries).
  2:{ intros [= <- <-]. apply ordinary_waits_refl. }
  destruct (attempt' l rc w) as [[result|e] w1] eqn:Ea.
  { intros [= <- <-]. exact (attempt_waits _ _ _ _ _ Ea). }
  rewrite (attempt_not_quota _ _ _ _ _ Ea).
  apply attempt_waits in Ea.
  destruct (max_retries <=? rc + 1); intros H;
    exact (ordinary_waits_trans _ _ _ Ea (IH _ _ _ _ _ _ H)).
Qed.

Lemma process_comment_waits l results w r w' :
  process_comment' l results w = (r, w') -> ordinary_waits' w w'.
Proof.
  unfold process_comment.
  destruct (has_sentiment (deref l w)).
  { intros [= <- <-]. apply ordinary_waits_refl. }
  destruct (retry_loop' _ l 0 PNone w) as [[[rc sr]|e] w1] eqn:El;
    apply retry_loop_waits in El.
  2:{ now intros [= <- <-]. }
  cbv zeta. unfold alloc. cbn [heap prompts draws sleeps].
  set (w2 := {| heap := _; prompts := prompts w1 |}).
  assert (H2 : ordinary_waits' w w2).
  { apply (ordinary_waits_trans _ _ _ El). now apply ordinary_waits_same. }
  destruct (rc =? 0); [|now intros [= <- <-]].
  unfold sleep. destruct (Qle_bool 0 rate_limit_delay); intros [= <- <-];
    [|exact H2].
  apply (ordinary_waits_trans _ _ _ H2).
  exists [rate_limit_delay]. split; [reflexivity|].
  constructor; [now left|constructor].
Qed.

Lemma for_each_waits {A B} (f : A -> B -> M B) xs :
  (forall x acc w r w', f x acc w = (r, w') -> ordinary_waits' w w') ->
  forall acc w r w',
  for_each f xs acc w = (r, w') -> ordinary_waits' w w'.
Proof.
  intros Hf. induction xs as [|x xs IH]; intros acc w r w'.
  { intros [= <- <-]. apply ordinary_waits_refl. }
  cbn [for_each]. unfold bind.
  destruct (f x acc w) as [[acc'|e] w1] eqn:E; apply Hf in E.
  - intros H. exact (ordinary_waits_trans _ _ _ E (IH _ _ _ _ H)).
  - now intros [= <- <-].
Qed.

End QuotaBranch.

Section QuotaClaims.

Context `{L : Limits}.

(** X7: with comments whose text, when they have one, is a string, no
    exception that reaches the handler of the retry loop passes its quota
    test - an attempt raises only the [KeyError] of a comment
    without [text] or the [ValueError] of a negative wait, the failures
    of the model having been turned into records by [analyze_comment] -
    so the wait of [15 * retry_count] seconds is never made: every wait
    of a batch is the delay between comments or the backoff before a
    retry. *)
Theorem quota_wait_never_taken
    (generate_content : nat -> str -> res response) (uniform : nat -> Q)
    (batch_size : Z) (rate_limit_delay : Q) (max_retries : Z)
    (comments : list nat) (w : world) :
  (forall l retry_count w0 e w1,
     attempt generate_content uniform rate_limit_delay l retry_count w0
       = (Raise e, w1) ->
     is_quota e = false /\ prompts w1 = prompts w0)
  /\ ordinary_waits uniform rate_limit_delay w
       (snd (analyze_comments_batch generate_content uniform batch_size
               rate_limit_delay max_retries comments w)).
Proof.
  split.
  - intros l rc w0 e w1 H. split.
    + exact (attempt_not_quota _ _ _ _ _ _ _ _ H).
    + exact (proj2 (attempt_raises _ _ _ _ _ _ _ _ H)).
  - destruct (analyze_comments_batch _ _ _ _ _ _ w) as [r w'] eqn:E.
    cbn [snd]. revert E. unfold analyze_comments_batch, bind, lift.
    destruct (py_range _ _) as [starts|e].
    + apply for_each_waits. intros i acc w0 r0 w1.
      apply for_each_waits. intros l acc' w2 r1 w3.
      apply process_comment_waits.
    + intros [= <- <-]. apply ordinary_waits_refl.
Qed.

End QuotaClaims.

Section NoRound.

#[local] Existing Instance sample_limits.

(** X8: with a retry bound of zero or less the loop of attempts is never
    entered: the model is not called and no jitter is drawn, and every
    comment without a record gets the fallback record with the message
    [Max retries exceeded], each followed by the wait between comments. *)
Theorem no_round_gives_fallback `{L : Limits}
    (generate_content : nat -> str -> res response) (uniform : nat -> Q)
    (batch_size : Z) (rate_limit_delay : Q) (max_retries : Z)
    (comments : list nat) (w : world) :
  0 < batch_size ->
  max_retries <= 0 ->
  (0 <= rate_limit_delay)%Q ->
  Forall (fun l => (l < length (heap w))%nat) comments ->
  exists results w',
    analyze_comments_batch generate_content uniform batch_size
      rate_limit_delay max_retries comments w = (Ok results, w')
    /\ prompts w' = prompts w
    /\ draws w' = draws w
    /\ heap w' = heap w
         ++ map (fun l => annotated (deref l w)
                            (fallback_record "Max retries exceeded"))
              (pending_refs w comments)
    /\ sleeps w' = sleeps w ++ replicate (pending w comments) rate_limit_delay.
Proof.
  intros Hb Hm Hd Hv.
  rewrite analyze_comments_batch_flat by exact Hb.
  destruct (no_round_all generate_content uniform rate_limit_delay
              max_retries comments Hm Hd [] w w Hv (reflexivity _))
    as [results ->].
  eexists _, _. split; [reflexivity|]. now repeat split.
Qed.

Lemma no_round_gives_fallback_witness :
  let w := fresh_world [plain_comment "nice"; labelled_comment "neutral"] in
  exists results w',
    analyze_comments_batch steady_model no_jitter 10 2 0 [0; 1]%nat w
      = (Ok results, w')
    /\ prompts w' = []
    /\ heap w' !! 2%nat
       = Some (annotated (plain_comment "nice")
                 (fallback_record "Max retries exceeded")).
Proof.
  intros w.
  destruct (no_round_gives_fallback steady_model no_jitter 10 2 0
              [0; 1]%nat w)
    as (results & w' & H & Hp & _ & Hh & _).
  - reflexivity.
  - discriminate.
  - discriminate.
  - repeat constructor.
  - exists results, w'. split; [exact H|]. split; [exact Hp|].
    rewrite Hh. reflexivity.
Defined.

End NoRound.

Section NegativeDelay.

#[local] Existing Instance sample_limits.

(** X9: a negative delay makes the wait between comments raise: the batch
    ends with the [ValueError] of [time.sleep] at the first comment
    without a record, after the call of the model for it, and returns
    nothing. *)
Theorem negative_delay_aborts `{L : Limits}
    (generate_content : nat -> str -> res response) (uniform : nat -> Q)
    (batch_size : Z) (rate_limit_delay : Q) (max_retries : Z)
    (done : list nat) (l : nat) (rest : list nat) (t : str) (w : world) :
  0 < batch_size ->
  0 < max_retries ->
  (rate_limit_delay < 0)%Q ->
  Forall (fun l0 => has_sentiment (deref l0 w) = true) done ->
  has_sentiment (deref l w) = false ->
  text (deref l w) = Some t ->
  exists w',
    analyze_comments_batch generate_content uniform batch_size
      rate_limit_delay max_retries (done ++ l :: rest) w
    = (Raise (lit "sleep length must be non-negative"), w')
    /\ prompts w' = prompts w ++ [make_prompt (truncate t)].
Proof.
  intros Hb Hm Hd Hdone Hs Ht.
  rewrite analyze_comments_batch_flat by exact Hb.
  rewrite for_each_app, annotated_all by exact Hdone.
  cbn [for_each]. unfold bind.
  assert (Hneg : Qle_bool 0 rate_limit_delay = false).
  { destruct (Qle_bool 0 rate_limit_delay) eqn:E; [|reflexivity].
    apply Qle_bool_iff in E. lra. }
  assert (Hpc : exists w',
            process_comment generate_content uniform rate_limit_delay
              max_retries l ([] ++ done) w
            = (Raise (lit "sleep length must be non-negative"), w')
            /\ prompts w' = prompts w ++ [make_prompt (truncate t)]).
  { unfold process_comment. rewrite Hs.
    destruct (Z.to_nat max_retries) as [|fuel] eqn:Ef; [lia|].
    cbn [retry_loop]. destruct (Z.ltb_spec 0 max_retries) as [_|]; [|lia].
    unfold attempt, bind, random_uniform, get_text, ret.
    change (0 <? 0) with false. cbv iota.
    unfold deref at 1. cbn [heap]. fold (deref l w). rewrite Ht.
    unfold analyze_comment, call_model. cbn [heap prompts draws sleeps].
    destruct (generate_content _ _) as [resp|e].
    - pose proof (interpret_not_none (response_text resp)) as Hn.
      destruct (interpret (response_text resp)); [congruence|..];
        cbv zeta; unfold alloc, sleep; cbn [heap prompts draws sleeps];
        rewrite Hneg; eexists; split; reflexivity.
    - cbv zeta. unfold alloc, sleep. cbn [heap prompts draws sleeps].
      rewrite Hneg. eexists; split; reflexivity. }
  destruct Hpc as (w' & -> & Hp). now exists w'.
Qed.

Lemma negative_delay_aborts_witness :
  let w := fresh_world [labelled_comment "neutral"; plain_comment "nice"] in
  exists w',
    analyze_comments_batch steady_model no_jitter 10 (-1) 3 [0; 1]%nat w
    = (Raise (lit "sleep length must be non-negative"), w')
    /\ prompts w' = [make_prompt (lit "nice")].
Proof.
  intros w.
  apply (negative_delay_aborts steady_model no_jitter 10 (-1) 3 [0%nat] 1%nat
           [] (lit "nice") w).
  - reflexivity.
  - reflexivity.
  - reflexivity.
  - repeat constructor.
  - reflexivity.
  - reflexivity.
Defined.

End NegativeDelay.

Section MissingText.

#[local] Existing Instance sample_limits.



End MissingText.

Section SummaryCounts.

Lemma count_if_cons p c cs :
  count_if p (c :: cs) = (if p c then 1 else 0) + count_if p cs.
Proof.
  unfold count_if. rewrite filter_cons.
  destruct (p c); [rewrite decide_True by reflexivity
                  |rewrite decide_False by discriminate]; simpl length; lia.
Qed.

Lemma count_if_nonneg p cs : 0 <= count_if p cs.
Proof. unfold count_if. lia. Qed.

Lemma is_str_apart a b v : a <> b -> is_str a v = true -> is_str b v = false.
Proof.
  intros Hab. destruct v; try discriminate. cbn [is_str]. unfold str_eqb.
  intros H. apply bool_decide_eq_true in H. subst.
  now apply bool_decide_eq_false.
Qed.

(** Every comment falls under exactly one of five heads. *)
Lemma one_head c :
  record_ok c ->
  (if labelled (lit "positive") c then 1 else 0)
  + (if labelled (lit "negative") c then 1 else 0)
  + (if labelled (lit "neutral") c then 1 else 0)
  + (if unlabelled c then 1 else 0)
  + (if other_label c then 1 else 0) = 1.
Proof.
  unfold record_ok, labelled, unlabelled, other_label.
  destruct (sentiment_analysis c) as [v|]; [|reflexivity].
  destruct v; try discriminate. intros _. unfold dict_has.
  destruct (dict_get (lit "sentiment") d) as [x|]; [|reflexivity].
  cbn [negb].
  destruct (is_str (lit "positive") x) eqn:E1.
  { rewrite (is_str_apart (lit "positive") (lit "negative") x) by (discriminate || assumption).
    rewrite (is_str_apart (lit "positive") (lit "neutral") x) by (discriminate || assumption).
    reflexivity. }
  destruct (is_str (lit "negative") x) eqn:E2.
  { rewrite (is_str_apart (lit "negative") (lit "neutral") x) by (discriminate || assumption).
    reflexivity. }
  now destruct (is_str (lit "neutral") x).
Qed.

Lemma heads_add_up cs :
  Forall record_ok cs ->
  count_if (labelled (lit "positive")) cs
  + count_if (labelled (lit "negative")) cs
  + count_if (labelled (lit "neutral")) cs
  + count_if unlabelled cs
  + count_if other_label cs = Z.of_nat (length cs).
Proof.
  induction 1 as [|c cs Hc _ IH]; [reflexivity|].
  rewrite !count_if_cons. pose proof (one_head c Hc). cbn [length]. lia.
Qed.

(** X11: the four counts of the summary are not negative, and together with
    the number of records whose label is none of [positive], [negative]
    and [neutral] they make the total: a record labelled [unknown],
    [error] or anything else is under no count. *)
Theorem summary_counts_add_up (cs : list comment) :
  Forall record_ok cs ->
  exists s,
    sentiment_summary_of cs = Ok s
    /\ Forall (fun k => 0 <= count_of (counts s) k) label_names
    /\ count_of (counts s) (lit "positive")
       + count_of (counts s) (lit "negative")
       + count_of (counts s) (lit "neutral")
       + count_of (counts s) (lit "unknown")
       + count_if other_label cs
       = total_comments s.
Proof.
  intros Hok. unfold sentiment_summary_of.
  rewrite (collect_sentiments_labels cs Hok).
  rewrite !count_label_labels, (labels_unlabelled cs Hok).
  eexists. split; [reflexivity|]. cbn [counts total_comments].
  split.
  - repeat constructor; apply count_if_nonneg.
  - exact (heads_add_up cs Hok).
Qed.

Lemma summary_counts_add_up_witness :
  let cs := [ labelled_comment "positive"; labelled_comment "error";
              plain_comment "no record"; labelled_comment "unknown" ] in
  exists s,
    sentiment_summary_of cs = Ok s
    /\ count_of (counts s) (lit "positive") = 1
    /\ count_of (counts s) (lit "unknown") = 1
    /\ count_if other_label cs = 2
    /\ total_comments s = 4.
Proof.
  intros cs.
  assert (H : Forall record_ok cs) by (repeat constructor).
  destruct (summary_counts_add_up cs H) as (s & Hs & _ & Hsum).
  exists s. split; [exact Hs|].
  unfold sentiment_summary_of in Hs. injection Hs as <-.
  now repeat split.
Defined.

End SummaryCounts.

Section SummaryOfFailures.

#[local] Existing Instance sample_limits.

Lemma collect_error_records cs :
  Forall (fun c => exists e, sentiment_analysis c = Some (error_result e)) cs ->
  collect_sentiments cs = Ok (replicate (length cs) (PStr (lit "error"))).
Proof.
  induction 1 as [|c cs [e He] _ IH]; [reflexivity|].
  cbn [collect_sentiments]. rewrite He. cbn. now rewrite IH.
Qed.

Lemma count_label_replicate label x n :
  is_str label x = false -> count_label label (replicate n x) = 0.
Proof.
  intros H. unfold count_label. induction n as [|n IH]; [reflexivity|].
  cbn [replicate]. rewrite filter_cons_False; [exact IH|].
  rewrite H. discriminate.
Qed.

Lemma summary_of_error_records cs :
  Forall (fun c => exists e, sentiment_analysis c = Some (error_result e)) cs ->
  sentiment_summary_of cs
  = Ok {| counts := no_counts; total_comments := Z.of_nat (length cs);
          overall_sentiment := lit "positive" |}.
Proof.
  intros H. unfold sentiment_summary_of.
  rewrite (collect_error_records cs H).
  rewrite !count_label_replicate by reflexivity.
  rewrite length_replicate, Z.sub_diag. reflexivity.
Qed.

(** X12: when every call of the model fails, [analyze_video_comments] still
    returns: one record labelled [error] for each comment, none of them
    under any of the four counts, and [positive] as the overall
    sentiment of the video. *)
Theorem failed_video_is_called_positive `{L : Limits}
    (generate_content : nat -> str -> res response) (uniform : nat -> Q)
    (vc : video_comments) (w : world) :
  (forall n prompt, exists e, generate_content n prompt = Raise e) ->
  Forall (fun l => (l < length (heap w))%nat
                   /\ has_sentiment (deref l w) = false
                   /\ text (deref l w) <> None) (comments vc) ->
  exists r w',
    analyze_video_comments generate_content uniform vc w = (Ok r, w')
    /\ Forall (fun l' => exists e, record_at w' l' = Some (error_result e))
         (result_comments r)
    /\ total_comments (sentiment_summary r) = Z.of_nat (length (comments vc))
    /\ counts (sentiment_summary r) = no_counts
    /\ overall_sentiment (sentiment_summary r) = lit "positive".
Proof.
  intros Hgc Hv.
  destruct (raising_model_one_call_each generate_content uniform 10 2 3
              (comments vc) w) as (results & w' & Hb & _ & Hrec);
    [reflexivity|reflexivity|discriminate|exact Hgc|exact Hv|].
  assert (Hlen : length results = length (comments vc)).
  { destruct (process_all generate_content uniform 2 3 (comments vc)
                ltac:(discriminate) [] w w) as (rs & w2 & Hfe & _ & Hans & _).
    - eapply Forall_impl; [exact Hv|]. now intros l [Hl _].
    - reflexivity.
    - rewrite analyze_comments_batch_flat in Hb by reflexivity.
      rewrite Hfe in Hb. injection Hb as <- <-.
      symmetry. exact (Forall2_length _ _ _ Hans). }
  unfold analyze_video_comments, bind. rewrite Hb.
  rewrite summary_of_error_records.
  2:{ apply Forall_fmap. eapply Forall_impl; [exact Hrec|].
      intros l' [e He]. now exists e. }
  eexists _, _. split; [reflexivity|].
  cbn [result_comments sentiment_summary total_comments counts
       overall_sentiment].
  split; [exact Hrec|]. rewrite length_map, Hlen. now repeat split.
Qed.

Lemma failed_video_is_called_positive_witness :
  let w := fresh_world [plain_comment "first"; plain_comment "second"] in
  exists r w',
    analyze_video_comments failing_model no_jitter
      {| video_info := PNone; comments := [0; 1]%nat |} w = (Ok r, w')
    /\ total_comments (sentiment_summary r) = 2
    /\ overall_sentiment (sentiment_summary r) = lit "positive".
Proof.
  intros w.
  destruct (failed_video_is_called_positive failing_model no_jitter
              {| video_info := PNone; comments := [0; 1]%nat |} w)
    as (r & w' & H & _ & Ht & _ & Ho).
  - intros n prompt. now eexists.
  - repeat constructor; discriminate.
  - now exists r, w'.
Defined.

End SummaryOfFailures.

Section SummaryRaises.

#[local] Existing Instance sample_limits.

Lemma collect_sentiments_reads cs :
  (exists vs, collect_sentiments cs = Ok vs)
  <-> forallb summary_reads cs = true.
Proof.
  induction cs as [|c cs IH]; [now split; [|eexists]|].
  cbn [collect_sentiments forallb]. unfold summary_reads at 1.
  destruct (sentiment_analysis c) as [v|]; [|exact IH].
  destruct v as [|b|z|f|s|l|d]; cbn [py_in py_getitem andb];
    try (split; [intros [vs H]; discriminate|discriminate]).
  - destruct (contains (lit "sentiment") s); cbn [negb andb]; [|exact IH].
    split; [intros [vs H]; discriminate|discriminate].
  - destruct (existsb (is_str (lit "sentiment")) l); cbn [negb andb];
      [|exact IH].
    split; [intros [vs H]; discriminate|discriminate].
  - unfold dict_has. destruct (dict_get (lit "sentiment") d) as [x|];
      [|exact IH].
    rewrite <- IH. split.
    + intros [vs H]. destruct (collect_sentiments cs); [now eexists|discriminate].
    + intros [vs ->]. now eexists.
Qed.

(** X13: the summary is made exactly when every record it meets is a dict, or
    a list or a string in which [sentiment] is not found; any other
    record - a number, [None], a list or a string that holds
    [sentiment] - makes it raise. *)
Theorem summary_needs_readable_records (cs : list comment) :
  (exists s, sentiment_summary_of cs = Ok s)
  <-> forallb summary_reads cs = true.
Proof.
  rewrite <- collect_sentiments_reads. unfold sentiment_summary_of.
  destruct (collect_sentiments cs) as [vs|e]; split.
  - intros _. now eexists.
  - intros _. now eexists.
  - intros [s H]. discriminate.
  - intros [vs H]. discriminate.
Qed.

Lemma getitem_needs_dict v field :
  is_dict v = false -> exists e, py_getitem v field = Raise e.
Proof. destruct v; try discriminate; intros _; now eexists. Qed.

(** X14: an answer of the model that the interpreter lets through although it
    is no object - an array or a string that holds the five field names -
    is stored as the comment's record, and [analyze_video_comments] then
    raises while it collects the labels: for that video no result is
    returned at all. *)
Theorem non_object_answer_breaks_summary `{L : Limits}
    (generate_content : nat -> str -> res response) (uniform : nat -> Q)
    (info : pyval) (l : nat) (rest : list nat) (t : str) (resp : response)
    (w : world) :
  Forall (fun l0 => (l0 < length (heap w))%nat) (l :: rest) ->
  has_sentiment (deref l w) = false ->
  text (deref l w) = Some t ->
  generate_content (length (prompts w)) (make_prompt (truncate t)) = Ok resp ->
  is_dict (interpret (response_text resp)) = false ->
  exists e w',
    analyze_video_comments generate_content uniform
      {| video_info := info; comments := l :: rest |} w = (Raise e, w')
    /\ heap w' !! length (heap w)
       = Some (annotated (deref l w) (interpret (response_text resp))).
Proof.
  intros Hv Hs Ht Hgc Hnd.
  inversion Hv as [|? ? Hl Hv']; subst.
  unfold analyze_video_comments, bind. cbn [comments].
  rewrite analyze_comments_batch_flat by reflexivity.
  cbn [for_each]. unfold bind.
  rewrite (process_comment_first_attempt generate_content uniform 2 3
             l [] w t Hs Ht) by (reflexivity || discriminate).
  rewrite Hgc.
  set (c := {| text := Some t;
               sentiment_analysis := Some (interpret (response_text resp));
               fields := fields (deref l w) |}).
  match goal with
  | |- context [for_each _ _ _ ?w1] =>
      destruct (process_all generate_content uniform 2 3 rest
                  ltac:(discriminate) ([] ++ [length (heap w)]) w w1 Hv')
        as (results' & w' & Hfe & Hp & _)
  end.
  { cbn [heap]. now apply prefix_app_r. }
  rewrite Hfe. cbn [heap] in Hp.
  assert (Hc : heap w' !! length (heap w) = Some c).
  { apply (prefix_lookup_Some _ _ _ _ (list_lookup_middle (heap w) [] c _ eq_refl) Hp). }
  assert (Hraise : exists e,
            sentiment_summary_of
              (map (fun l0 => deref l0 w')
                 (([] ++ [length (heap w)]) ++ results')) = Raise e).
  { unfold sentiment_summary_of. cbn [app map collect_sentiments].
    unfold deref at 1. rewrite Hc.
    change (default empty_comment (Some c)) with c. unfold c at 1.
    cbn [sentiment_analysis].
    pose proof (interpret_has_fields (response_text resp)) as Hf.
    apply Forall_cons in Hf as [Hin _]. rewrite Hin.
    destruct (getitem_needs_dict _ (lit "sentiment") Hnd) as [e ->].
    now exists e. }
  destruct Hraise as [e ->]. exists e, w'. split; [reflexivity|].
  rewrite Hc. unfold annotated, c. now rewrite Ht.
Qed.

Lemma non_object_answer_breaks_summary_witness :
  let w := fresh_world [plain_comment "nice"] in
  let model : nat -> str -> res response :=
    fun _ _ => Ok {| r_text := Some names_array; r_parts := None; r_str := [] |} in
  exists e w',
    analyze_video_comments model no_jitter
      {| video_info := PNone; comments := [0%nat] |} w = (Raise e, w').
Proof.
  intros w model.
  destruct (non_object_answer_breaks_summary model no_jitter PNone 0%nat []
              (lit "nice")
              {| r_text := Some names_array; r_parts := None; r_str := [] |} w)
    as (e & w' & H & _).
  - repeat constructor.
  - reflexivity.
  - reflexivity.
  - reflexivity.
  - reflexivity.
  - now exists e, w'.
Defined.

End SummaryRaises.

(** * The comment provider *)

Import Youtube YoutubeProps.

Section Paging.

Variable execute : nat -> request -> outcome dict.
Variable video_id : pyval.
Variable max_results : Z.

#[local] Abbreviation fetch_pages' fuel :=
  (fetch_pages execute fuel video_id max_results).

Lemma fetch_pages_step fuel comments token log :
  fetch_pages' (S fuel) comments token log
  = if Z.of_nat (length comments) <? max_results then
      let r := CommentThreads video_id
                 (Z.min 100 (max_results - Z.of_nat (length comments)))
                 token in
      match execute (length log) r with
      | Raises e => (Raises e, log ++ [r])
      | Returns response =>
          match add_page response comments with
          | Raises e => (Raises e, log ++ [r])
          | Returns comments' =>
              if negb (truthy (get_or "nextPageToken" PNone response))
                 || (max_results <=? Z.of_nat (length comments'))
              then (Returns (Some comments'), log ++ [r])
              else fetch_pages' fuel comments'
                     (get_or "nextPageToken" PNone response) (log ++ [r])
          end
      end
    else (Returns (Some comments), log).
Proof. reflexivity. Qed.

Lemma fetch_pages_full fuel comments token log :
  max_results <= Z.of_nat (length comments) ->
  fetch_pages' fuel comments token log = (Returns (Some comments), log).
Proof.
  intros H. destruct fuel; cbn [fetch_pages];
    destruct (Z.ltb_spec (Z.of_nat (length comments)) max_results);
    (lia || reflexivity).
Qed.

Lemma collect_length {A} (f : pyval -> outcome A) items acc r :
  collect f items acc = Returns r ->
  length r = (length acc + length items)%nat.
Proof.
  revert acc. induction items as [|item items IH]; intros acc; cbn [collect].
  { intros [= <-]. simpl. lia. }
  destruct (f item) as [a|e]; [|discriminate].
  intros H. rewrite (IH _ H), length_app. simpl. lia.
Qed.

Lemma collect_prefix {A} (f : pyval -> outcome A) items acc r :
  collect f items acc = Returns r -> acc `prefix_of` r.
Proof.
  revert acc. induction items as [|item items IH]; intros acc; cbn [collect].
  { now intros [= <-]. }
  destruct (f item) as [a|e]; [|discriminate].
  intros H. transitivity (acc ++ [a]); [now apply prefix_app_r|exact (IH _ H)].
Qed.

(** The requests of the loop, whatever its end. *)
Lemma fetch_pages_requests fuel : forall comments token log o log',
  fetch_pages' fuel comments token log = (o, log') ->
  exists reqs,
    log' = log ++ reqs
    /\ Forall (page_request video_id max_results) reqs
    /\ (Z.of_nat (length comments) < max_results ->
        (0 < fuel)%nat ->
        head reqs
        = Some (CommentThreads video_id
                  (Z.min 100 (max_results - Z.of_nat (length comments)))
                  token)).
Proof.
  induction fuel as [|fuel IH]; intros comments token log o log'.
  { cbn [fetch_pages]. destruct (_ <? _); intros [= <- <-];
      (exists []; rewrite app_nil_r; split; [reflexivity|];
       split; [constructor|lia]). }
  rewrite fetch_pages_step.
  destruct (Z.ltb_spec (Z.of_nat (length comments)) max_results) as [Hlt|Hge].
  2:{ intros [= <- <-]. exists []. rewrite app_nil_r.
      split; [reflexivity|]. split; [constructor|lia]. }
  cbv zeta.
  set (r := CommentThreads video_id
              (Z.min 100 (max_results - Z.of_nat (length comments))) token).
  assert (Hr : page_request video_id max_results r).
  { eexists _, _. split; [reflexivity|]. lia. }
  assert (Hone : forall o0, (o0, log ++ [r]) = (o, log') ->
            exists reqs, log' = log ++ reqs
              /\ Forall (page_request video_id max_results) reqs
              /\ (Z.of_nat (length comments) < max_results ->
                  (0 < S fuel)%nat -> head reqs = Some r)).
  { intros o0 [= <- <-]. exists [r]. split; [reflexivity|].
    split; [now repeat constructor|reflexivity]. }
  destruct (execute (length log) r) as [response|e]; [|apply Hone].
  destruct (add_page response comments) as [comments'|e]; [|apply Hone].
  destruct (negb _ || _); [apply Hone|].
  intros H. destruct (IH _ _ _ _ _ H) as (reqs & -> & Hreqs & _).
  exists (r :: reqs). split; [now rewrite <- app_assoc|].
  split; [now constructor|reflexivity].
Qed.

Lemma slice_to_length {A} k (l : list A) :
  0 <= k -> Z.of_nat (length (slice_to k l)) <= k.
Proof.
  intros Hk. unfold slice_to. destruct (Z.leb_spec 0 k); [|lia].
  rewrite length_take. lia.
Qed.

Lemma slice_to_nil {A} k : slice_to k (@nil A) = [].
Proof. unfold slice_to. destruct (0 <=? k); apply take_nil. Qed.

End Paging.

Section PagingClaims.

(** X15: whatever the client answers and however the call ends,
    [get_video_comments] asks only for comment threads of the video, for
    between 1 and 100 at a time and never more than [max_results], the
    first time from the start of the list; what it returns has at most
    [max_results] comments; and for a [max_results] of zero or less it
    returns the empty list without any request. *)
Theorem comment_requests_bounded
    (execute : nat -> request -> outcome dict) (fuel : nat)
    (video_id : pyval) (max_results : Z) (log : list request) :
  exists reqs,
    snd (get_video_comments execute fuel video_id max_results log)
    = log ++ reqs
    /\ Forall (page_request video_id max_results) reqs
    /\ (0 < max_results -> (0 < fuel)%nat ->
        head reqs
        = Some (CommentThreads video_id (Z.min 100 max_results) PNone))
    /\ (forall comments,
          fst (get_video_comments execute fuel video_id max_results log)
          = Returns (Some comments) ->
          Z.of_nat (length comments) <= Z.max 0 max_results)
    /\ (max_results <= 0 ->
        get_video_comments execute fuel video_id max_results log
        = (Returns (Some []), log)).
Proof.
  unfold get_video_comments.
  destruct (fetch_pages execute fuel video_id max_results [] PNone log)
    as [o log'] eqn:E.
  destruct (fetch_pages_requests _ _ _ _ _ _ _ _ _ E) as (reqs & -> & Hreqs & Hhead).
  exists reqs.
  split.
  { destruct o as [[cs|]|[[] msg]]; try reflexivity.
    now destruct (contains _ msg). }
  split; [exact Hreqs|]. split.
  { intros Hpos Hfuel. rewrite Hhead by (cbn [length]; lia).
    cbn [length]. now rewrite Z.sub_0_r. }
  split.
  - intros comments.
    destruct (Z.leb_spec 0 max_results) as [Hk|Hk].
    + destruct o as [[cs|]|[[] msg]]; try discriminate.
      * intros [= <-]. etransitivity; [exact (slice_to_length max_results cs Hk)|]. lia.
      * destruct (contains _ msg); [|discriminate].
        intros [= <-]. simpl. lia.
    + rewrite fetch_pages_full in E by (cbn [length]; lia).
      injection E as <- _. intros [= <-]. rewrite slice_to_nil.
      cbn [length]. lia.
  - intros Hk. rewrite fetch_pages_full in E by (cbn [length]; lia).
    injection E as <- E. f_equal.
    + now rewrite slice_to_nil.
    + now symmetry.
Qed.

End PagingClaims.

Section PagingEnds.

Variable execute : nat -> request -> outcome dict.
Variable video_id : pyval.
Variable max_results : Z.

#[local] Abbreviation fetch_pages' fuel :=
  (fetch_pages execute fuel video_id max_results).

Lemma add_page_length response comments comments' item items :
  iterate (get_or "items" (PList []) response) = Returns (item :: items) ->
  add_page response comments = Returns comments' ->
  (length comments < length comments')%nat.
Proof.
  unfold add_page. intros ->. cbn [obind]. intros H.
  rewrite (collect_length _ _ _ _ H). cbn [length]. lia.
Qed.

(** With pages that advance, a round for each comment asked for is
    enough for the loop to end. *)
Lemma fetch_pages_ends :
  (forall n r response, execute n r = Returns response ->
     page_advances response) ->
  forall fuel comments token log,
  (Z.to_nat (max_results - Z.of_nat (length comments)) <= fuel)%nat ->
  fst (fetch_pages' fuel comments token log) <> Returns None.
Proof.
  intros Hadv. induction fuel as [|fuel IH]; intros comments token log Hfuel.
  { rewrite fetch_pages_full by lia. discriminate. }
  rewrite fetch_pages_step.
  destruct (Z.ltb_spec (Z.of_nat (length comments)) max_results) as [Hlt|Hge];
    [|discriminate].
  cbv zeta.
  destruct (execute (length log) _) as [response|e] eqn:Ee; [|discriminate].
  destruct (add_page response comments) as [comments'|e] eqn:Ea;
    [|discriminate].
  destruct (truthy (get_or "nextPageToken" PNone response)) eqn:Et;
    [|discriminate].
  cbn [negb orb].
  destruct (Z.leb_spec max_results (Z.of_nat (length comments'))) as [|Hroom];
    [discriminate|].
  apply IH.
  destruct (Hadv _ _ _ Ee Et) as (item & items & Hit).
  pose proof (add_page_length _ _ _ _ _ Hit Ea). lia.
Qed.

(** A loop that has ended gives the same with more rounds. *)
Lemma fetch_pages_more_fuel fuel : forall fuel' comments token log,
  (fuel <= fuel')%nat ->
  fst (fetch_pages' fuel comments token log) <> Returns None ->
  fetch_pages' fuel' comments token log = fetch_pages' fuel comments token log.
Proof.
  induction fuel as [|fuel IH]; intros fuel' comments token log Hle Hend.
  { cbn [fetch_pages] in Hend |- *.
    destruct (Z.ltb_spec (Z.of_nat (length comments)) max_results);
      [now contradict Hend|].
    now apply fetch_pages_full. }
  destruct fuel' as [|fuel']; [lia|].
  rewrite (fetch_pages_step execute video_id max_results fuel) in Hend |- *.
  rewrite (fetch_pages_step execute video_id max_results fuel').
  destruct (_ <? _); [|reflexivity]. cbv zeta in Hend |- *.
  destruct (execute (length log) _) as [response|e]; [|reflexivity].
  destruct (add_page response comments) as [comments'|e]; [|reflexivity].
  destruct (negb _ || _); [reflexivity|].
  apply IH; [lia|exact Hend].
Qed.

Lemma fetch_pages_count fuel : forall comments token log,
  (length (snd (fetch_pages' fuel comments token log))
   <= length log + fuel)%nat.
Proof.
  induction fuel as [|fuel IH]; intros comments token log.
  { cbn [fetch_pages]. destruct (_ <? _); cbn [snd]; lia. }
  rewrite fetch_pages_step.
  destruct (_ <? _); [|cbn [snd]; lia]. cbv zeta.
  assert (H1 : (length (log ++ [CommentThreads video_id
                   (Z.min 100 (max_results - Z.of_nat (length comments)))
                   token]) = length log + 1)%nat)
    by (rewrite length_app; reflexivity).
  destruct (execute (length log) _) as [response|e]; [|cbn [snd]; lia].
  destruct (add_page response comments) as [comments'|e]; [|cbn [snd]; lia].
  destruct (negb _ || _); [cbn [snd]; lia|].
  etransitivity; [apply IH|]. lia.
Qed.

End PagingEnds.

Section PagingEndsClaims.

Lemma get_video_comments_of_fetch execute fuel fuel' video_id max_results log :
  fetch_pages execute fuel' video_id max_results [] PNone log
  = fetch_pages execute fuel video_id max_results [] PNone log ->
  get_video_comments execute fuel' video_id max_results log
  = get_video_comments execute fuel video_id max_results log.
Proof. unfold get_video_comments. now intros ->. Qed.

(** X16: when every page that names a next page has an item, the loop of
    [get_video_comments] ends within [max_results] rounds - with a list
    or with an exception - after at most [max_results] requests, and more
    rounds change nothing. *)
Theorem paging_ends_when_pages_advance
    (execute : nat -> request -> outcome dict) (fuel : nat)
    (video_id : pyval) (max_results : Z) (log : list request) :
  (forall n r response, execute n r = Returns response ->
     page_advances response) ->
  (Z.to_nat max_results <= fuel)%nat ->
  fst (get_video_comments execute fuel video_id max_results log)
    <> Returns None
  /\ (length (snd (get_video_comments execute fuel video_id max_results log))
      <= length log + Z.to_nat max_results)%nat
  /\ forall fuel', (Z.to_nat max_results <= fuel')%nat ->
       get_video_comments execute fuel' video_id max_results log
       = get_video_comments execute fuel video_id max_results log.
Proof.
  intros Hadv Hfuel.
  assert (Hend : forall f, (Z.to_nat max_results <= f)%nat ->
            fst (fetch_pages execute f video_id max_results [] PNone log)
            <> Returns None).
  { intros f Hf. apply fetch_pages_ends; [exact Hadv|]. cbn [length]. lia. }
  assert (Hsame : forall f, (Z.to_nat max_results <= f)%nat ->
            fetch_pages execute f video_id max_results [] PNone log
            = fetch_pages execute (Z.to_nat max_results) video_id max_results
                [] PNone log).
  { intros f Hf. apply fetch_pages_more_fuel; [exact Hf|].
    apply Hend. lia. }
  split; [|split].
  - pose proof (Hend fuel Hfuel) as H. unfold get_video_comments.
    destruct (fetch_pages execute fuel video_id max_results [] PNone log)
      as [[[cs|]|[[] msg]] log'];
      cbn [fst] in *; try discriminate; try congruence.
    destruct (contains _ msg); discriminate.
  - rewrite (get_video_comments_of_fetch _ _ _ _ _ _ (Hsame fuel Hfuel)).
    pose proof (fetch_pages_count execute video_id max_results
                  (Z.to_nat max_results) [] PNone log) as H.
    unfold get_video_comments.
    destruct (fetch_pages execute (Z.to_nat max_results) video_id max_results
                [] PNone log) as [[[cs|]|[[] msg]] log'];
      cbn [snd] in *; try exact H.
    destruct (contains _ msg); exact H.
  - intros fuel' Hf'. apply get_video_comments_of_fetch.
    now rewrite (Hsame fuel' Hf'), (Hsame fuel Hfuel).
Qed.

Lemma paging_ends_when_pages_advance_witness :
  let video := PStr (lit "v") in
  fst (get_video_comments two_page_client 10 video 10 []) <> Returns None
  /\ (length (snd (get_video_comments two_page_client 10 video 10 []))
      <= length (@nil request) + Z.to_nat 10)%nat
  /\ forall fuel', (Z.to_nat 10 <= fuel')%nat ->
       get_video_comments two_page_client fuel' video 10 []
       = get_video_comments two_page_client 10 video 10 [].
Proof.
  intros video.
  apply (paging_ends_when_pages_advance two_page_client 10 video 10 []).
  - intros n r response H Ht. destruct n as [|n]; injection H as <-.
    + eexists _, _. reflexivity.
    + discriminate Ht.
  - lia.
Defined.

(** X17: the hypothesis on the pages is needed: a client that goes on
    answering with an empty page and the name of a next page is asked
    again and again - after any number of rounds the loop has made that
    number of requests and has not ended. *)
Theorem paging_goes_on_with_empty_pages
    (execute : nat -> request -> outcome dict) (fuel : nat)
    (video_id : pyval) (max_results : Z) (log : list request) :
  0 < max_results ->
  (forall n r, exists response,
     execute n r = Returns response
     /\ iterate (get_or "items" (PList []) response) = Returns []
     /\ truthy (get_or "nextPageToken" PNone response) = true) ->
  fst (get_video_comments execute fuel video_id max_results log)
    = Returns None
  /\ length (snd (get_video_comments execute fuel video_id max_results log))
     = (length log + fuel)%nat.
Proof.
  intros Hpos Hempty.
  assert (H : forall token log0,
            fst (fetch_pages execute fuel video_id max_results []
                   token log0) = Returns None
            /\ length (snd (fetch_pages execute fuel video_id
                              max_results [] token log0))
               = (length log0 + fuel)%nat).
  { induction fuel as [|f IH]; intros token log0.
    - cbn [fetch_pages length]. change (Z.of_nat 0) with 0.
      destruct (Z.ltb_spec 0 max_results); [|lia]. cbn [fst snd].
      split; [reflexivity|lia].
    - rewrite fetch_pages_step. cbn [length]. change (Z.of_nat 0) with 0.
      destruct (Z.ltb_spec 0 max_results) as [_|]; [|lia].
      cbv zeta.
      destruct (Hempty (length log0)
                  (CommentThreads video_id (Z.min 100 (max_results - 0)) token))
        as (response & -> & Hitems & Htoken).
      unfold add_page. rewrite Hitems. cbn [obind collect length].
      rewrite Htoken. cbn [negb orb]. change (Z.of_nat 0) with 0.
      destruct (Z.leb_spec max_results 0) as [|_]; [lia|].
      destruct (IH (get_or "nextPageToken" PNone response)
                  (log0 ++ [CommentThreads video_id
                              (Z.min 100 (max_results - 0)) token]))
        as [H1 H2].
      split; [exact H1|]. rewrite H2, length_app. cbn [length]. lia. }
  destruct (H PNone log) as [H1 H2]. unfold get_video_comments.
  destruct (fetch_pages execute fuel video_id max_results [] PNone log)
    as [[[cs|]|e] log']; cbn [fst snd] in *; try discriminate.
  now split.
Qed.

Lemma paging_goes_on_with_empty_pages_witness :
  fst (get_video_comments endless_client 7 (PStr (lit "v")) 5 [])
    = Returns None
  /\ length (snd (get_video_comments endless_client 7 (PStr (lit "v")) 5 []))
     = (length (@nil request) + 7)%nat.
Proof.
  apply (paging_goes_on_with_empty_pages endless_client 7 (PStr (lit "v")) 5 []).
  - lia.
  - intros n r. eexists. repeat split; reflexivity.
Defined.

End PagingEndsClaims.

Section HttpErrors.

Lemma getitem_no_http v key : is_http_error (getitem v key) = false.
Proof.
  destruct v; cbn [getitem]; try reflexivity.
  now destruct (dict_get key d).
Qed.

Lemma first_item_no_http v : is_http_error (first_item v) = false.
Proof. destruct v as [| | | |[|c s]|[|x l]|d]; reflexivity. Qed.

Lemma iterate_no_http v : is_http_error (iterate v) = false.
Proof. now destruct v. Qed.

Lemma obind_no_http {A B} (o : outcome A) (k : A -> outcome B) :
  is_http_error o = false ->
  (forall a, is_http_error (k a) = false) ->
  is_http_error (obind o k) = false.
Proof. destruct o as [a|e]; cbn [obind]; [now intros _ H|now intros H _]. Qed.

Lemma collect_no_http {A} (f : pyval -> outcome A) items acc :
  (forall item, is_http_error (f item) = false) ->
  is_http_error (collect f items acc) = false.
Proof.
  intros Hf. revert acc. induction items as [|item items IH]; intros acc;
    cbn [collect]; [reflexivity|].
  specialize (Hf item). destruct (f item) as [a|e]; [apply IH|exact Hf].
Qed.

Lemma reraise_no_http {A} prefix e :
  is_http_error (@Raises A (reraise prefix e)) = false.
Proof. now destruct e as [[] msg]. Qed.

Lemma video_of_item_no_http item : is_http_error (video_of_item item) = false.
Proof.
  unfold video_of_item.
  repeat (apply obind_no_http;
          [first [apply getitem_no_http
                 |apply obind_no_http; [apply getitem_no_http|intros ?; apply getitem_no_http]]
          |intros ?]).
  reflexivity.
Qed.

Lemma comment_of_item_no_http item :
  is_http_error (comment_of_item item) = false.
Proof.
  unfold comment_of_item.
  apply obind_no_http.
  { repeat (apply obind_no_http; [|intros ?; apply getitem_no_http]).
    apply getitem_no_http. }
  intros ?. repeat (apply obind_no_http; [apply getitem_no_http|intros ?]).
  reflexivity.
Qed.

Lemma add_page_no_http response comments :
  is_http_error (add_page response comments) = false.
Proof.
  unfold add_page. apply obind_no_http; [apply iterate_no_http|].
  intros items. apply collect_no_http, comment_of_item_no_http.
Qed.

(** X18: an [HttpError] never leaves the provider: [get_channel_id] and
    [get_videos_from_channel] raise it again as a [ValueError], and
    [get_video_comments] returns the empty list or raises a
    [ValueError]. *)
Theorem provider_hides_http_errors
    (execute : nat -> request -> outcome dict) (log : list request)
    (channel_name : str) (channel_id video_id : pyval) (max_results : Z)
    (fuel : nat) :
  is_http_error (fst (get_channel_id execute channel_name log)) = false
  /\ is_http_error
       (fst (get_videos_from_channel execute channel_id max_results log))
     = false
  /\ is_http_error
       (fst (get_video_comments execute fuel video_id max_results log))
     = false.
Proof.
  split; [|split].
  - unfold get_channel_id, call.
    destruct (execute _ _) as [resp|e]; cbn [fst]; [|apply reraise_no_http].
    destruct (negb _); [reflexivity|]. cbv zeta.
    destruct (obind _ _) as [cid|e]; cbn [fst]; [reflexivity|].
    apply reraise_no_http.
  - unfold get_videos_from_channel, call.
    destruct (execute _ _) as [resp|e]; cbn [fst]; [|apply reraise_no_http].
    cbv zeta. destruct (obind _ _) as [vs|e]; cbn [fst]; [reflexivity|].
    apply reraise_no_http.
  - unfold get_video_comments.
    destruct (fetch_pages _ _ _ _ _ _ _) as [[[cs|]|[[] msg]] log'];
      try reflexivity.
    now destruct (contains _ msg).
Qed.

End HttpErrors.

Section FailedRequest.

Variable execute : nat -> request -> outcome dict.
Variable video_id : pyval.
Variable max_results : Z.

(** The loop stops at the first request that fails. *)
Lemma fetch_pages_last_request fuel : forall comments token log o log',
  fetch_pages execute fuel video_id max_results comments token log = (o, log') ->
  forall reqs r e,
  log' = log ++ reqs ++ [r] ->
  execute (length (log ++ reqs)) r = Raises e ->
  o = Raises e.
Proof.
  induction fuel as [|fuel IH]; intros comments token log o log'.
  { cbn [fetch_pages]. destruct (_ <? _); intros [= <- <-] reqs r e Hl;
      apply (f_equal length) in Hl; rewrite !length_app in Hl;
      cbn [length] in Hl; lia. }
  rewrite fetch_pages_step. destruct (_ <? _).
  2:{ intros [= <- <-] reqs r e Hl.
      apply (f_equal length) in Hl; rewrite !length_app in Hl;
      cbn [length] in Hl; lia. }
  cbv zeta.
  set (r0 := CommentThreads video_id _ token).
  assert (Hone : forall reqs r,
            log ++ [r0] = log ++ reqs ++ [r] -> reqs = [] /\ r = r0).
  { intros reqs r Hl. apply app_inv_head in Hl.
    destruct reqs as [|x reqs].
    - injection Hl as <-. now split.
    - apply (f_equal length) in Hl. rewrite length_app in Hl.
      cbn [length] in Hl. lia. }
  destruct (execute (length log) r0) as [response|e0] eqn:Ee.
  - assert (Hstop : forall o0 : outcome (option (list pyval)),
              (o0, log ++ [r0]) = (o, log') ->
              forall reqs r e, log' = log ++ reqs ++ [r] ->
              execute (length (log ++ reqs)) r = Raises e -> o = Raises e).
    { intros o0 [= <- <-] reqs r e Hl He.
      destruct (Hone reqs r Hl) as [-> ->].
      rewrite app_nil_r in He. congruence. }
    destruct (add_page response comments) as [comments'|e1]; [|apply Hstop].
    destruct (negb _ || _); [apply Hstop|].
    intros H reqs r e Hl He.
    destruct (fetch_pages_requests _ _ _ _ _ _ _ _ _ H) as (reqs' & Hl' & _).
    rewrite Hl', <- app_assoc in Hl. apply app_inv_head in Hl.
    destruct reqs as [|x reqs].
    + cbn [app] in Hl. injection Hl as <- Hl.
      rewrite app_nil_r in He. congruence.
    + cbn [app] in Hl. injection Hl as <- Hl.
      apply (IH _ _ _ _ _ H reqs r e).
      * rewrite Hl', Hl. reflexivity.
      * rewrite <- app_assoc. exact He.
  - intros [= <- <-] reqs r e Hl He.
    destruct (Hone reqs r Hl) as [-> ->].
    rewrite app_nil_r in He. congruence.
Qed.

End FailedRequest.

Section FailedRequestClaims.

(** X19: when the last request of a call of [get_video_comments] fails, the
    call ends there, whatever pages came before: with the empty list when
    the failure is an [HttpError] whose text has [commentsDisabled] - the
    comments already fetched are dropped -, with a [ValueError] that
    quotes the text for any other [HttpError], and with the exception
    itself when it is of another class. *)
Theorem failed_request_ends_the_call
    (execute : nat -> request -> outcome dict) (fuel : nat)
    (video_id : pyval) (max_results : Z) (log reqs : list request)
    (r : request) (cls : exn_class) (msg : str) :
  snd (get_video_comments execute fuel video_id max_results log)
    = log ++ reqs ++ [r] ->
  execute (length (log ++ reqs)) r = Raises (Exn cls msg) ->
  fst (get_video_comments execute fuel video_id max_results log)
    = on_failure cls msg.
Proof.
  unfold get_video_comments.
  destruct (fetch_pages execute fuel video_id max_results [] PNone log)
    as [o log'] eqn:E.
  intros Hl He.
  assert (Hlog : log' = log ++ reqs ++ [r]).
  { destruct o as [[cs|]|[[] m]]; try exact Hl.
    now destruct (contains _ m). }
  rewrite (fetch_pages_last_request _ _ _ _ _ _ _ _ _ E reqs r _ Hlog He).
  unfold on_failure. destruct cls; try reflexivity.
  now destruct (contains _ msg).
Qed.

Lemma failed_request_ends_the_call_witness :
  snd (get_video_comments disabled_client 5 (PStr (lit "v")) 50 [])
    = [] ++ [CommentThreads (PStr (lit "v")) 50 PNone]
         ++ [CommentThreads (PStr (lit "v")) 49 (PStr (lit "page2"))]
  /\ fst (get_video_comments disabled_client 5 (PStr (lit "v")) 50 [])
     = Returns (Some []).
Proof.
  assert (H1 : snd (get_video_comments disabled_client 5 (PStr (lit "v")) 50 [])
               = [] ++ [CommentThreads (PStr (lit "v")) 50 PNone]
                    ++ [CommentThreads (PStr (lit "v")) 49 (PStr (lit "page2"))])
    by reflexivity.
  split; [exact H1|].
  exact (failed_request_ends_the_call disabled_client 5 (PStr (lit "v")) 50 []
           [CommentThreads (PStr (lit "v")) 50 PNone]
           (CommentThreads (PStr (lit "v")) 49 (PStr (lit "page2")))
           HttpError (lit "<HttpError 403 commentsDisabled>") H1 eq_refl).
Defined.

End FailedRequestClaims.

Section Pages.

Lemma collect_from {A} (f : pyval -> outcome A) items : forall acc,
  collect f items acc
  = match collect f items [] with
    | Returns page => Returns (acc ++ page)
    | Raises e => Raises e
    end.
Proof.
  induction items as [|item items IH]; intros acc; cbn [collect].
  { now rewrite app_nil_r. }
  destruct (f item) as [a|e]; [|reflexivity].
  rewrite (IH (acc ++ [a])), (IH ([] ++ [a])).
  destruct (collect f items []) as [page|e]; [|reflexivity].
  now rewrite <- app_assoc.
Qed.

(** The loop over the items succeeds exactly when its body does on each
    item, and gives the results in the order of the items. *)
Lemma collect_all {A} (f : pyval -> outcome A) items : forall results,
  collect f items [] = Returns results
  <-> Forall2 (fun item a => f item = Returns a) items results.
Proof.
  induction items as [|item items IH]; intros results; cbn [collect].
  { split; [intros [= <-]; constructor|intros H; now inversion H]. }
  destruct (f item) as [a|e] eqn:Ef.
  - rewrite collect_from.
    destruct (collect f items []) as [page|e] eqn:Ec; cbn [app].
    + split.
      * intros [= <-]. constructor; [exact Ef|]. now apply IH.
      * intros H. inversion H as [|? b ? bs Hb Hbs]; subst.
        apply IH in Hbs. congruence.
    + split; [discriminate|]. intros H.
      inversion H as [|? b ? bs Hb Hbs]; subst.
      apply IH in Hbs. discriminate.
  - split; [discriminate|]. intros H. inversion H; congruence.
Qed.

Lemma add_page_from response comments :
  add_page response comments
  = match add_page response [] with
    | Returns page => Returns (comments ++ page)
    | Raises e => Raises e
    end.
Proof.
  unfold add_page. destruct (iterate _) as [items|e]; [|reflexivity].
  cbn [obind]. apply collect_from.
Qed.

Variable execute : nat -> request -> outcome dict.
Variable video_id : pyval.
Variable max_results : Z.

(** The comments the loop ends with are the ones it began with and the
    comments of the pages it was answered with, in order. *)
Lemma fetch_pages_pages fuel : forall comments token log cs log',
  fetch_pages execute fuel video_id max_results comments token log
  = (Returns (Some cs), log') ->
  exists reqs pages,
    log' = log ++ reqs
    /\ answered execute (length log) reqs pages
    /\ cs = comments ++ concat pages.
Proof.
  induction fuel as [|fuel IH]; intros comments token log cs log'.
  { cbn [fetch_pages]. destruct (_ <? _); [discriminate|].
    intros [= <- <-]. exists [], []. now rewrite !app_nil_r. }
  rewrite fetch_pages_step. destruct (_ <? _).
  2:{ intros [= <- <-]. exists [], []. now rewrite !app_nil_r. }
  cbv zeta. set (r := CommentThreads video_id _ token).
  destruct (execute (length log) r) as [response|e] eqn:Ee; [|discriminate].
  rewrite add_page_from.
  destruct (add_page response []) as [page|e] eqn:Ea; [|discriminate].
  destruct (negb _ || _).
  - intros [= <- <-]. exists [r], [page]. cbn [concat].
    rewrite app_nil_r. split; [reflexivity|]. split; [|reflexivity].
    split; [now exists response|exact I].
  - intros H. destruct (IH _ _ _ _ _ H) as (reqs & pages & -> & Hans & ->).
    exists (r :: reqs), (page :: pages).
    split; [now rewrite <- app_assoc|]. split.
    + split; [now exists response|].
      rewrite length_app in Hans. cbn [length] in Hans.
      now rewrite Nat.add_1_r in Hans.
    + cbn [concat]. now rewrite <- app_assoc.
Qed.

(** An [HttpError] of the loop is the one of a request. *)
Lemma fetch_pages_http fuel : forall comments token log msg log',
  fetch_pages execute fuel video_id max_results comments token log
  = (Raises (Exn HttpError msg), log') ->
  exists n r, execute n r = Raises (Exn HttpError msg).
Proof.
  induction fuel as [|fuel IH]; intros comments token log msg log'.
  { cbn [fetch_pages]. destruct (_ <? _); discriminate. }
  rewrite fetch_pages_step. destruct (_ <? _); [|discriminate].
  cbv zeta. set (r := CommentThreads video_id _ token).
  destruct (execute (length log) r) as [response|e] eqn:Ee.
  - pose proof (add_page_no_http response comments) as Hn.
    destruct (add_page response comments) as [comments'|e].
    + destruct (negb _ || _); [discriminate|]. apply IH.
    + intros [= -> <-]. discriminate Hn.
  - intros [= -> <-]. now exists (length log), r.
Qed.

End Pages.

Section PagesClaims.

(** X20: the list [get_video_comments] returns is the comments of the pages
    its requests were answered with, page after page and in the order of
    each page, cut after [max_results] comments: before the cut no
    comment is left out, none comes twice, none changes place.  The one
    other list it returns is the empty one, after a request that failed
    with an [HttpError] whose text has [commentsDisabled]. *)
Theorem comments_are_the_pages_in_order
    (execute : nat -> request -> outcome dict) (fuel : nat)
    (video_id : pyval) (max_results : Z) (log : list request)
    (comments : list pyval) :
  0 <= max_results ->
  fst (get_video_comments execute fuel video_id max_results log)
    = Returns (Some comments) ->
  (exists reqs pages,
     snd (get_video_comments execute fuel video_id max_results log)
       = log ++ reqs
     /\ answered execute (length log) reqs pages
     /\ comments = take (Z.to_nat max_results) (concat pages))
  \/ (comments = []
      /\ exists n r msg,
           execute n r = Raises (Exn HttpError msg)
           /\ contains (lit "commentsDisabled") msg = true).
Proof.
  intros Hmax. unfold get_video_comments.
  destruct (fetch_pages execute fuel video_id max_results [] PNone log)
    as [[[cs|]|[[] msg]] log'] eqn:E; cbn [fst snd]; try discriminate.
  - intros [= <-]. left.
    destruct (fetch_pages_pages _ _ _ _ _ _ _ _ _ E)
      as (reqs & pages & -> & Hans & ->).
    exists reqs, pages. split; [reflexivity|]. split; [exact Hans|].
    unfold slice_to. destruct (Z.leb_spec 0 max_results); [reflexivity|lia].
  - destruct (contains _ msg) eqn:Ec; cbn [fst]; [|discriminate].
    intros [= <-]. right. split; [reflexivity|].
    destruct (fetch_pages_http _ _ _ _ _ _ _ _ _ E) as (n & r & H).
    now exists n, r, msg.
Qed.

Lemma comments_are_the_pages_in_order_witness :
  let video := PStr (lit "v") in
  let comments := [comment_record "c1" "first"; comment_record "c2" "second"] in
  (exists reqs pages,
     snd (get_video_comments two_page_client 5 video 10 []) = [] ++ reqs
     /\ answered two_page_client 0 reqs pages
     /\ comments = take (Z.to_nat 10) (concat pages))
  \/ (comments = []
      /\ exists n r msg,
           two_page_client n r = Raises (Exn HttpError msg)
           /\ contains (lit "commentsDisabled") msg = true).
Proof.
  intros video comments.
  apply (comments_are_the_pages_in_order two_page_client 5 video 10 []
           comments).
  - lia.
  - reflexivity.
Defined.

(** X21: [get_videos_from_channel] makes one request.  It returns a list
    exactly when every item of the response gives a video, and then one
    video for each item and in the order of the items - as many as the
    response has, whatever [max_results] is; one item that lacks a key
    makes the whole call raise. *)
Theorem videos_follow_items
    (execute : nat -> request -> outcome dict) (channel_id : pyval)
    (max_results : Z) (log : list request) (response : dict)
    (items : list pyval) :
  execute (length log) (VideoSearch channel_id max_results)
    = Returns response ->
  iterate (get_or "items" (PList []) response) = Returns items ->
  snd (get_videos_from_channel execute channel_id max_results log)
    = log ++ [VideoSearch channel_id max_results]
  /\ (forall videos,
        fst (get_videos_from_channel execute channel_id max_results log)
          = Returns videos
        <-> Forall2 (fun item video => video_of_item item = Returns video)
              items videos)
  /\ (forall videos,
        fst (get_videos_from_channel execute channel_id max_results log)
          = Returns videos ->
        length videos = length items).
Proof.
  intros He Hi. unfold get_videos_from_channel, call. rewrite He, Hi.
  cbv zeta. cbn [obind].
  assert (Hiff : forall videos,
            fst (match collect video_of_item items [] with
                 | Returns videos0 =>
                     (Returns videos0, log ++ [VideoSearch channel_id max_results])
                 | Raises e =>
                     (Raises (reraise "Error fetching videos: " e),
                      log ++ [VideoSearch channel_id max_results])
                 end) = Returns videos
            <-> Forall2 (fun item video => video_of_item item = Returns video)
                  items videos).
  { intros videos. rewrite <- collect_all.
    destruct (collect video_of_item items []); cbn [fst];
      split; congruence. }
  split; [now destruct (collect video_of_item items [])|].
  split; [exact Hiff|].
  intros videos H. apply Hiff in H. symmetry. exact (Forall2_length _ _ _ H).
Qed.

Lemma videos_follow_items_witness :
  let client : nat -> request -> outcome dict :=
    fun _ _ =>
      Returns [ (lit "items", PList [video_item "v1" "one"; video_item "v2" "two";
                                     video_item "v3" "three"]) ] in
  fst (get_videos_from_channel client (PStr (lit "UC1")) 2 [])
    = Returns [video_record "v1" "one"; video_record "v2" "two";
               video_record "v3" "three"]
  /\ length [video_record "v1" "one"; video_record "v2" "two";
             video_record "v3" "three"] = 3%nat.
Proof.
  intros client.
  destruct (videos_follow_items client (PStr (lit "UC1")) 2 []
              [ (lit "items", PList [video_item "v1" "one"; video_item "v2" "two";
                                     video_item "v3" "three"]) ]
              [video_item "v1" "one"; video_item "v2" "two";
               video_item "v3" "three"] eq_refl eq_refl)
    as (_ & Hiff & Hlen).
  assert (H : fst (get_videos_from_channel client (PStr (lit "UC1")) 2 [])
              = Returns [video_record "v1" "one"; video_record "v2" "two";
                         video_record "v3" "three"]).
  { apply Hiff. repeat constructor. }
  split; [exact H|]. exact (Hlen _ H).
Defined.

(** X22: [get_channel_id] returns an id exactly when the search is answered
    and the id stands in the response at [items], first item, [id],
    [channelId]; the test for a channel that was not found never turns
    down a response in which the id can be read. *)
Theorem channel_id_is_read_from_response
    (execute : nat -> request -> outcome dict) (channel_name : str)
    (log : list request) (channel_id : pyval) :
  fst (get_channel_id execute channel_name log) = Returns channel_id
  <-> exists response items item id,
        execute (length log) (ChannelSearch channel_name) = Returns response
        /\ dict_get (lit "items") response = Some items
        /\ first_item items = Returns item
        /\ getitem item (lit "id") = Returns id
        /\ getitem id (lit "channelId") = Returns channel_id.
Proof.
  unfold get_channel_id, call.
  destruct (execute (length log) (ChannelSearch channel_name))
    as [response|e]; cbn [fst].
  2:{ split; [discriminate|]. intros (? & ? & ? & ? & H & _). discriminate. }
  unfold get_or. cbn [getitem].
  destruct (dict_get (lit "items") response) as [items|] eqn:Ei.
  2:{ change (default PNone None) with PNone. cbn [truthy negb fst].
      split; [discriminate|].
      intros (r' & ? & ? & ? & [= <-] & H & _). congruence. }
  change (default PNone (Some items)) with items.
  assert (Hfirst : forall item, first_item items = Returns item ->
            truthy items = true).
  { intros item. destruct items as [| | | |[|c s]|[|x l]|d]; cbn;
      try discriminate; try reflexivity. }
  cbn [obind].
  destruct (first_item items) as [item|e] eqn:Ef.
  - rewrite (Hfirst item eq_refl). cbn [negb obind].
    destruct (getitem item (lit "id")) as [id|e] eqn:Eid; cbn [obind].
    + destruct (getitem id (lit "channelId")) as [cid|e] eqn:Ec; cbn [fst].
      * split.
        -- intros [= <-]. exists response, items, item, id.
           now repeat split.
        -- intros (r' & i' & it' & id' & Hr & Hi' & Hf & Hid & Hc).
           injection Hr as <-. rewrite Ei in Hi'. injection Hi' as <-.
           congruence.
      * split; [discriminate|].
        intros (r' & i' & it' & id' & Hr & Hi' & Hf & Hid & Hc).
           injection Hr as <-. rewrite Ei in Hi'. injection Hi' as <-.
        congruence.
    + split; [discriminate|].
      intros (r' & i' & it' & id' & Hr & Hi' & Hf & Hid & Hc).
           injection Hr as <-. rewrite Ei in Hi'. injection Hi' as <-.
      congruence.
  - split.
    + destruct (negb (truthy items)); cbn [obind fst]; discriminate.
    + intros (r' & i' & it' & id' & Hr & Hi' & Hf & Hid & Hc).
           injection Hr as <-. rewrite Ei in Hi'. injection Hi' as <-.
      congruence.
Qed.

End PagesClaims.

(** * The table of the report *)

Import Report ReportProps.

Section Table.

Lemma strs_of_ok l : forall i,
  (exists ss, strs_of i l = Ok ss)
  <-> forallb (fun x => match x with PStr _ => true | _ => false end) l = true.
Proof.
  induction l as [|x l IH]; intros i; [now split; [|eexists]|].
  cbn [strs_of forallb].
  destruct x; cbn [andb];
    try (split; [intros [ss H]; discriminate|discriminate]).
  rewrite <- (IH (S i)). split.
  - intros [ss H]. destruct (strs_of (S i) l); [now eexists|discriminate].
  - intros [ss ->]. now eexists.
Qed.

Lemma py_join_ok sep v : (exists s, py_join sep v = Ok s) <-> joinable v = true.
Proof.
  destruct v; cbn [py_join joinable];
    try (split; [intros [s0 H]; discriminate|discriminate]);
    try (split; [reflexivity|intros _; now eexists]).
  rewrite <- (strs_of_ok l 0). unfold rbind. split.
  - intros [s0 H]. destruct (strs_of 0 l); [now eexists|discriminate].
  - intros [ss ->]. now eexists.
Qed.

Lemma add_joined_ok key d row :
  (exists row', add_joined key d row = Ok row') <-> joinable_at key d = true.
Proof.
  unfold add_joined, joinable_at, dict_has.
  destruct (dict_get (lit key) d) as [v|];
    [|split; [reflexivity|intros _; now eexists]].
  change (default PNone (Some v)) with v.
  rewrite <- (py_join_ok (lit ", ") v). unfold rbind. split.
  - intros [row' H]. destruct (py_join _ v); [now eexists|discriminate].
  - intros [s ->]. now eexists.
Qed.

(** [add_joined] leaves the columns that are already there. *)
Lemma add_joined_keeps key d row row' k :
  add_joined key d row = Ok row' -> lit key <> k ->
  dict_get k row' = dict_get k row.
Proof.
  unfold add_joined. destruct (dict_has (lit key) d); [|now intros [= <-]].
  unfold rbind. destruct (py_join _ _) as [s|e]; [|discriminate].
  intros [= <-] Hk. induction row as [|[k0 v0] row IH]; cbn [dict_set dict_get].
  - now rewrite str_eqb_neq.
  - destruct (str_eqb k0 (lit key)) eqn:E; cbn [dict_get].
    + destruct (str_eqb k0 k) eqn:E2; [|reflexivity].
      unfold str_eqb in E, E2. apply bool_decide_eq_true in E, E2. congruence.
    + now rewrite IH.
Qed.

Lemma field_ok c key :
  (exists v, field c key = Ok v) <-> dict_has (lit key) (fields c) = true.
Proof.
  unfold field, dict_has. destruct (dict_get _ _); split;
    try discriminate; try reflexivity; [now eexists|intros [v H]; discriminate].
Qed.

(** The row of a comment: when there is one, and what its first
    columns are. *)
Lemma row_of_ok c sa :
  (exists row, row_of c sa = Ok row)
  <-> match sa with
      | PDict d => provider_keys c && joinable_at "topics" d
                   && joinable_at "emotional_tone" d
      | _ => false
      end = true.
Proof.
  unfold row_of, provider_keys, field, text_field, dict_has.
  destruct (dict_get (lit "id") (fields c)) as [id|]; cbn [rbind andb].
  2:{ split; [intros [row H]; discriminate|]. now destruct sa. }
  destruct (text c) as [t|]; cbn [rbind andb].
  2:{ split; [intros [row H]; discriminate|]. now destruct sa. }
  destruct (dict_get (lit "author") (fields c)) as [au|]; cbn [rbind andb].
  2:{ split; [intros [row H]; discriminate|]. now destruct sa. }
  destruct (dict_get (lit "published_at") (fields c)) as [pa|]; cbn [rbind andb].
  2:{ split; [intros [row H]; discriminate|]. now destruct sa. }
  destruct (dict_get (lit "like_count") (fields c)) as [lc|]; cbn [rbind andb].
  2:{ split; [intros [row H]; discriminate|]. now destruct sa. }
  destruct sa as [| | | | | |d]; cbn [with_get rbind];
    try (split; [intros [row H]; discriminate|discriminate]).
  cbv zeta. split.
  - intros [row H].
    destruct (add_joined "topics" d _) as [row1|e] eqn:E1; [|discriminate].
    cbn [rbind] in H. apply andb_true_iff. split.
    + eapply add_joined_ok. eexists. exact E1.
    + eapply add_joined_ok. eexists. exact H.
  - intros H. apply andb_true_iff in H as [H1 H2].
    match goal with
    | |- context [add_joined "topics" d ?row0] =>
        apply (add_joined_ok "topics" d row0) in H1 as [row1 ->]
    end.
    cbn [rbind]. now apply add_joined_ok.
Qed.

Lemma row_of_columns c sa row :
  row_of c sa = Ok row ->
  exists d, sa = PDict d
    /\ dict_get (lit "comment_id") row = dict_get (lit "id") (fields c)
    /\ dict_get (lit "sentiment") row
       = Some (default (PStr (lit "unknown")) (dict_get (lit "sentiment") d)).
Proof.
  unfold row_of, field, text_field.
  destruct (dict_get (lit "id") (fields c)) as [id|]; [|discriminate].
  destruct (text c) as [t|]; [|discriminate].
  destruct (dict_get (lit "author") (fields c)) as [au|]; [|discriminate].
  destruct (dict_get (lit "published_at") (fields c)) as [pa|]; [|discriminate].
  destruct (dict_get (lit "like_count") (fields c)) as [lc|]; [|discriminate].
  cbn [rbind].
  destruct sa as [| | | | | |d]; try discriminate. cbn [with_get rbind]. cbv zeta.
  destruct (add_joined "topics" d _) as [row1|e] eqn:E1; [|discriminate].
  cbn [rbind]. intros E2. exists d. split; [reflexivity|].
  rewrite !(add_joined_keeps _ _ _ _ _ E2) by discriminate.
  rewrite !(add_joined_keeps _ _ _ _ _ E1) by discriminate.
  now split.
Qed.

End Table.

Section TableClaims.

(** X23: the table is made exactly when every comment that has a record has
    the five keys of the provider, a record that is a dict, and [topics]
    and [emotional_tone] that can be joined; a missing key, a record that
    is a list or a string, a topic that is no string make
    [_comments_to_dataframe] raise. *)
Theorem table_needs_ready_comments (cs : list comment) :
  (exists rows, _comments_to_dataframe cs = Ok rows)
  <-> forallb row_ready cs = true.
Proof.
  induction cs as [|c cs IH]; [now split; [|eexists]|].
  cbn [_comments_to_dataframe forallb]. unfold row_ready at 1.
  destruct (sentiment_analysis c) as [sa|]; [|exact IH].
  rewrite andb_true_iff, <- IH.
  assert (Hrow := row_of_ok c sa).
  destruct (row_of c sa) as [row|e]; cbn [rbind].
  - assert (Hr : match sa with
                 | PDict d => provider_keys c && joinable_at "topics" d
                              && joinable_at "emotional_tone" d
                 | _ => false
                 end = true) by (apply Hrow; now eexists).
    split.
    + intros [rows H]. split; [now destruct sa|].
      destruct (_comments_to_dataframe cs); [now eexists|discriminate].
    + intros [_ [rows ->]]. now eexists.
  - split; [intros [rows H]; discriminate|].
    intros [Hr _]. assert (H : exists row, @Raise dict e = Ok row).
    { apply Hrow. now destruct sa. }
    destruct H as [row H]. discriminate.
Qed.

(** X24: the table has one row for each comment that has a record, in the
    order of the comments and with its id in the column [comment_id]; it
    is empty exactly when no comment has a record. *)
Theorem table_rows_follow_comments (cs : list comment) (rows : list dict) :
  _comments_to_dataframe cs = Ok rows ->
  map (dict_get (lit "comment_id")) rows
  = map (fun c => dict_get (lit "id") (fields c))
      (filter (fun c => has_sentiment c = true) cs)
  /\ length rows = length (filter (fun c => has_sentiment c = true) cs)
  /\ (empty rows = true <-> Forall (fun c => sentiment_analysis c = None) cs).
Proof.
  revert rows. induction cs as [|c cs IH]; intros rows.
  { intros [= <-]. repeat split; constructor. }
  cbn [_comments_to_dataframe].
  destruct (sentiment_analysis c) as [sa|] eqn:Es.
  - assert (Hh : has_sentiment c = true)
      by (unfold has_sentiment; now rewrite Es).
    rewrite filter_cons_True by exact Hh.
    destruct (row_of c sa) as [row|e] eqn:Er; [|discriminate]. cbn [rbind].
    destruct (_comments_to_dataframe cs) as [rows'|e]; [|discriminate].
    cbn [rbind]. intros [= <-].
    destruct (IH rows' eq_refl) as (Hids & Hlen & _).
    destruct (row_of_columns _ _ _ Er) as (d & _ & Hid & _).
    cbn [map length]. rewrite Hid, Hids, Hlen.
    repeat split; try discriminate.
    intros H. apply Forall_cons in H as [H _]. congruence.
  - assert (Hh : has_sentiment c = false)
      by (unfold has_sentiment; now rewrite Es).
    rewrite filter_cons_False by (rewrite Hh; discriminate). intros H.
    destruct (IH rows H) as (Hids & Hlen & He).
    repeat split; try assumption.
    + intros Hr. constructor; [exact Es|now apply He].
    + intros Hf. apply He. now apply Forall_cons in Hf as [_ Hf].
Qed.

Lemma table_rows_follow_comments_witness :
  let cs := [ provided "a" "great" (Some (PDict full_record));
              provided "b" "hm" None;
              provided "c" "?" (Some (PDict _create_default_result)) ] in
  exists rows,
    _comments_to_dataframe cs = Ok rows
    /\ map (dict_get (lit "comment_id")) rows
       = [Some (PStr (lit "a")); Some (PStr (lit "c"))]
    /\ length rows = 2%nat.
Proof.
  intros cs.
  destruct (_comments_to_dataframe cs) as [rows|e] eqn:E; [|discriminate].
  destruct (table_rows_follow_comments cs rows E) as (Hids & Hlen & _).
  exists rows. split; [reflexivity|]. split; [exact Hids|exact Hlen].
Defined.

End TableClaims.

Section TableAndSummary.

Lemma rows_with_cons label row rows :
  rows_with label (row :: rows)
  = (if match dict_get (lit "sentiment") row with
        | Some v => is_str (lit label) v
        | None => false
        end then 1 else 0) + rows_with label rows.
Proof.
  unfold rows_with. rewrite filter_cons.
  destruct (match dict_get (lit "sentiment") row with
            | Some v => is_str (lit label) v
            | None => false
            end);
    [rewrite decide_True by reflexivity
    |rewrite decide_False by discriminate]; simpl length; lia.
Qed.

Lemma table_records_ok cs rows :
  _comments_to_dataframe cs = Ok rows -> Forall record_ok cs.
Proof.
  revert rows. induction cs as [|c cs IH]; intros rows; [constructor|].
  cbn [_comments_to_dataframe]. unfold record_ok at 1.
  destruct (sentiment_analysis c) as [sa|] eqn:Es.
  - destruct (row_of c sa) as [row|e] eqn:Er; [|discriminate]. cbn [rbind].
    destruct (_comments_to_dataframe cs) as [rows'|e]; [|discriminate].
    intros _. destruct (row_of_columns _ _ _ Er) as (d & -> & _).
    constructor; [unfold record_ok; now rewrite Es|exact (IH rows' eq_refl)].
  - intros H. constructor; [unfold record_ok; now rewrite Es|exact (IH rows H)].
Qed.

(** The rows with a label in the column [sentiment], counted on the
    comments. *)
Lemma rows_with_counts cs : forall rows,
  _comments_to_dataframe cs = Ok rows ->
  rows_with "positive" rows = count_if (labelled (lit "positive")) cs
  /\ rows_with "negative" rows = count_if (labelled (lit "negative")) cs
  /\ rows_with "neutral" rows = count_if (labelled (lit "neutral")) cs
  /\ rows_with "unknown" rows + count_if no_record cs
     = count_if unlabelled cs + count_if (labelled (lit "unknown")) cs.
Proof.
  induction cs as [|c cs IH]; intros rows.
  { intros [= <-]. now repeat split. }
  cbn [_comments_to_dataframe]. rewrite !count_if_cons.
  destruct (sentiment_analysis c) as [sa|] eqn:Es.
  - destruct (row_of c sa) as [row|e] eqn:Er; [|discriminate]. cbn [rbind].
    destruct (_comments_to_dataframe cs) as [rows'|e]; [|discriminate].
    cbn [rbind]. intros [= <-].
    destruct (IH rows' eq_refl) as (H1 & H2 & H3 & H4).
    destruct (row_of_columns _ _ _ Er) as (d & -> & _ & Hs).
    assert (HL : forall l, labelled l c
                   = match dict_get (lit "sentiment") d with
                     | Some v => is_str l v
                     | None => false
                     end)
      by (intros l; unfold labelled; now rewrite Es).
    assert (HU : unlabelled c = negb (dict_has (lit "sentiment") d))
      by (unfold unlabelled; now rewrite Es).
    assert (HN : no_record c = false) by (unfold no_record; now rewrite Es).
    rewrite !rows_with_cons, Hs, H1, H2, H3, !HL, HU, HN. unfold dict_has.
    destruct (dict_get (lit "sentiment") d) as [x|].
    + change (default (PStr (lit "unknown")) (Some x)) with x. cbn [negb].
      repeat split; try reflexivity.
      destruct (is_str (lit "unknown") x); lia.
    + change (default (PStr (lit "unknown")) None) with (PStr (lit "unknown")).
      cbn [negb].
      change (is_str (lit "positive") (PStr (lit "unknown"))) with false.
      change (is_str (lit "negative") (PStr (lit "unknown"))) with false.
      change (is_str (lit "neutral") (PStr (lit "unknown"))) with false.
      change (is_str (lit "unknown") (PStr (lit "unknown"))) with true.
      cbv iota. repeat split; try reflexivity. lia.
  - assert (HL : forall l, labelled l c = false)
      by (intros l; unfold labelled; now rewrite Es).
    assert (HU : unlabelled c = true) by (unfold unlabelled; now rewrite Es).
    assert (HN : no_record c = true) by (unfold no_record; now rewrite Es).
    rewrite !HL, HU, HN. intros H.
    destruct (IH rows H) as (H1 & H2 & H3 & H4).
    repeat split; try assumption. lia.
Qed.

End TableAndSummary.

Section TableAndSummaryClaims.

(** X25: when the table of a video can be made, so can its summary, and the
    two agree on what they count alike: the rows with [positive],
    [negative] and [neutral] in the column [sentiment] are as many as the
    summary counts.  On [unknown] they differ: the table puts there the
    records labelled [unknown] and the records without a label, the
    summary the comments without a label, a record or none. *)
Theorem table_agrees_with_summary (cs : list comment) (rows : list dict) :
  _comments_to_dataframe cs = Ok rows ->
  exists s,
    sentiment_summary_of cs = Ok s
    /\ rows_with "positive" rows = count_of (counts s) (lit "positive")
    /\ rows_with "negative" rows = count_of (counts s) (lit "negative")
    /\ rows_with "neutral" rows = count_of (counts s) (lit "neutral")
    /\ rows_with "unknown" rows + count_if no_record cs
       = count_of (counts s) (lit "unknown")
         + count_if (labelled (lit "unknown")) cs.
Proof.
  intros H. pose proof (table_records_ok cs rows H) as Hok.
  destruct (rows_with_counts cs rows H) as (H1 & H2 & H3 & H4).
  unfold sentiment_summary_of.
  rewrite (collect_sentiments_labels cs Hok).
  rewrite !count_label_labels, (labels_unlabelled cs Hok).
  eexists. split; [reflexivity|]. cbn [counts].
  now repeat split.
Qed.

Lemma table_agrees_with_summary_witness :
  let cs := [ provided "a" "great" (Some (PDict full_record));
              provided "b" "hm" None;
              provided "c" "so so"
                (Some (PDict (dict_set (lit "sentiment") (PStr (lit "neutral"))
                                _create_default_result)));
              provided "d" "?" (Some (PDict _create_default_result)) ] in
  exists rows s,
    _comments_to_dataframe cs = Ok rows
    /\ sentiment_summary_of cs = Ok s
    /\ rows_with "neutral" rows = 1
    /\ count_of (counts s) (lit "neutral") = 1
    /\ rows_with "unknown" rows = 1
    /\ count_of (counts s) (lit "unknown") = 1.
Proof.
  intros cs.
  destruct (_comments_to_dataframe cs) as [rows|e] eqn:E; [|discriminate].
  destruct (table_agrees_with_summary cs rows E) as (s & Hs & _ & _ & Hn & _).
  exists rows, s. split; [reflexivity|]. split; [exact Hs|].
  vm_compute in E. injection E as <-.
  vm_compute in Hs. injection Hs as <-.
  now repeat split.
Defined.

End TableAndSummaryClaims.
